(** * manimlib/shader_wrapper.py: a shallow embedding and its properties

    The definitions come first, one module for each part of the source:

    - [Py]: exceptions and the [str] and [os.path] operations the module
      calls;
    - [Source]: [get_shader_code_from_file] and the [#INSERT] directive;
    - [Colormap]: [get_colormap_code];
    - [Wrapper]: the class [ShaderWrapper] over a store of objects, with
      [__eq__], [copy], [create_id], [refresh_id], [read_in] and
      [combine_with], the insertion-ordered [dict]s and the NumPy
      operations on one-dimensional arrays that these use.

    The properties follow in [ColormapFacts], [SourceFacts] and
    [WrapperFacts]. *)

From stdpp Require Import gmap strings list fin_maps pretty.
From Stdlib Require Import ZArith Ascii.

Set Default Proof Using "Type".

(* ===================================================================== *)
(** * Python values                                                       *)
(* ===================================================================== *)

Module Py.

(** The exceptions that the modelled code can raise.  [RecursionError] is
    what CPython raises when the nesting of calls exceeds the interpreter's
    recursion limit, [OverflowError] what NumPy raises for a Python [int]
    that the dtype of an array cannot hold. *)
Inductive exn :=
  | TypeError | ValueError | KeyError | IndexError | OSError
  | RecursionError | OverflowError | ReferenceError.

(** The result of evaluating a Python expression: a value, or a raised
    exception that nothing in this module catches. *)
Inductive outcome (A : Type) :=
  | Return (a : A)
  | Raise (e : exn).
Arguments Return {A} a.
Arguments Raise {A} e.

Global Instance exn_eq_dec : EqDecision exn.
Proof. solve_decision. Defined.
Global Instance outcome_eq_dec {A} `{EqDecision A} : EqDecision (outcome A).
Proof. solve_decision. Defined.

Definition obind {A B} (x : outcome A) (f : A → outcome B) : outcome B :=
  match x with
  | Return a => f a
  | Raise e => Raise e
  end.

Definition returns {A} (x : outcome A) : bool :=
  match x with Return _ => true | Raise _ => false end.

(** ** [str] *)

Definition newline : ascii := "010"%char.

(** [old in s] *)
Fixpoint str_contains (old s : string) : bool :=
  String.prefix old s ||
  match s with
  | EmptyString => false
  | String _ s' => str_contains old s'
  end.

(** [c in s] for a character [c] *)
Fixpoint str_mem (c : ascii) (s : string) : bool :=
  match s with
  | EmptyString => false
  | String a s' => Ascii.eqb a c || str_mem c s'
  end.

(** [s.replace(old, new)]: every non-overlapping occurrence of [old],
    found from left to right, is replaced by [new].  [skip] counts the
    characters of a matched occurrence that are still to be passed over. *)
Fixpoint str_replace_from (old new : string) (skip : nat) (s : string)
    : string :=
  match s with
  | EmptyString => EmptyString
  | String c s' =>
      match skip with
      | S k => str_replace_from old new k s'
      | O =>
          if String.prefix old s
          then new +:+ str_replace_from old new (String.length old - 1) s'
          else String c (str_replace_from old new 0 s')
      end
  end.

(** With an empty [old], Python puts [new] before every character and at
    the end. *)
Fixpoint str_intersperse (new s : string) : string :=
  match s with
  | EmptyString => new
  | String c s' => new +:+ String c (str_intersperse new s')
  end.

Definition str_replace (s old new : string) : string :=
  match old with
  | EmptyString => str_intersperse new s
  | _ => str_replace_from old new 0 s
  end.

(** [s.split(sep)] for a one-character separator. *)
Fixpoint str_split (sep : ascii) (s : string) : list string :=
  match s with
  | EmptyString => [EmptyString]
  | String c s' =>
      if Ascii.eqb c sep then EmptyString :: str_split sep s'
      else match str_split sep s' with
           | l :: ls => String c l :: ls
           | [] => [String c EmptyString]
           end
  end.

(** [sep.join(parts)], as CPython computes it: the parts are appended to
    the result one after the other, the separator before each part but
    the first. *)
Fixpoint str_join_from (sep acc : string) (parts : list string) : string :=
  match parts with
  | [] => acc
  | p :: parts' => str_join_from sep (acc +:+ sep +:+ p) parts'
  end.

Definition str_join (sep : string) (parts : list string) : string :=
  match parts with
  | [] => EmptyString
  | p :: parts' => str_join_from sep p parts'
  end.

(** [s.endswith(suffix)] *)
Definition str_endswith (s suffix : string) : bool :=
  bool_decide
    (String.substring (String.length s - String.length suffix)
       (String.length suffix) s = suffix
     ∧ String.length suffix ≤ String.length s).

(** [s.removeprefix(p)] when [s] starts with [p], [None] otherwise. *)
Fixpoint str_strip_prefix (p s : string) : option string :=
  match p, s with
  | EmptyString, _ => Some s
  | String a p', String b s' =>
      if Ascii.eqb a b then str_strip_prefix p' s' else None
  | String _ _, EmptyString => None
  end.

(** [str(n)] of a Python [int], and [str(b)] of a [bool]. *)
Definition str_of_int (n : Z) : string := pretty n.
Definition str_of_bool (b : bool) : string :=
  if b then "True" else "False".

(** ** [os.path.join(a, b)] with POSIX paths: an absolute [b] discards
    [a]; otherwise the two are joined by one slash (none when [a] is
    empty or already ends with one). *)
Definition os_path_join (a b : string) : string :=
  if String.prefix "/" b then b
  else if bool_decide (a = EmptyString) || str_endswith a "/" then a +:+ b
  else a +:+ "/" +:+ b.

End Py.
Import Py.

(* ===================================================================== *)
(** * [get_shader_code_from_file]                                         *)
(* ===================================================================== *)

Module Source.

(** What the function sees of the outside world.  [find_file] stands for
    the call [find_file(filename, directories=[get_shader_dir(), "/"],
    extensions=[])] of [manimlib.utils.file_ops]: the path it returns, or
    [None] when it raises [IOError].  [read_text] stands for opening that
    path for reading and reading it whole: the text, or the exception that
    [open] raises (a path that exists and cannot be read).  [exhausted]
    is what the call of [find_file] does when the interpreter's stack runs
    out inside it: [None] when it then raises [IOError], as for a file it
    does not find, and otherwise the exception that leaves it. *)
Record file_system := FileSystem {
  find_file : string → option string;
  read_text : string → outcome string;
  exhausted : option exn;
}.


(** A line matched by the regular expression [^#INSERT .*\.glsl$] under
    [re.MULTILINE]: [^] and [$] anchor the match to a whole line, and [.]
    matches every character but the newline, so a match is a line that
    starts with [#INSERT ] and, after it, ends with [.glsl]. *)
Definition is_insert_line (line : string) : bool :=
  match str_strip_prefix "#INSERT " line with
  | Some rest => str_endswith rest ".glsl"
  | None => false
  end.

(** [re.findall(r"^#INSERT .*\.glsl$", result, flags=re.MULTILINE)]: the
    matching lines, from top to bottom, repeated lines included. *)
Definition re_findall_insert (result : string) : list string :=
  List.filter is_insert_line (str_split newline result).

(** [os.path.join("inserts", line.replace("#INSERT ", ""))] *)
Definition insert_target (line : string) : string :=
  os_path_join "inserts" (str_replace line "#INSERT " "").

Section resolve.
Context (fs : file_system).

(** The loop over [insertions].  [rec] is the recursive call.  When it
    returns [None], the call [result.replace(line, None)] raises
    [TypeError]. *)
Fixpoint insert_loop (rec : string → outcome (option string))
    (insertions : list string) (result : string) : outcome (option string) :=
  match insertions with
  | [] => Return (Some result)
  | line :: insertions' =>
      match rec (insert_target line) with
      | Raise e => Raise e
      | Return None => Raise TypeError
      | Return (Some inserted_code) =>
          insert_loop rec insertions' (str_replace result line inserted_code)
      end
  end.

(** [depth] is the number of nested calls for which the interpreter's
    stack suffices.  Every call calls [find_file] before it recurses, and
    [find_file] nests deeper than the recursive call, so the stack never
    runs out at the entry of a call: it runs out inside [find_file], in
    the call that follows the last one with stack enough.  That call
    ([depth] zero) ends by what [find_file] does then: it returns [None]
    after an [IOError], and is left by any other exception.  The
    decorator [lru_cache] stores returned values by file name and is
    transparent as long as the files do not change; it stores no
    exception. *)
Fixpoint get_shader_code_from_file (depth : nat) (filename : string)
    : outcome (option string) :=
  match depth with
  | O =>
      if bool_decide (filename = EmptyString) then Return None
      else match exhausted fs with
           | None => Return None
           | Some e => Raise e
           end
  | S depth' =>
      if bool_decide (filename = EmptyString) then Return None
      else
        match find_file fs filename with
        | None => Return None
        | Some filepath =>
            match read_text fs filepath with
            | Raise e => Raise e
            | Return result =>
                insert_loop (get_shader_code_from_file depth')
                  (re_findall_insert result) result
            end
        end
  end.

(** The files that the directives of [filename] name, in order. *)
Definition include_targets (filename : string) : list string :=
  if bool_decide (filename = EmptyString) then []
  else
    match find_file fs filename with
    | None => []
    | Some filepath =>
        match read_text fs filepath with
        | Raise _ => []
        | Return result => map insert_target (re_findall_insert result)
        end
    end.




(** Every directive of [text] resolves, within [depth] nested calls, to
    the text that [code] gives for it. *)
Definition inserts_resolve_to (depth : nat) (text : string)
    (code : string → string) : bool :=
  forallb (λ line,
    bool_decide (get_shader_code_from_file depth (insert_target line)
                 = Return (Some (code line))))
    (re_findall_insert text).

End resolve.

(** The text of every directive of [text] occurs in [text] only as a
    whole line. *)
Definition directives_only_as_lines (text : string) : bool :=
  forallb (λ line,
    forallb (λ l, implb (str_contains line l) (bool_decide (l = line)))
      (str_split newline text))
    (re_findall_insert text).

(** No text inserted for a directive of [text] contains the text of a
    directive of [text]. *)
Definition inserted_code_clean (text : string) (code : string → string)
    : bool :=
  forallb (λ line,
    forallb (λ line', negb (str_contains line (code line')))
      (re_findall_insert text))
    (re_findall_insert text).

(** The text after each step of the loop: the lines whose directive has
    been processed are replaced, the others are as in the file. *)
Definition spliced (code : string → string) (processed : list string)
    (l : string) : string :=
  if bool_decide (l ∈ processed) then code l else l.

(** Modelled from the spec: [find_file] ([manimlib.utils.file_ops]) is
    not among the sources; the spec has it search a configured set of
    root directories.  Here the files are given by a table, a file is
    found under the name it is asked for, and a file of the table that
    cannot be read makes [open] raise.  A lookup that runs out of stack
    ends like the lookup of a missing file, by [IOError];
    [with_exhausted] gives the other behaviours. *)
Inductive file := Text (content : string) | Unreadable.

Fixpoint table_lookup (files : list (string * file)) (name : string)
    : option file :=
  match files with
  | [] => None
  | (n, f) :: files' =>
      if bool_decide (n = name) then Some f else table_lookup files' name
  end.

Definition fs_of_table (files : list (string * file)) : file_system :=
  {| find_file name :=
       match table_lookup files name with
       | Some _ => Some name
       | None => None
       end;
     read_text path :=
       match table_lookup files path with
       | Some (Text content) => Return content
       | _ => Raise OSError
       end;
     exhausted := None |}.

(** Example trees of shader files. *)
Definition nl : string := String newline EmptyString.

(** Two directives, the text of the first a prefix of the second. *)
Definition fs_overlap : file_system := fs_of_table
  [ ("main.glsl", Text ("#INSERT a.glsl" +:+ nl +:+ "#INSERT a.glsl.glsl"));
    ("inserts/a.glsl", Text "A");
    ("inserts/a.glsl.glsl", Text "B") ].

(** A shader that inserts a fragment that inserts another one. *)
Definition fs_nested : file_system := fs_of_table
  [ ("quad/frag.glsl",
      Text ("#version 330" +:+ nl +:+ "#INSERT finalize_color.glsl" +:+ nl
              +:+ "void main() {}"));
    ("inserts/finalize_color.glsl",
      Text ("#INSERT add_light.glsl" +:+ nl +:+ "vec4 finalize_color();"));
    ("inserts/add_light.glsl", Text "vec4 add_light();") ].

Definition code_nested (line : string) : string :=
  if bool_decide (line = "#INSERT finalize_color.glsl")
  then "vec4 add_light();" +:+ nl +:+ "vec4 finalize_color();"
  else EmptyString.


(** A shader whose directive names no file, and a file that exists and
    cannot be read. *)
Definition fs_missing : file_system := fs_of_table
  [ ("main.glsl", Text ("#INSERT missing.glsl" +:+ nl +:+ "void main() {}"));
    ("secret.glsl", Unreadable) ].

End Source.

(* ===================================================================== *)
(** * [get_colormap_code]                                                 *)
(* ===================================================================== *)

Module Colormap.

(** The format string [vec3({}, {}, {})] applied to the unpacked [rgb]:
    the first three elements of [rgb] fill the three fields, further
    elements are ignored and a missing one raises [IndexError].  The
    components are Python [int]s. *)
Definition format_vec3 (rgb : list Z) : outcome string :=
  match rgb with
  | r :: g :: b :: _ =>
      Return ("vec3(" +:+ str_of_int r +:+ ", " +:+ str_of_int g +:+ ", "
                +:+ str_of_int b +:+ ")")
  | _ => Raise IndexError
  end.

(** The generator expression handed to [join]: it is consumed from left
    to right and stops at the first exception. *)
Fixpoint format_all (rgb_list : list (list Z)) : outcome (list string) :=
  match rgb_list with
  | [] => Return []
  | rgb :: rest =>
      obind (format_vec3 rgb) (λ s,
      obind (format_all rest) (λ ss, Return (s :: ss)))
  end.

Definition get_colormap_code (rgb_list : list (list Z)) : outcome string :=
  obind (format_all rgb_list) (λ parts,
    let data := str_join "," parts in
    Return ("vec3[" +:+ str_of_int (Z.of_nat (length rgb_list)) +:+ "]("
              +:+ data +:+ ")")).

(** The words of the specification: one [vec3(r, g, b)] entry per triple,
    separated by commas, in the order of the input. *)
Definition triple_seq (t : Z * Z * Z) : list Z :=
  let '(r, g, b) := t in [r; g; b].

Definition vec3_entry (t : Z * Z * Z) : string :=
  let '(r, g, b) := t in
  "vec3(" +:+ pretty r +:+ ", " +:+ pretty g +:+ ", " +:+ pretty b +:+ ")".

Fixpoint comma_separated (entries : list string) : string :=
  match entries with
  | [] => EmptyString
  | [e] => e
  | e :: rest => e +:+ "," +:+ comma_separated rest
  end.

End Colormap.

(* ===================================================================== *)
(** * The class [ShaderWrapper]                                           *)
(* ===================================================================== *)

Module Wrapper.

(** ** Insertion-ordered dictionaries *)

(** A Python [dict] with [str] keys: its items in insertion order, no
    key twice. *)
Definition dict (V : Type) : Type := list (string * V).

Fixpoint dict_get {V} (d : dict V) (key : string) : option V :=
  match d with
  | [] => None
  | (k, v) :: d' => if bool_decide (k = key) then Some v else dict_get d' key
  end.

(** [d[key] = value]: an existing key keeps its place, a new key goes to
    the end. *)
Fixpoint dict_set {V} (d : dict V) (key : string) (value : V) : dict V :=
  match d with
  | [] => [(key, value)]
  | (k, v) :: d' =>
      if bool_decide (k = key) then (k, value) :: d'
      else (k, v) :: dict_set d' key value
  end.

(** [str(d)]: the items in insertion order, each key and each value
    through its [repr]. *)
Definition dict_str {V} (repr_key : string → string)
    (repr_value : V → string) (d : dict V) : string :=
  "{" +:+ str_join ", "
            (map (λ '(k, v), repr_key k +:+ ": " +:+ repr_value v) d)
      +:+ "}".

(** The two dictionaries hold the same value under every key. *)
Definition dict_same_map {V} (d1 d2 : dict V) : Prop :=
  ∀ key, dict_get d1 key = dict_get d2 key.

(** ** What the class uses and this file does not define *)

(** NumPy's [==] on two elements of an array. *)
Class NpEq (A : Type) := np_eq : A → A → bool.

(** On integers it is equality. *)
Global Instance Z_np_eq : NpEq Z := Z.eqb.

(** [vertex] is a record of the structured array [vert_data], and
    [vertex_np_eq] is [==] on two records: on the floating-point fields
    it is the comparison of IEEE 754, for which a NaN differs from itself
    and the two zeros are equal.  The index arrays all have one integer
    dtype, of [index_bits] bits, signed or not.  [python_int_checked]
    tells what NumPy does with a Python [int] operand that this dtype
    cannot hold: it raises [OverflowError] (NumPy 2), or computes in a
    wider type (older versions).  [uniform]
    is a value of the dictionary [uniforms], a number or an array.
    [resize_array] is [manimlib.utils.iterables.resize_array]: the
    contents of the array it returns, which has the length asked for;
    [resize_array_same] tells whether it returns the array it was given
    rather than a new one, which it can only do when that array has the
    length asked for.  [eq_shape_mismatch] is what [==] between arrays
    does when the shapes cannot be broadcast (the value [False] in older
    versions of NumPy, [ValueError] since 1.25).  [hash_str] is the
    built-in [hash] on [str]. *)
Class Externals := {
  vertex : Type;
  vertex_np_eq :: NpEq vertex;
  vertex_inhabited :: Inhabited vertex;
  index_bits : nat;
  index_signed : bool;
  python_int_checked : bool;
  uniform : Type;
  uniform_repr : uniform → string;
  uniform_array : uniform → uniform;
  uniform_all_eq : uniform → uniform → outcome bool;
  str_repr : string → string;
  hash_str : string → Z;
  eq_shape_mismatch : outcome bool;
  resize_array : ∀ {A : Type} `{Inhabited A}, list A → nat → list A;
  resize_array_same : ∀ {A : Type}, list A → nat → bool;
  resize_array_length : ∀ (A : Type) `{Inhabited A} (a : list A) (n : nat),
    length (resize_array a n) = n;
  resize_array_same_length : ∀ (A : Type) (a : list A) (n : nat),
    resize_array_same a n = true → length a = n;
}.

(** ** NumPy on one-dimensional arrays *)

Section numpy.
Context `{Externals}.

(** [np.all(a == b)]: arrays of one length are compared element by
    element, an array of length one is compared with every element of
    the other. *)
Definition np_all_eq {A} `{NpEq A} (a b : list A) : outcome bool :=
  if decide (length a = length b)
  then Return (forallb (λ '(x, y), np_eq x y) (zip a b))
  else match a, b with
       | [x], _ => Return (forallb (λ y, np_eq x y) b)
       | _, [y] => Return (forallb (λ x, np_eq x y) a)
       | _, _ => eq_shape_mismatch
       end.

(** The same with [None] allowed on either side: [None == None] is
    [True], and [None] differs from every element of an array. *)
Definition np_all_eq_opt {A} `{NpEq A} (a b : option (list A))
    : outcome bool :=
  match a, b with
  | None, None => Return true
  | Some x, None | None, Some x => Return (bool_decide (length x = 0))
  | Some x, Some y => np_all_eq x y
  end.

(** [target[start:stop] = value] with [0 <= start <= stop]: the bounds
    of the slice are clipped to the array; [value] must have the length
    of the slice, or length one, in which case it fills the slice. *)
Definition setitem_slice {A} (target : list A) (start stop : nat)
    (value : list A) : outcome (list A) :=
  let lo := start `min` length target in
  let hi := lo `max` (stop `min` length target) in
  if decide (length value = hi - lo)
  then Return (take lo target ++ value ++ drop hi target)
  else match value with
       | [x] => Return (take lo target ++ replicate (hi - lo) x
                          ++ drop hi target)
       | _ => Raise ValueError
       end.

(** The values of the dtype of the index arrays: [index_modulus] of them
    from [index_min] on. *)
Definition index_modulus : Z := 2 ^ Z.of_nat index_bits.
Definition index_min : Z :=
  if index_signed then - (index_modulus / 2) else 0.
Definition index_bound : Z := index_min + index_modulus.

(** Integer arithmetic in that dtype wraps around. *)
Definition wrap_index (z : Z) : Z :=
  index_min + (z - index_min) mod index_modulus.

(** [a + n] for an index array [a] and a Python [int] [n] that is not
    negative, as it arrives in an index array: the sum of every element
    and [n] in the dtype.  When the dtype cannot hold [n], NumPy 2
    raises; older versions add in a wider type, and the assignment to
    the index array brings the sum back into the dtype. *)
Definition add_python_int (a : list Z) (n : nat) : outcome (list Z) :=
  if python_int_checked && negb (bool_decide (Z.of_nat n < index_bound))%Z
  then Raise OverflowError
  else Return (map (λ i, wrap_index (i + Z.of_nat n)) a).

End numpy.

(** ** Objects *)

Definition loc := nat.

(** [program_code]: the three slots of the dictionary.  No operation
    modelled here writes to it, so it is kept by value. *)
Record program_code_t := ProgramCode {
  vertex_shader : option string;
  geometry_shader : option string;
  fragment_shader : option string;
}.

(** The attributes of an instance.  Arrays and dictionaries are
    references into the store. *)
Record ShaderWrapper := {
  vert_data : loc;
  vert_indices : option loc;
  vert_attributes : list string;
  shader_folder : option string;
  uniforms : loc;
  texture_paths : loc;
  depth_test : bool;
  use_clip_plane : bool;
  render_primitive : string;
  program_code : program_code_t;
  program_id : Z;
  id : string;
}.

(** The instance after an assignment to one attribute. *)
Definition with_vert_data (sw : ShaderWrapper) (a : loc) : ShaderWrapper :=
  {| vert_data := a;
     vert_indices := vert_indices sw;
     vert_attributes := vert_attributes sw;
     shader_folder := shader_folder sw;
     uniforms := uniforms sw;
     texture_paths := texture_paths sw;
     depth_test := depth_test sw;
     use_clip_plane := use_clip_plane sw;
     render_primitive := render_primitive sw;
     program_code := program_code sw;
     program_id := program_id sw;
     id := id sw |}.
Definition with_vert_indices (sw : ShaderWrapper) (i : option loc)
    : ShaderWrapper :=
  {| vert_data := vert_data sw;
     vert_indices := i;
     vert_attributes := vert_attributes sw;
     shader_folder := shader_folder sw;
     uniforms := uniforms sw;
     texture_paths := texture_paths sw;
     depth_test := depth_test sw;
     use_clip_plane := use_clip_plane sw;
     render_primitive := render_primitive sw;
     program_code := program_code sw;
     program_id := program_id sw;
     id := id sw |}.
Definition with_uniforms (sw : ShaderWrapper) (a : loc) : ShaderWrapper :=
  {| vert_data := vert_data sw;
     vert_indices := vert_indices sw;
     vert_attributes := vert_attributes sw;
     shader_folder := shader_folder sw;
     uniforms := a;
     texture_paths := texture_paths sw;
     depth_test := depth_test sw;
     use_clip_plane := use_clip_plane sw;
     render_primitive := render_primitive sw;
     program_code := program_code sw;
     program_id := program_id sw;
     id := id sw |}.
Definition with_texture_paths (sw : ShaderWrapper) (a : loc) : ShaderWrapper :=
  {| vert_data := vert_data sw;
     vert_indices := vert_indices sw;
     vert_attributes := vert_attributes sw;
     shader_folder := shader_folder sw;
     uniforms := uniforms sw;
     texture_paths := a;
     depth_test := depth_test sw;
     use_clip_plane := use_clip_plane sw;
     render_primitive := render_primitive sw;
     program_code := program_code sw;
     program_id := program_id sw;
     id := id sw |}.
Definition with_program_id (sw : ShaderWrapper) (n : Z) : ShaderWrapper :=
  {| vert_data := vert_data sw;
     vert_indices := vert_indices sw;
     vert_attributes := vert_attributes sw;
     shader_folder := shader_folder sw;
     uniforms := uniforms sw;
     texture_paths := texture_paths sw;
     depth_test := depth_test sw;
     use_clip_plane := use_clip_plane sw;
     render_primitive := render_primitive sw;
     program_code := program_code sw;
     program_id := n;
     id := id sw |}.
Definition with_id (sw : ShaderWrapper) (s : string) : ShaderWrapper :=
  {| vert_data := vert_data sw;
     vert_indices := vert_indices sw;
     vert_attributes := vert_attributes sw;
     shader_folder := shader_folder sw;
     uniforms := uniforms sw;
     texture_paths := texture_paths sw;
     depth_test := depth_test sw;
     use_clip_plane := use_clip_plane sw;
     render_primitive := render_primitive sw;
     program_code := program_code sw;
     program_id := program_id sw;
     id := s |}.

Section store.
Context `{Externals}.

(** The store: the arrays, the dictionaries and the instances that
    exist, each kind under its own references. *)
Record heap := Heap {
  vert_arrays : gmap loc (list vertex);
  index_arrays : gmap loc (list Z);
  uniform_dicts : gmap loc (dict uniform);
  texture_dicts : gmap loc (dict string);
  wrappers : gmap loc ShaderWrapper;
}.

(** A computation reads and writes the store and returns or raises; the
    writes made before an exception stay. *)
Definition M (A : Type) : Type := heap → outcome A * heap.

Definition ret {A} (a : A) : M A := λ h, (Return a, h).
Definition raise {A} (e : exn) : M A := λ h, (Raise e, h).
Definition bind {A B} (m : M A) (f : A → M B) : M B :=
  λ h, match m h with
       | (Return a, h') => f a h'
       | (Raise e, h') => (Raise e, h')
       end.
Definition lift {A} (x : outcome A) : M A := λ h, (x, h).
Definition modify (f : heap → heap) : M unit := λ h, (Return (), f h).

(** A reference without its object does not arise in Python; the store
    answers with [ReferenceError]. *)
Definition from_option {A} (x : option A) : M A :=
  match x with
  | Some a => ret a
  | None => raise ReferenceError
  end.

End store.

Global Instance M_ret `{Externals} : MRet M := @ret _.
Global Instance M_bind `{Externals} : MBind M := λ A B f m, bind m f.

Section methods.
Context `{Externals}.

Definition read_vert (a : loc) : M (list vertex) :=
  λ h, from_option (vert_arrays h !! a) h.
Definition read_index (a : loc) : M (list Z) :=
  λ h, from_option (index_arrays h !! a) h.
Definition read_uniforms (a : loc) : M (dict uniform) :=
  λ h, from_option (uniform_dicts h !! a) h.
Definition read_textures (a : loc) : M (dict string) :=
  λ h, from_option (texture_dicts h !! a) h.
Definition get_wrapper (a : loc) : M ShaderWrapper :=
  λ h, from_option (wrappers h !! a) h.

Definition store_vert (a : loc) (xs : list vertex) (h : heap) : heap :=
  Heap (<[a := xs]> (vert_arrays h)) (index_arrays h) (uniform_dicts h)
    (texture_dicts h) (wrappers h).
Definition store_index (a : loc) (xs : list Z) (h : heap) : heap :=
  Heap (vert_arrays h) (<[a := xs]> (index_arrays h)) (uniform_dicts h)
    (texture_dicts h) (wrappers h).
Definition store_uniforms (a : loc) (d : dict uniform) (h : heap) : heap :=
  Heap (vert_arrays h) (index_arrays h) (<[a := d]> (uniform_dicts h))
    (texture_dicts h) (wrappers h).
Definition store_textures (a : loc) (d : dict string) (h : heap) : heap :=
  Heap (vert_arrays h) (index_arrays h) (uniform_dicts h)
    (<[a := d]> (texture_dicts h)) (wrappers h).
Definition store_wrapper (a : loc) (sw : ShaderWrapper) (h : heap) : heap :=
  Heap (vert_arrays h) (index_arrays h) (uniform_dicts h)
    (texture_dicts h) (<[a := sw]> (wrappers h)).

(** A new object gets a reference that no object of its kind has. *)
Definition new_vert (xs : list vertex) : M loc :=
  λ h, let a := fresh (dom (vert_arrays h)) in (Return a, store_vert a xs h).
Definition new_index (xs : list Z) : M loc :=
  λ h, let a := fresh (dom (index_arrays h)) in
       (Return a, store_index a xs h).
Definition new_uniforms (d : dict uniform) : M loc :=
  λ h, let a := fresh (dom (uniform_dicts h)) in
       (Return a, store_uniforms a d h).
Definition new_textures (d : dict string) : M loc :=
  λ h, let a := fresh (dom (texture_dicts h)) in
       (Return a, store_textures a d h).
Definition new_wrapper (sw : ShaderWrapper) : M loc :=
  λ h, let a := fresh (dom (wrappers h)) in (Return a, store_wrapper a sw h).

(** Writing in place to an array or a dictionary that exists. *)
Definition write_vert (a : loc) (xs : list vertex) : M unit :=
  _ ← read_vert a; modify (store_vert a xs).
Definition write_index (a : loc) (xs : list Z) : M unit :=
  _ ← read_index a; modify (store_index a xs).
Definition write_uniforms (a : loc) (d : dict uniform) : M unit :=
  _ ← read_uniforms a; modify (store_uniforms a d).
Definition write_textures (a : loc) (d : dict string) : M unit :=
  _ ← read_textures a; modify (store_textures a d).

(** [d[key] = value] on a dictionary of the store. *)
Definition setitem_uniforms (a : loc) (key : string) (value : uniform)
    : M unit :=
  d ← read_uniforms a; write_uniforms a (dict_set d key value).
Definition setitem_textures (a : loc) (key : string) (value : string)
    : M unit :=
  d ← read_textures a; write_textures a (dict_set d key value).

(** Assignments to the attributes that the methods assign. *)
Definition set_vert_data (self a : loc) : M unit :=
  sw ← get_wrapper self; modify (store_wrapper self (with_vert_data sw a)).
Definition set_vert_indices (self : loc) (a : option loc) : M unit :=
  sw ← get_wrapper self; modify (store_wrapper self (with_vert_indices sw a)).
Definition set_uniforms (self a : loc) : M unit :=
  sw ← get_wrapper self; modify (store_wrapper self (with_uniforms sw a)).
Definition set_texture_paths (self a : loc) : M unit :=
  sw ← get_wrapper self;
  modify (store_wrapper self (with_texture_paths sw a)).
Definition set_program_id (self : loc) (n : Z) : M unit :=
  sw ← get_wrapper self; modify (store_wrapper self (with_program_id sw n)).
Definition set_id (self : loc) (s : string) : M unit :=
  sw ← get_wrapper self; modify (store_wrapper self (with_id sw s)).

(** *** [__eq__] *)

(** [all(np.all(self.uniforms[key] == shader_wrapper.uniforms[key]) for
    key in self.uniforms)]: the keys of [self] in order; a key that the
    other dictionary lacks raises [KeyError]; the first difference ends
    the iteration. *)
Fixpoint all_uniforms_eq (mine theirs : dict uniform) : outcome bool :=
  match mine with
  | [] => Return true
  | (key, value) :: mine' =>
      match dict_get theirs key with
      | None => Raise KeyError
      | Some value' =>
          obind (uniform_all_eq value value') (λ b,
            if b then all_uniforms_eq mine' theirs else Return false)
      end
  end.

Fixpoint all_texture_paths_eq (mine theirs : dict string) : outcome bool :=
  match mine with
  | [] => Return true
  | (key, value) :: mine' =>
      match dict_get theirs key with
      | None => Raise KeyError
      | Some value' =>
          if bool_decide (value = value')
          then all_texture_paths_eq mine' theirs else Return false
      end
  end.

Definition read_opt_index (a : option loc) : M (option (list Z)) :=
  match a with
  | None => ret None
  | Some i => xs ← read_index i; ret (Some xs)
  end.

(** The seven components of the tuple are all evaluated, in order,
    before [all] looks at them. *)
Definition __eq__ (self shader_wrapper : loc) : M bool :=
  sw ← get_wrapper self;
  other ← get_wrapper shader_wrapper;
  d1 ← read_vert (vert_data sw);
  d2 ← read_vert (vert_data other);
  c1 ← lift (np_all_eq d1 d2);
  i1 ← read_opt_index (vert_indices sw);
  i2 ← read_opt_index (vert_indices other);
  c2 ← lift (np_all_eq_opt i1 i2);
  let c3 := bool_decide (shader_folder sw = shader_folder other) in
  u1 ← read_uniforms (uniforms sw);
  u2 ← read_uniforms (uniforms other);
  c4 ← lift (all_uniforms_eq u1 u2);
  t1 ← read_textures (texture_paths sw);
  t2 ← read_textures (texture_paths other);
  c5 ← lift (all_texture_paths_eq t1 t2);
  let c6 := bool_decide (depth_test sw = depth_test other) in
  let c7 := bool_decide (render_primitive sw = render_primitive other) in
  ret (c1 && c2 && c3 && c4 && c5 && c6 && c7).

(** *** [copy] *)

(** [copy.copy(self)] makes a new instance with the same attributes, so
    with the same arrays and dictionaries; the assignments that follow
    give it arrays and dictionaries of its own.  [result.vert_indices] is
    [self.vert_indices] when it is tested.  An empty dictionary is false
    in a condition. *)
Definition copy (self : loc) : M loc :=
  sw ← get_wrapper self;
  result ← new_wrapper sw;
  data ← read_vert (vert_data sw);
  a ← new_vert data;
  set_vert_data result a;;
  match vert_indices sw with
  | Some i => indices ← read_index i; i' ← new_index indices;
              set_vert_indices result (Some i')
  | None => ret ()
  end;;
  u ← read_uniforms (uniforms sw);
  match u with
  | [] => ret ()
  | _ =>
      d ← new_uniforms (map (λ '(key, value), (key, uniform_array value)) u);
      set_uniforms result d
  end;;
  t ← read_textures (texture_paths sw);
  match t with
  | [] => ret ()
  | _ => d ← new_textures t; set_texture_paths result d
  end;;
  ret result.

(** *** [create_program_id], [create_id], [refresh_id] *)

Definition code_or_empty (code : option string) : string :=
  match code with Some s => s | None => EmptyString end.

Definition create_program_id (self : loc) : M Z :=
  sw ← get_wrapper self;
  let pc := program_code sw in
  ret (hash_str (str_join EmptyString
         [ code_or_empty (vertex_shader pc);
           code_or_empty (geometry_shader pc);
           code_or_empty (fragment_shader pc) ])).

Definition create_id (self : loc) : M string :=
  sw ← get_wrapper self;
  u ← read_uniforms (uniforms sw);
  t ← read_textures (texture_paths sw);
  ret (str_join "|"
         [ str_of_int (program_id sw);
           dict_str str_repr uniform_repr u;
           dict_str str_repr str_repr t;
           str_of_bool (depth_test sw);
           render_primitive sw ]).

Definition refresh_id (self : loc) : M unit :=
  n ← create_program_id self;
  set_program_id self n;;
  s ← create_id self;
  set_id self s.

Definition get_id (self : loc) : M string :=
  sw ← get_wrapper self; ret (id sw).

Definition get_program_id (self : loc) : M Z :=
  sw ← get_wrapper self; ret (program_id sw).

(** *** [read_in] and [combine_with] *)

(** [resize_array(a, length)] on an array of the store. *)
Definition resize_vert (a : loc) (n : nat) : M loc :=
  xs ← read_vert a;
  if resize_array_same xs n then ret a else new_vert (resize_array xs n).
Definition resize_index (a : loc) (n : nat) : M loc :=
  xs ← read_index a;
  if resize_array_same xs n then ret a else new_index (resize_array xs n).

(** [sum(len(sw.vert_data) for sw in shader_wrappers)] *)
Fixpoint sum_len_vert_data (acc : nat) (shader_wrappers : list loc) : M nat :=
  match shader_wrappers with
  | [] => ret acc
  | sw :: rest =>
      o ← get_wrapper sw;
      data ← read_vert (vert_data o);
      sum_len_vert_data (acc + length data) rest
  end.

(** [sum(len(sw.vert_indices) for sw in shader_wrappers)]; [len(None)]
    raises [TypeError]. *)
Fixpoint sum_len_vert_indices (acc : nat) (shader_wrappers : list loc)
    : M nat :=
  match shader_wrappers with
  | [] => ret acc
  | sw :: rest =>
      o ← get_wrapper sw;
      match vert_indices o with
      | None => raise TypeError
      | Some i =>
          indices ← read_index i;
          sum_len_vert_indices (acc + length indices) rest
      end
  end.

(** The body of [for sw in shader_wrappers]. *)
Fixpoint read_in_loop (self : loc) (shader_wrappers : list loc)
    (n_points n_verts : nat) : M unit :=
  match shader_wrappers with
  | [] => ret ()
  | sw :: rest =>
      o ← get_wrapper sw;
      data ← read_vert (vert_data o);
      let new_n_points := n_points + length data in
      s ← get_wrapper self;
      target ← read_vert (vert_data s);
      target' ← lift (setitem_slice target n_points new_n_points data);
      write_vert (vert_data s) target';;
      s ← get_wrapper self;
      o ← get_wrapper sw;
      n_verts' ←
        match vert_indices s, vert_indices o with
        | Some ti, Some si =>
            indices ← read_index si;
            let new_n_verts := n_verts + length indices in
            shifted ← lift (add_python_int indices n_points);
            itarget ← read_index ti;
            itarget' ← lift (setitem_slice itarget n_verts new_n_verts
                               shifted);
            write_index ti itarget';;
            ret new_n_verts
        | _, _ => ret n_verts
        end;
      read_in_loop self rest new_n_points n_verts'
  end.

Definition read_in (self : loc) (shader_wrappers : list loc) : M loc :=
  total_len ← sum_len_vert_data 0 shader_wrappers;
  s ← get_wrapper self;
  a ← resize_vert (vert_data s) total_len;
  set_vert_data self a;;
  s ← get_wrapper self;
  match vert_indices s with
  | Some i =>
      total_verts ← sum_len_vert_indices 0 shader_wrappers;
      i' ← resize_index i total_verts;
      set_vert_indices self (Some i')
  | None => ret ()
  end;;
  read_in_loop self shader_wrappers 0 0;;
  ret self.

Definition combine_with (self : loc) (shader_wrappers : list loc) : M loc :=
  match shader_wrappers with
  | [] => ret ()
  | _ => c ← copy self; _ ← read_in self (c :: shader_wrappers); ret ()
  end;;
  ret self.

End methods.

(** ** Words for the statements *)

Section statements.
Context `{Externals}.

(** What [create_program_id] and [create_id] compute. *)
Definition program_id_of (pc : program_code_t) : Z :=
  hash_str (str_join EmptyString
    [ code_or_empty (vertex_shader pc); code_or_empty (geometry_shader pc);
      code_or_empty (fragment_shader pc) ]).

Definition id_of (pid : Z) (u : dict uniform) (t : dict string)
    (depth : bool) (primitive : string) : string :=
  str_join "|"
    [ str_of_int pid; dict_str str_repr uniform_repr u;
      dict_str str_repr str_repr t; str_of_bool depth; primitive ].

(** The two dictionaries have the same keys in the same order of
    insertion, and under every key values that print the same. *)
Definition printed_alike {V} (repr_value : V → string) (d1 d2 : dict V)
    : Prop :=
  Forall2 (λ a b, a.1 = b.1 ∧ repr_value a.2 = repr_value b.2) d1 d2.

(** Every instance of [h] is an instance of [h'] with the same [id] and
    the same [program_id]. *)
Definition ids_kept (h h' : heap) : Prop :=
  ∀ l sw, wrappers h !! l = Some sw →
    ∃ sw', wrappers h' !! l = Some sw'
      ∧ id sw' = id sw ∧ program_id sw' = program_id sw.

Definition keeps_ids {A} (m : M A) : Prop := ∀ h, ids_kept h (m h).2.

(** An instance with the contents of its buffers. *)
Definition source : Type := ShaderWrapper * (list vertex * option (list Z)).
Definition src_data (x : source) : list vertex := x.2.1.
Definition src_indices (x : source) : list Z := default [] x.2.2.

Definition buffers_of (h : heap) (sw : ShaderWrapper)
    : option (list vertex * option (list Z)) :=
  match vert_arrays h !! vert_data sw, vert_indices sw with
  | Some d, Some i =>
      match index_arrays h !! i with
      | Some idx => Some (d, Some idx)
      | None => None
      end
  | Some d, None => Some (d, None)
  | None, _ => None
  end.

(** [l] refers to the instance [x.1], which is not [self] and whose
    buffers hold [x.2]. *)
Definition source_in (h : heap) (self l : loc) (x : source) : Prop :=
  wrappers h !! l = Some x.1 ∧ l ≠ self ∧ buffers_of h x.1 = Some x.2.

(** Moreover, an array of [x.1] that is the array [a], or the array
    [ti], is empty. *)
Definition source_at (h : heap) (self a : loc) (ti : option loc)
    (l : loc) (x : source) : Prop :=
  source_in h self l x
  ∧ (vert_data x.1 = a → x.2.1 = [])
  ∧ (∀ i, vert_indices x.1 = Some i → ti = Some i → x.2.2 = Some []).

Definition total_vertices (xs : list source) : nat :=
  sum_list (map (λ x, length (src_data x)) xs).
Definition total_indices (xs : list source) : nat :=
  sum_list (map (λ x, length (src_indices x)) xs).

(** The index blocks, each raised, in the dtype of the index arrays, by
    the number of vertices before it. *)
Fixpoint merged_indices (n_points : nat) (xs : list source) : list Z :=
  match xs with
  | [] => []
  | x :: xs' =>
      map (λ i, wrap_index (i + Z.of_nat n_points)) (src_indices x)
        ++ merged_indices (n_points + length (src_data x)) xs'
  end.

(** The Python [int] [n] can be added to an index array. *)
Definition python_int_fits (n : nat) : Prop :=
  python_int_checked = true → (Z.of_nat n < index_bound)%Z.

(** The offsets that the loop over [xs], begun after [n] vertices, adds
    to the index arrays, which are the numbers of vertices before each
    source, can all be added. *)
Definition offsets_fit (n : nat) (xs : list source) : Prop :=
  ∀ k, k < length xs → python_int_fits (n + total_vertices (take k xs)).

(** [z] is a value of the dtype of the index arrays. *)
Definition index_value (z : Z) : Prop :=
  (index_min ≤ z < index_bound)%Z.

(** The instance at [l], when it exists with its arrays and is not
    [self], with the contents of its buffers. *)
Definition source_of (h : heap) (self l : loc) : option source :=
  match wrappers h !! l with
  | Some o =>
      match buffers_of h o with
      | Some b => if bool_decide (l ≠ self) then Some (o, b) else None
      | None => None
      end
  | None => None
  end.

Fixpoint sources_of (h : heap) (self : loc) (ls : list loc)
    : option (list source) :=
  match ls with
  | [] => Some []
  | l :: ls' =>
      match source_of h self l, sources_of h self ls' with
      | Some x, Some xs => Some (x :: xs)
      | _, _ => None
      end
  end.

Definition has_indices (x : source) : bool :=
  match x.2.2 with Some _ => true | None => false end.

End statements.

(** ** An instance to compute with *)

(** Scalar uniforms: a Python [int], or the zero-dimensional array that
    [np.array] makes of one. *)
Inductive scalar := PyInt (z : Z) | NdArray0 (z : Z).

Definition scalar_value (v : scalar) : Z :=
  match v with PyInt z | NdArray0 z => z end.

Definition scalar_repr (v : scalar) : string :=
  match v with
  | PyInt z => str_of_int z
  | NdArray0 z => "array(" +:+ str_of_int z +:+ ")"
  end.

(** [repr] of a [str] of printable characters other than quotes and
    backslashes. *)
Definition quoted (s : string) : string := "'" +:+ s +:+ "'".

(** Modelled from the spec: [resize_array]
    ([manimlib.utils.iterables]) is not among the sources; the spec has
    it grow the buffer to the length asked for.  Here the contents are
    those of [np.resize]: the array repeated up to the new length, zeros
    when it is empty. *)
Definition np_resize {A} `{Inhabited A} (a : list A) (n : nat) : list A :=
  match a with
  | [] => replicate n inhabitant
  | _ => take n (mjoin (replicate n a))
  end.

Lemma np_resize_length {A} `{Inhabited A} (a : list A) (n : nat) :
  length (np_resize a n) = n.
Proof.
  destruct a as [|x a]; simpl; [by rewrite length_replicate |].
  rewrite length_take. apply Nat.min_l.
  induction n as [|n IH]; simpl; [lia |]. rewrite length_app. lia.
Qed.

Lemma same_length_eqb {A} (a : list A) (n : nat) :
  (length a =? n) = true → length a = n.
Proof. apply Nat.eqb_eq. Qed.

(** Vertices are integers, the index arrays have the dtype [int64] under
    NumPy 2, uniforms are scalars, [resize_array] returns an array of the
    right length as it is and resizes another one with [np.resize], and
    the hash of a string is its length. *)
Definition reference_externals : Externals := {|
  vertex := Z;
  vertex_np_eq := Z.eqb;
  index_bits := 64;
  index_signed := true;
  python_int_checked := true;
  uniform := scalar;
  uniform_repr := scalar_repr;
  uniform_array v := NdArray0 (scalar_value v);
  uniform_all_eq v w :=
    Return (bool_decide (scalar_value v = scalar_value w));
  str_repr := quoted;
  hash_str s := Z.of_nat (String.length s);
  eq_shape_mismatch := Raise ValueError;
  resize_array A _ a n := np_resize a n;
  resize_array_same A a n := length a =? n;
  resize_array_length A _ a n := np_resize_length a n;
  resize_array_same_length A a n := same_length_eqb a n;
|}.

(** The same with index arrays of the dtype [uint8]. *)
Definition narrow_externals : Externals := {|
  vertex := Z;
  vertex_np_eq := Z.eqb;
  index_bits := 8;
  index_signed := false;
  python_int_checked := true;
  uniform := scalar;
  uniform_repr := scalar_repr;
  uniform_array v := NdArray0 (scalar_value v);
  uniform_all_eq v w :=
    Return (bool_decide (scalar_value v = scalar_value w));
  str_repr := quoted;
  hash_str s := Z.of_nat (String.length s);
  eq_shape_mismatch := Raise ValueError;
  resize_array A _ a n := np_resize a n;
  resize_array_same A a n := length a =? n;
  resize_array_length A _ a n := np_resize_length a n;
  resize_array_same_length A a n := same_length_eqb a n;
|}.

(** ** Example stores *)

Module Examples.
#[local] Existing Instance reference_externals.

(** An instance as [__init__] leaves it for the folder [quadratic_bezier]
    with the default flags, over the given arrays and dictionaries;
    [no_uniforms], or the serialised uniforms, for [ident]. *)
Definition no_uniforms : string := "28|{}|{}|False|5".

Definition instance (data : loc) (indices : option loc) (u t : loc)
    (ident : string) : ShaderWrapper :=
  {| vert_data := data; vert_indices := indices;
     vert_attributes := ["point"; "rgba"];
     shader_folder := Some "quadratic_bezier";
     uniforms := u; texture_paths := t;
     depth_test := false; use_clip_plane := false;
     render_primitive := "5";
     program_code := ProgramCode (Some "void main() {}") None
                       (Some "void main() {}");
     program_id := 28; id := ident |}.

(** Two instances with three and two vertices, with index buffers and
    with no uniforms and no textures. *)
Definition store_two : heap :=
  Heap (list_to_map [(1, [10; 11; 12]%Z); (2, [20; 21]%Z)])
       (list_to_map [(1, [0; 1; 2]%Z); (2, [1; 0]%Z)])
       (list_to_map [(1, []); (2, [])])
       (list_to_map [(1, []); (2, [])])
       (list_to_map [(1, instance 1 (Some 1) 1 1 no_uniforms);
                     (2, instance 2 (Some 2) 2 2 no_uniforms)]).

(** The same two, the first without an index buffer. *)
Definition store_mixed : heap :=
  Heap (list_to_map [(1, [10; 11; 12]%Z); (2, [20; 21]%Z)])
       (list_to_map [(2, [1; 0]%Z)])
       (list_to_map [(1, []); (2, [])])
       (list_to_map [(1, []); (2, [])])
       (list_to_map [(1, instance 1 None 1 1 no_uniforms);
                     (2, instance 2 (Some 2) 2 2 no_uniforms)]).

(** Two instances over equal arrays; the second has a uniform more. *)
Definition store_extra_uniform : heap :=
  Heap (list_to_map [(1, [10; 11; 12]%Z); (2, [10; 11; 12]%Z)])
       (list_to_map [(1, [0; 1; 2]%Z); (2, [0; 1; 2]%Z)])
       (list_to_map [(1, []); (2, [("opacity", PyInt 1)])])
       (list_to_map [(1, []); (2, [])])
       (list_to_map [(1, instance 1 (Some 1) 1 1 no_uniforms);
                     (2, instance 2 (Some 2) 2 2
                           "28|{'opacity': 1}|{}|False|5")]).

(** Two instances whose uniforms were set in different orders. *)
Definition store_two_orders : heap :=
  Heap (list_to_map [(1, [10; 11; 12]%Z); (2, [10; 11; 12]%Z)])
       (list_to_map [(1, [0; 1; 2]%Z); (2, [0; 1; 2]%Z)])
       (list_to_map [(1, [("gloss", PyInt 1); ("shadow", PyInt 2)]);
                     (2, [("shadow", PyInt 2); ("gloss", PyInt 1)])])
       (list_to_map [(1, []); (2, [])])
       (list_to_map [(1, instance 1 (Some 1) 1 1
                           "28|{'gloss': 1, 'shadow': 2}|{}|False|5");
                     (2, instance 2 (Some 2) 2 2
                           "28|{'shadow': 2, 'gloss': 1}|{}|False|5")]).

(** Two instances over different arrays, each with its own dictionaries,
    which hold the same items in the same order. *)
Definition same_uniforms : string :=
  "28|{'opacity': 1, 'gloss': 2}|{'Texture': 'img.png'}|False|5".

Definition store_same_uniforms : heap :=
  Heap (list_to_map [(1, [10; 11; 12]%Z); (2, [20; 21]%Z)])
       (list_to_map [(1, [0; 1; 2]%Z); (2, [1; 0]%Z)])
       (list_to_map [(1, [("opacity", PyInt 1); ("gloss", PyInt 2)]);
                     (2, [("opacity", PyInt 1); ("gloss", PyInt 2)])])
       (list_to_map [(1, [("Texture", "img.png")]);
                     (2, [("Texture", "img.png")])])
       (list_to_map [(1, instance 1 (Some 1) 1 1 same_uniforms);
                     (2, instance 2 (Some 2) 2 2 same_uniforms)]).

(** Two instances over equal arrays and equal texture paths; the uniform
    of the first is a number, that of the second the array of it. *)
Definition store_array_uniform : heap :=
  Heap (list_to_map [(1, [10; 11; 12]%Z); (2, [10; 11; 12]%Z)])
       (list_to_map [(1, [0; 1; 2]%Z); (2, [0; 1; 2]%Z)])
       (list_to_map [(1, [("opacity", PyInt 1)]);
                     (2, [("opacity", NdArray0 1)])])
       (list_to_map [(1, [("Texture", "img.png")]);
                     (2, [("Texture", "img.png")])])
       (list_to_map
          [(1, instance 1 (Some 1) 1 1
                 "28|{'opacity': 1}|{'Texture': 'img.png'}|False|5");
           (2, instance 2 (Some 2) 2 2
                 "28|{'opacity': array(1)}|{'Texture': 'img.png'}|False|5")]).

(** [store_two] with the largest value of [int64] as an index of the
    second instance. *)
Definition store_wide_index : heap :=
  Heap (list_to_map [(1, [10; 11; 12]%Z); (2, [20; 21]%Z)])
       (list_to_map [(1, [0; 1; 2]%Z); (2, [9223372036854775807; 0]%Z)])
       (list_to_map [(1, []); (2, [])])
       (list_to_map [(1, []); (2, [])])
       (list_to_map [(1, instance 1 (Some 1) 1 1 no_uniforms);
                     (2, instance 2 (Some 2) 2 2 no_uniforms)]).

(** Two instances with 256 vertices and one vertex, with index arrays of
    the dtype [uint8]. *)
Definition store_narrow_index : @heap narrow_externals :=
  @Heap narrow_externals
       (list_to_map [(1, replicate 256 0%Z); (2, [20]%Z)])
       (list_to_map [(1, [0; 255]%Z); (2, [0]%Z)])
       (list_to_map [(1, []); (2, [])])
       (list_to_map [(1, []); (2, [])])
       (list_to_map [(1, instance 1 (Some 1) 1 1 no_uniforms);
                     (2, instance 2 (Some 2) 2 2 no_uniforms)]).

(** The two instances of [store_two] with their buffers. *)
Definition sources_two : list source :=
  [ (instance 1 (Some 1) 1 1 no_uniforms, ([10; 11; 12]%Z, Some [0; 1; 2]%Z));
    (instance 2 (Some 2) 2 2 no_uniforms, ([20; 21]%Z, Some [1; 0]%Z)) ].

End Examples.

End Wrapper.

(* ===================================================================== *)
(** * Construction and validity of an instance                            *)
(* ===================================================================== *)

Module Construction.
Import Wrapper.

Section construction.
Context `{Externals}.

(** The file system that [get_shader_code_from_file] reads and the depth
    of calls that the interpreter allows to it. *)
Context (fs : Source.file_system) (depth : nat).

(** [get_code] of [init_program_code]:
    [get_shader_code_from_file(os.path.join(self.shader_folder,
    f"{name}.glsl"))]; [os.path.join] raises [TypeError] when the folder
    is [None]. *)
Definition get_code (shader_folder : option string) (name : string)
    : outcome (option string) :=
  match shader_folder with
  | None => Raise TypeError
  | Some folder =>
      Source.get_shader_code_from_file fs depth
        (os_path_join folder (name +:+ ".glsl"))
  end.

(** [init_program_code]: the dictionary that it assigns to
    [self.program_code]; the three entries are evaluated in the order
    vertex, geometry, fragment. *)
Definition init_program_code (shader_folder : option string)
    : outcome program_code_t :=
  obind (get_code shader_folder "vert") (λ vert,
  obind (get_code shader_folder "geom") (λ geom,
  obind (get_code shader_folder "frag") (λ frag,
  Return (ProgramCode vert geom frag)))).

(** [uniforms or dict()] and [texture_paths or dict()]: [None] and an
    empty dictionary are false, and a new dictionary is made for them. *)
Definition uniforms_or_dict (uniforms : option loc) : M loc :=
  match uniforms with
  | None => new_uniforms []
  | Some a =>
      d ← read_uniforms a;
      match d with [] => new_uniforms [] | _ => ret a end
  end.

Definition texture_paths_or_dict (texture_paths : option loc) : M loc :=
  match texture_paths with
  | None => new_textures []
  | Some a =>
      d ← read_textures a;
      match d with [] => new_textures [] | _ => ret a end
  end.

(** [ShaderWrapper(vert_data, vert_indices, shader_folder, uniforms,
    texture_paths, depth_test, use_clip_plane, render_primitive)]: the
    reference of the new instance.  [names] is [vert_data.dtype.names].
    The instance enters the store once [init_program_code] has returned,
    with every attribute but [program_id] and [id], which [refresh_id]
    then sets; an instance whose construction raises is never seen. *)
Definition __init__ (data : loc) (names : list string)
    (indices : option loc) (folder : option string)
    (uniforms_arg texture_paths_arg : option loc)
    (depth_test_arg use_clip_plane_arg : bool) (primitive : Z) : M loc :=
  _ ← read_vert data;
  u ← uniforms_or_dict uniforms_arg;
  t ← texture_paths_or_dict texture_paths_arg;
  code ← lift (init_program_code folder);
  self ← new_wrapper
    {| vert_data := data;
       vert_indices := indices;
       vert_attributes := names;
       shader_folder := folder;
       uniforms := u;
       texture_paths := t;
       depth_test := depth_test_arg;
       use_clip_plane := use_clip_plane_arg;
       render_primitive := str_of_int primitive;
       program_code := code;
       program_id := 0;
       id := EmptyString |};
  refresh_id self;;
  ret self.

End construction.

Section validity.
Context `{Externals}.

(** [is_valid]: [self.vert_data] is a reference to an array and never
    [None] here, so the first of the three tests is true. *)
Definition is_valid (self : loc) : M bool :=
  sw ← get_wrapper self;
  ret (bool_decide (vertex_shader (program_code sw) ≠ None)
       && bool_decide (fragment_shader (program_code sw) ≠ None)).

Definition get_program_code (self : loc) : M program_code_t :=
  sw ← get_wrapper self; ret (program_code sw).

End validity.

End Construction.

(* ===================================================================== *)
(** * Words for further statements                                        *)
(* ===================================================================== *)

Module Statements.
Import Wrapper.

(** A shader none of whose lines is a directive: the keyword in lower
    case, an indented line, another extension, a space after the
    extension, no space after the keyword. *)
Definition fs_plain : Source.file_system := Source.fs_of_table
  [ ("plain.glsl",
      Source.Text ("#insert a.glsl" +:+ Source.nl +:+ " #INSERT a.glsl"
        +:+ Source.nl +:+ "#INSERT a.vert" +:+ Source.nl
        +:+ "#INSERT a.glsl " +:+ Source.nl +:+ "#INSERTa.glsl"));
    ("inserts/a.glsl", Source.Text "float a;") ].

(** Three shaders of one directive each: with an absolute path, with a
    relative one, and with the name of a file that does not exist. *)
Definition fs_absolute : Source.file_system := Source.fs_of_table
  [ ("main.glsl", Source.Text "#INSERT /shared/noise.glsl");
    ("other.glsl", Source.Text "#INSERT noise.glsl");
    ("lost.glsl", Source.Text "#INSERT gone.glsl");
    ("/shared/noise.glsl", Source.Text "float shared_noise();");
    ("inserts/noise.glsl", Source.Text "float noise();") ].

(** The first three components of a colour, zero for a missing one. *)
Definition first_three (rgb : list Z) : Z * Z * Z :=
  (nth 0 rgb 0%Z, nth 1 rgb 0%Z, nth 2 rgb 0%Z).

Section statements.
Context `{Externals}.

(** The attributes that [__eq__] reads are the same in the two. *)
Definition same_compared (a b : ShaderWrapper) : Prop :=
  vert_data a = vert_data b
  ∧ vert_indices a = vert_indices b
  ∧ shader_folder a = shader_folder b
  ∧ uniforms a = uniforms b
  ∧ texture_paths a = texture_paths b
  ∧ depth_test a = depth_test b
  ∧ render_primitive a = render_primitive b.

(** The two stores hold the same arrays and dictionaries. *)
Definition same_payload (h1 h2 : heap) : Prop :=
  vert_arrays h1 = vert_arrays h2
  ∧ index_arrays h1 = index_arrays h2
  ∧ uniform_dicts h1 = uniform_dicts h2
  ∧ texture_dicts h1 = texture_dicts h2.

(** The index buffers are both absent, or both present with one
    length. *)
Definition same_shape (i1 i2 : option (list Z)) : Prop :=
  match i1, i2 with
  | Some a, Some b => length a = length b
  | None, None => True
  | _, _ => False
  end.

(** [{key: np.array(value) for key, value in self.uniforms.items()}] *)
Definition np_array_values (u : dict uniform) : dict uniform :=
  map (λ '(key, value), (key, uniform_array value)) u.

(** The contents of the dictionary of a new instance: those of the
    dictionary given to the constructor, none when it is given [None]. *)
Definition dict_or_empty {V} (m : gmap loc (dict V)) (arg : option loc)
    : dict V :=
  match arg with
  | Some a => default [] (m !! a)
  | None => []
  end.

(** [l] is the dictionary given to the constructor when that is not
    empty, and a dictionary that did not exist otherwise. *)
Definition kept_or_new {V} (m : gmap loc (dict V)) (arg : option loc)
    (l : loc) : Prop :=
  match arg with
  | Some a =>
      match m !! a with
      | Some (_ :: _) => l = a
      | _ => m !! l = None
      end
  | None => m !! l = None
  end.

(** [m], run in a store in which [I] holds, ends in a store in which [I]
    holds, whether it returns or raises, and [Q] holds for the value it
    returns. *)
Definition triple {A} (I : heap → Prop) (m : M A) (Q : A → Prop) : Prop :=
  ∀ h, I h → I (m h).2 ∧ ∀ a, (m h).1 = Return a → Q a.

(** Every object of [h0] is in [h] as it was. *)
Definition extends (h0 h : heap) : Prop :=
  vert_arrays h0 ⊆ vert_arrays h
  ∧ index_arrays h0 ⊆ index_arrays h
  ∧ uniform_dicts h0 ⊆ uniform_dicts h
  ∧ texture_dicts h0 ⊆ texture_dicts h
  ∧ wrappers h0 ⊆ wrappers h.

(** [s] is [s0] but for its two buffers. *)
Definition but_for_buffers (s s0 : ShaderWrapper) : Prop :=
  with_vert_indices (with_vert_data s (vert_data s0)) (vert_indices s0) = s0.

(** The buffers of [s] are those of [s0] or did not exist in [h0]. *)
Definition own_buffers (h0 : heap) (s0 s : ShaderWrapper) : Prop :=
  (vert_data s = vert_data s0 ∨ vert_arrays h0 !! vert_data s = None)
  ∧ (vert_indices s = vert_indices s0
     ∨ ∃ i, vert_indices s = Some i ∧ is_Some (vert_indices s0)
         ∧ index_arrays h0 !! i = None).

(** What a merge into [self], whose attributes in [h0] are [s0], leaves
    of [h0] in [h]: every other instance, every array but the two buffers
    of [self], every dictionary, and the attributes of [self] but for its
    buffers; no object of [h0] is missing. *)
Definition merged_into (h0 : heap) (self : loc) (s0 : ShaderWrapper)
    (h : heap) : Prop :=
  (∀ l o, wrappers h0 !! l = Some o → l ≠ self →
     wrappers h !! l = Some o)
  ∧ (∀ a xs, vert_arrays h0 !! a = Some xs → a ≠ vert_data s0 →
       vert_arrays h !! a = Some xs)
  ∧ (∀ a, is_Some (vert_arrays h0 !! a) → is_Some (vert_arrays h !! a))
  ∧ (∀ a xs, index_arrays h0 !! a = Some xs →
       vert_indices s0 ≠ Some a → index_arrays h !! a = Some xs)
  ∧ (∀ a, is_Some (index_arrays h0 !! a) → is_Some (index_arrays h !! a))
  ∧ uniform_dicts h0 ⊆ uniform_dicts h
  ∧ texture_dicts h0 ⊆ texture_dicts h
  ∧ ∃ s, wrappers h !! self = Some s
      ∧ but_for_buffers s s0 ∧ own_buffers h0 s0 s.

End statements.

(** ** Further example stores *)

Module Cases.
Import Examples.
#[local] Existing Instance reference_externals.

(** The instance with the attributes that [__eq__] does not read set to
    other values. *)
Definition relabelled (sw : ShaderWrapper) : ShaderWrapper :=
  {| vert_data := vert_data sw;
     vert_indices := vert_indices sw;
     vert_attributes := [];
     shader_folder := shader_folder sw;
     uniforms := uniforms sw;
     texture_paths := texture_paths sw;
     depth_test := depth_test sw;
     use_clip_plane := negb (use_clip_plane sw);
     render_primitive := render_primitive sw;
     program_code := ProgramCode None None None;
     program_id := 0;
     id := EmptyString |}.

(** [store_two] with its second instance relabelled. *)
Definition store_two_relabelled : heap :=
  Heap (vert_arrays store_two) (index_arrays store_two)
       (uniform_dicts store_two) (texture_dicts store_two)
       (<[2 := relabelled (instance 2 (Some 2) 2 2 no_uniforms)]>
          (wrappers store_two)).

(** [store_array_uniform] with its second instance relabelled. *)
Definition store_array_uniform_relabelled : heap :=
  Heap (vert_arrays store_array_uniform) (index_arrays store_array_uniform)
       (uniform_dicts store_array_uniform)
       (texture_dicts store_array_uniform)
       (<[2 := relabelled
                 (instance 2 (Some 2) 2 2
                    "28|{'opacity': array(1)}|{'Texture': 'img.png'}|False|5")]>
          (wrappers store_array_uniform)).

(** An instance with the given code in its three slots. *)
Definition with_code (vert geom frag : option string) : ShaderWrapper :=
  {| vert_data := 1; vert_indices := None;
     vert_attributes := ["point"];
     shader_folder := Some "quad";
     uniforms := 1; texture_paths := 1;
     depth_test := false; use_clip_plane := false;
     render_primitive := "5";
     program_code := ProgramCode vert geom frag;
     program_id := 0; id := EmptyString |}.

(** Two instances with the same code cut at different places. *)
Definition store_split : heap :=
  Heap (list_to_map [(1, [10]%Z)]) ∅ (list_to_map [(1, [])])
       (list_to_map [(1, [])])
       (list_to_map
          [(1, with_code (Some "void a();") None (Some "void b();"));
           (2, with_code (Some "void a();void ") (Some EmptyString)
                 (Some "b();"))]).

(** A folder with a vertex shader and a fragment shader that inserts a
    shared fragment, and no geometry shader. *)
Definition fs_quad : Source.file_system := Source.fs_of_table
  [ ("quad/vert.glsl", Source.Text "void main() {}");
    ("quad/frag.glsl", Source.Text "#INSERT shade.glsl");
    ("inserts/shade.glsl", Source.Text "vec4 shade();") ].

End Cases.

End Statements.

(* ===================================================================== *)
(** * Facts about strings                                                 *)
(* ===================================================================== *)

Section string_facts.

Lemma str_app_nil_l (s : string) : EmptyString +:+ s = s.
Proof. reflexivity. Qed.

Lemma str_app_cons (c : ascii) (s t : string) :
  String c s +:+ t = String c (s +:+ t).
Proof. reflexivity. Qed.

Lemma str_app_nil_r (s : string) : s +:+ EmptyString = s.
Proof.
  induction s as [|c s IH]; [done |]. by rewrite str_app_cons, IH.
Qed.

Lemma str_app_assoc (a b c : string) : (a +:+ b) +:+ c = a +:+ (b +:+ c).
Proof.
  induction a as [|x a IH]; [done |]. by rewrite !str_app_cons, IH.
Qed.

Lemma str_join_from_app (sep acc : string) (parts : list string) :
  str_join_from sep acc parts =
  acc +:+ str_join_from sep EmptyString parts.
Proof.
  revert acc. induction parts as [|p parts IH]; intros acc; simpl.
  - by rewrite str_app_nil_r.
  - rewrite IH. rewrite (IH (_ +:+ _)). by rewrite !str_app_assoc.
Qed.

Lemma str_join_cons (sep p : string) (parts : list string) :
  parts ≠ [] →
  str_join sep (p :: parts) = p +:+ sep +:+ str_join sep parts.
Proof.
  destruct parts as [|q parts]; [done | intros _]. simpl.
  rewrite str_join_from_app. rewrite (str_join_from_app sep q).
  by rewrite !str_app_assoc.
Qed.

End string_facts.

(* ===================================================================== *)
(** * Properties of [get_colormap_code]                                   *)
(* ===================================================================== *)

Module ColormapFacts.
Import Colormap.

Lemma format_all_triples (l : list (Z * Z * Z)) :
  format_all (map triple_seq l) = Return (map vec3_entry l).
Proof.
  induction l as [|[[r g] b] l IH]; simpl; [done |].
  by rewrite IH.
Qed.

Lemma str_join_comma (entries : list string) :
  str_join "," entries = comma_separated entries.
Proof.
  induction entries as [|e rest IH]; [done |].
  destruct rest as [|e' rest]; [done |].
  rewrite str_join_cons by done. rewrite IH. done.
Qed.

Lemma str_of_int_nat (n : nat) : str_of_int (Z.of_nat n) = pretty n.
Proof. by destruct n. Qed.

(** C10. On [[(1,0,0), (0,1,0)]] the helper returns exactly
    [vec3[2](vec3(1, 0, 0),vec3(0, 1, 0))]; on any list of [N] integer
    triples it returns [vec3[N](...)] holding one [vec3(r, g, b)] entry
    per triple, separated by commas, in the order of the input. *)
Theorem get_colormap_code_literal :
  get_colormap_code [[1; 0; 0]; [0; 1; 0]]%Z
    = Return "vec3[2](vec3(1, 0, 0),vec3(0, 1, 0))"
  ∧ ∀ l : list (Z * Z * Z),
      get_colormap_code (map triple_seq l)
        = Return ("vec3[" +:+ pretty (length l) +:+ "]("
                    +:+ comma_separated (map vec3_entry l) +:+ ")").
Proof.
  split; [by vm_compute |].
  intros l. unfold get_colormap_code.
  rewrite format_all_triples. simpl.
  by rewrite str_join_comma, length_map, str_of_int_nat.
Qed.

End ColormapFacts.

(* ===================================================================== *)
(** * Facts about [replace], [split] and [join]                           *)
(* ===================================================================== *)

Section text_facts.

Lemma prefix_length (p s : string) :
  String.prefix p s = true → String.length p ≤ String.length s.
Proof.
  revert s. induction p as [|a p IH]; intros s; simpl; [lia |].
  destruct s as [|b s]; simpl; [done |].
  destruct (ascii_dec a b); [|done]. intros H%IH. lia.
Qed.

Lemma prefix_refl (p : string) : String.prefix p p = true.
Proof.
  induction p as [|a p IH]; [done |]. simpl.
  by destruct (ascii_dec a a).
Qed.

Lemma prefix_app_sep (old a b : string) (c : ascii) :
  str_mem c old = false →
  String.prefix old (a +:+ String c b) = String.prefix old a.
Proof.
  revert a. induction old as [|x old IH]; intros a Hmem.
  - by destruct a.
  - simpl in Hmem. apply orb_false_iff in Hmem as [Hx Hold].
    destruct a as [|y a].
    + rewrite str_app_nil_l. simpl. destruct (ascii_dec x c) as [->|]; [|done].
      by rewrite Ascii.eqb_refl in Hx.
    + rewrite str_app_cons. simpl. destruct (ascii_dec x y); [|done].
      by apply IH.
Qed.

Lemma str_replace_from_skip_all (old new s : string) (k : nat) :
  String.length s ≤ k → str_replace_from old new k s = EmptyString.
Proof.
  revert k. induction s as [|c s IH]; intros k Hk; [done |].
  simpl in Hk. destruct k as [|k]; [lia |]. simpl. apply IH. lia.
Qed.

Lemma str_replace_absent (s old new : string) :
  old ≠ EmptyString → str_contains old s = false →
  str_replace s old new = s.
Proof.
  intros Hold. unfold str_replace. destruct old as [|x old]; [done |].
  induction s as [|c s IH]; [done |].
  intros H. change (str_contains (String x old) (String c s))
    with (String.prefix (String x old) (String c s)
          || str_contains (String x old) s) in H.
  apply orb_false_iff in H as [Hp Hc].
  change (str_replace_from (String x old) new 0 (String c s))
    with (if String.prefix (String x old) (String c s)
          then new +:+ str_replace_from (String x old) new
                         (String.length (String x old) - 1) s
          else String c (str_replace_from (String x old) new 0 s)).
  rewrite Hp. by rewrite IH.
Qed.

Lemma str_replace_whole (old new : string) :
  old ≠ EmptyString → str_replace old old new = new.
Proof.
  intros Hold. unfold str_replace. destruct old as [|x old]; [done |].
  change (str_replace_from (String x old) new 0 (String x old))
    with (if String.prefix (String x old) (String x old)
          then new +:+ str_replace_from (String x old) new
                         (String.length (String x old) - 1) old
          else String x (str_replace_from (String x old) new 0 old)).
  rewrite prefix_refl. rewrite str_replace_from_skip_all.
  - apply str_app_nil_r.
  - simpl. lia.
Qed.

Lemma prefix_app (p s : string) : String.prefix p (p +:+ s) = true.
Proof.
  induction p as [|a p IH]; [by destruct s |].
  rewrite str_app_cons. simpl. by destruct (ascii_dec a a).
Qed.

Lemma str_replace_from_skip (old new x s : string) :
  str_replace_from old new (String.length x) (x +:+ s)
  = str_replace_from old new 0 s.
Proof. induction x as [|c x IH]; [done |]. by rewrite str_app_cons. Qed.

(** An occurrence at the start is replaced and the search goes on after
    it. *)
Lemma str_replace_prefix (old new s : string) :
  old ≠ EmptyString →
  str_replace (old +:+ s) old new = new +:+ str_replace s old new.
Proof.
  intros Hold. unfold str_replace. destruct old as [|c old]; [done |].
  rewrite str_app_cons.
  change (str_replace_from (String c old) new 0 (String c (old +:+ s)))
    with (if String.prefix (String c old) (String c (old +:+ s))
          then new +:+ str_replace_from (String c old) new
                         (String.length (String c old) - 1) (old +:+ s)
          else String c (str_replace_from (String c old) new 0 (old +:+ s))).
  rewrite <-str_app_cons, prefix_app.
  replace (String.length (String c old) - 1) with (String.length old)
    by (simpl; lia).
  by rewrite str_replace_from_skip.
Qed.

Lemma str_replace_from_app_sep (old new a b : string) (c : ascii) (k : nat) :
  old ≠ EmptyString → str_mem c old = false → k ≤ String.length a →
  str_replace_from old new k (a +:+ String c b)
  = str_replace_from old new k a +:+ String c (str_replace_from old new 0 b).
Proof.
  intros Hold Hmem. revert k. induction a as [|y a IH]; intros k Hk.
  - simpl in Hk. assert (k = 0) as -> by lia. rewrite str_app_nil_l.
    change (str_replace_from old new 0 (String c b))
      with (if String.prefix old (String c b)
            then new +:+ str_replace_from old new (String.length old - 1) b
            else String c (str_replace_from old new 0 b)).
    replace (String.prefix old (String c b)) with false; [done |].
    symmetry. rewrite <-(str_app_nil_l (String c b)).
    rewrite prefix_app_sep by done. by destruct old.
  - rewrite str_app_cons. destruct k as [|k].
    + change (str_replace_from old new 0 (String y (a +:+ String c b)))
        with (if String.prefix old (String y (a +:+ String c b))
              then new +:+ str_replace_from old new (String.length old - 1)
                             (a +:+ String c b)
              else String y (str_replace_from old new 0 (a +:+ String c b))).
      change (str_replace_from old new 0 (String y a))
        with (if String.prefix old (String y a)
              then new +:+ str_replace_from old new (String.length old - 1) a
              else String y (str_replace_from old new 0 a)).
      rewrite <-str_app_cons, prefix_app_sep by done.
      destruct (String.prefix old (String y a)) eqn:Hp.
      * apply prefix_length in Hp. simpl in Hp.
        rewrite IH by lia. by rewrite str_app_assoc.
      * rewrite IH by lia. by rewrite str_app_cons.
    + simpl. apply IH. simpl in Hk. lia.
Qed.

Lemma str_replace_app_sep (old new a b : string) (c : ascii) :
  old ≠ EmptyString → str_mem c old = false →
  str_replace (a +:+ String c b) old new
  = str_replace a old new +:+ String c (str_replace b old new).
Proof.
  intros Hold Hmem. unfold str_replace. destruct old as [|x old]; [done |].
  apply str_replace_from_app_sep; [done | done | lia].
Qed.

Lemma str_replace_join (old new : string) (c : ascii) (parts : list string) :
  old ≠ EmptyString → str_mem c old = false →
  str_replace (str_join (String c EmptyString) parts) old new
  = str_join (String c EmptyString) (map (λ p, str_replace p old new) parts).
Proof.
  intros Hold Hmem. induction parts as [|p parts IH].
  - simpl. by destruct old.
  - destruct parts as [|q parts]; [done |].
    rewrite str_join_cons by done.
    change (map _ (p :: q :: parts))
      with (str_replace p old new
              :: map (λ p, str_replace p old new) (q :: parts)).
    rewrite (str_join_cons _ (str_replace p old new)) by (by simpl).
    rewrite <-IH.
    rewrite !str_app_cons, !str_app_nil_l.
    by apply str_replace_app_sep.
Qed.

Lemma str_split_nonempty (c : ascii) (s : string) : str_split c s ≠ [].
Proof.
  destruct s as [|a s]; [done |]. simpl.
  destruct (Ascii.eqb a c); [done |]. by destruct (str_split c s).
Qed.

Lemma str_join_split (c : ascii) (s : string) :
  str_join (String c EmptyString) (str_split c s) = s.
Proof.
  induction s as [|a s IH]; [done |]. simpl.
  destruct (Ascii.eqb a c) eqn:Hac.
  - apply Ascii.eqb_eq in Hac as ->.
    rewrite str_join_cons by apply str_split_nonempty. by rewrite IH.
  - pose proof (str_split_nonempty c s) as Hne.
    destruct (str_split c s) as [|l ls]; [done |].
    destruct ls as [|l' ls].
    + simpl in *. by rewrite IH.
    + rewrite str_join_cons by done. rewrite str_join_cons in IH by done.
      by rewrite str_app_cons, IH.
Qed.

Lemma str_split_no_sep (c : ascii) (s l : string) :
  l ∈ str_split c s → str_mem c l = false.
Proof.
  revert l. induction s as [|a s IH]; intros l; simpl.
  - by intros ->%list_elem_of_singleton.
  - destruct (Ascii.eqb a c) eqn:Hac.
    + intros [->|?]%elem_of_cons; [done | by apply IH].
    + pose proof (str_split_nonempty c s) as Hne.
      destruct (str_split c s) as [|l0 ls]; [done |].
      intros [->|?]%elem_of_cons.
      * simpl. rewrite Hac. simpl. apply IH. by left.
      * apply IH. by right.
Qed.

End text_facts.

(* ===================================================================== *)
(** * Properties of [get_shader_code_from_file]                           *)
(* ===================================================================== *)

Module SourceFacts.
Import Source.

Lemma is_insert_line_nonempty (line : string) :
  is_insert_line line = true → line ≠ EmptyString.
Proof. by intros H ->. Qed.

Lemma elem_of_re_findall_insert (text line : string) :
  line ∈ re_findall_insert text
  ↔ line ∈ str_split newline text ∧ is_insert_line line = true.
Proof.
  unfold re_findall_insert. rewrite !list_elem_of_In. apply filter_In.
Qed.

Section loop.
Context (rec : string → outcome (option string)).
Context (code : string → string).
Context (lines insertions : list string).
Context (Hrec : ∀ line, line ∈ insertions →
           rec (insert_target line) = Return (Some (code line))).
Context (Hne : ∀ line, line ∈ insertions → line ≠ EmptyString).
Context (Hnl : ∀ line, line ∈ insertions → str_mem newline line = false).
Context (Hlines : ∀ line l, line ∈ insertions → l ∈ lines →
           str_contains line l = true → l = line).
Context (Hcode : ∀ line line', line ∈ insertions → line' ∈ insertions →
           str_contains line (code line') = false).

Lemma insert_loop_spliced (processed rest : list string) :
  insertions = processed ++ rest →
  insert_loop rec rest (str_join nl (map (spliced code processed) lines))
  = Return (Some (str_join nl (map (spliced code insertions) lines))).
Proof using Hrec Hne Hnl Hlines Hcode.
  revert processed. induction rest as [|line rest IH]; intros processed Hins.
  - rewrite app_nil_r in Hins. by subst.
  - assert (line ∈ insertions) as Hline.
    { rewrite Hins. apply elem_of_app. right. by left. }
    simpl. rewrite Hrec by done.
    assert (str_replace (str_join nl (map (spliced code processed) lines))
              line (code line)
            = str_join nl (map (spliced code (processed ++ [line])) lines))
      as ->; [|apply IH; by rewrite <-app_assoc].
    unfold nl. rewrite str_replace_join by auto.
    rewrite <-list_fmap_compose. f_equal.
    apply list_fmap_ext. intros _ l Hl%list_elem_of_lookup_2.
    unfold compose, spliced.
    destruct (decide (l ∈ processed)) as [Hin|Hnin].
    + rewrite bool_decide_eq_true_2 by done.
      rewrite bool_decide_eq_true_2 by (apply elem_of_app; by left).
      apply str_replace_absent; [auto |]. apply Hcode; [done |].
      rewrite Hins. apply elem_of_app. by left.
    + rewrite (bool_decide_eq_false_2 _ Hnin).
      destruct (decide (l = line)) as [->|Hne'].
      * rewrite bool_decide_eq_true_2
          by (apply elem_of_app; right; by left).
        apply str_replace_whole. auto.
      * rewrite bool_decide_eq_false_2.
        -- apply str_replace_absent; [auto |].
           destruct (str_contains line l) eqn:Hc; [|done].
           by apply Hlines in Hc.
        -- intros [?|Hl'%list_elem_of_singleton]%elem_of_app; done.
Qed.

End loop.

(** The file that a directive names: a relative path is looked up under
    [inserts]. *)
Lemma insert_target_relative (path : string) :
  str_contains "#INSERT " path = false →
  String.prefix "/" path = false →
  insert_target ("#INSERT " +:+ path) = "inserts/" +:+ path.
Proof.
  intros Hc Hp. unfold insert_target.
  rewrite str_replace_prefix, str_replace_absent by done.
  unfold os_path_join. rewrite str_app_nil_l, Hp. done.
Qed.

(** More depth does not change a returned text. *)
Lemma insert_loop_ext (rec rec' : string → outcome (option string))
    (insertions : list string) (result : string) (r : option string) :
  (∀ f c, rec f = Return (Some c) → rec' f = Return (Some c)) →
  insert_loop rec insertions result = Return r →
  insert_loop rec' insertions result = Return r.
Proof.
  intros Hrec. revert result.
  induction insertions as [|line rest IH]; intros result; simpl; [done |].
  destruct (rec (insert_target line)) as [[c|]|e] eqn:Heq; [|done..].
  rewrite (Hrec _ _ Heq). apply IH.
Qed.

Lemma get_shader_code_from_file_mono (fs : file_system) (depth : nat)
    (filename : string) (c : string) :
  get_shader_code_from_file fs depth filename = Return (Some c) →
  get_shader_code_from_file fs (S depth) filename = Return (Some c).
Proof.
  revert filename c. induction depth as [|d IH]; intros filename c.
  { simpl. case_bool_decide; [done |]. by destruct (exhausted fs). }
  intros H. simpl in H.
  change (get_shader_code_from_file fs (S (S d)) filename)
    with (if bool_decide (filename = EmptyString) then Return None
          else match find_file fs filename with
               | None => Return None
               | Some filepath =>
                   match read_text fs filepath with
                   | Raise e => Raise e
                   | Return result =>
                       insert_loop (get_shader_code_from_file fs (S d))
                         (re_findall_insert result) result
                   end
               end).
  case_bool_decide; [done |].
  destruct (find_file fs filename) as [filepath|]; [|done].
  destruct (read_text fs filepath) as [result|e]; [|done].
  eapply insert_loop_ext; [|done]. intros f v. apply IH.
Qed.

(** A returned loop has resolved every directive. *)
Lemma insert_loop_returns (rec : string → outcome (option string))
    (insertions : list string) (result : string) (r : option string) :
  insert_loop rec insertions result = Return r →
  ∀ line, line ∈ insertions →
    ∃ c, rec (insert_target line) = Return (Some c).
Proof.
  revert result. induction insertions as [|l rest IH]; intros result; simpl.
  - by intros _ line ?%elem_of_nil.
  - destruct (rec (insert_target l)) as [[c|]|e] eqn:Heq; [|done..].
    intros H line [->|Hin]%elem_of_cons; [eauto |]. by eapply IH.
Qed.

Lemma returns_include_targets (fs : file_system) (d : nat)
    (filename : string) (r : option string) (g : string) :
  get_shader_code_from_file fs (S d) filename = Return r →
  g ∈ include_targets fs filename →
  ∃ c, get_shader_code_from_file fs d g = Return (Some c).
Proof.
  simpl. unfold include_targets. case_bool_decide.
  { by intros _ ?%elem_of_nil. }
  destruct (find_file fs filename) as [filepath|].
  2: { by intros _ ?%elem_of_nil. }
  destruct (read_text fs filepath) as [result|e]; [|done].
  intros Hloop (line & -> & Hline)%list_elem_of_fmap.
  by eapply insert_loop_returns.
Qed.

Lemma get_shader_code_from_file_mono_le (fs : file_system) (d d' : nat)
    (filename : string) (c : string) :
  d ≤ d' →
  get_shader_code_from_file fs d filename = Return (Some c) →
  get_shader_code_from_file fs d' filename = Return (Some c).
Proof.
  induction 1 as [|d' _ IH]; [done |].
  intros H. by apply get_shader_code_from_file_mono, IH.
Qed.

Lemma include_targets_cons (fs : file_system) (f g : string)
    (gs : list string) (d : nat) :
  include_targets fs f = g :: gs →
  get_shader_code_from_file fs (S d) f
  = match get_shader_code_from_file fs d g with
    | Raise e => Raise e
    | Return None => Raise TypeError
    | Return (Some c) =>
        get_shader_code_from_file fs (S d) f
    end.
Proof.
  unfold include_targets. simpl. case_bool_decide; [done |].
  destruct (find_file fs f) as [filepath|]; [|done].
  destruct (read_text fs filepath) as [result|e]; [|done].
  destruct (re_findall_insert result) as [|line rest]; [done |].
  intros [= <- _]. simpl.
  by destruct (get_shader_code_from_file fs d (insert_target line))
    as [[c|]|e].
Qed.

(** X21. When every directive of a file resolves, the text of a
    directive occurs in the file only as a whole line, and no inserted
    text contains the text of a directive of the file, the file resolves
    to its text with every directive line replaced by the resolved text
    of the file it names; that text is the result of the recursive call,
    so directives inside it have been resolved in the same way. *)
Theorem insert_directives_resolved (fs : file_system) (d : nat)
    (filename filepath text : string) (code : string → string) :
  filename ≠ EmptyString →
  find_file fs filename = Some filepath →
  read_text fs filepath = Return text →
  inserts_resolve_to fs d text code = true →
  directives_only_as_lines text = true →
  inserted_code_clean text code = true →
  get_shader_code_from_file fs (S d) filename
  = Return (Some (str_join nl
      (map (λ l, if is_insert_line l then code l else l)
         (str_split newline text)))).
Proof.
  intros Hname Hfind Hread Hres Hlines Hclean. simpl.
  rewrite bool_decide_eq_false_2 by done. rewrite Hfind, Hread.
  unfold inserts_resolve_to, directives_only_as_lines, inserted_code_clean
    in *.
  rewrite forallb_forall in Hres, Hlines, Hclean.
  setoid_rewrite <-list_elem_of_In in Hres.
  setoid_rewrite <-list_elem_of_In in Hlines.
  setoid_rewrite <-list_elem_of_In in Hclean.
  assert (text = str_join nl (map (spliced code []) (str_split newline text)))
    as Htext.
  { rewrite <-(str_join_split newline text) at 1. fold nl. f_equal.
    rewrite <-(list_fmap_id (str_split newline text)) at 1.
    by apply list_fmap_ext. }
  trans (insert_loop (get_shader_code_from_file fs d)
           (re_findall_insert text)
           (str_join nl (map (spliced code []) (str_split newline text)))).
  { by rewrite <-Htext. }
  clear Htext.
  rewrite (insert_loop_spliced _ code (str_split newline text)
             (re_findall_insert text)).
  - do 3 f_equal. apply list_fmap_ext.
    intros _ l Hl%list_elem_of_lookup_2. unfold spliced.
    destruct (is_insert_line l) eqn:Hi.
    + rewrite bool_decide_eq_true_2; [done |].
      by apply elem_of_re_findall_insert.
    + rewrite bool_decide_eq_false_2; [done |].
      intros [_ ?]%elem_of_re_findall_insert. congruence.
  - intros line Hline. specialize (Hres line Hline).
    by apply bool_decide_eq_true in Hres.
  - intros line [_ ?]%elem_of_re_findall_insert.
    by apply is_insert_line_nonempty.
  - intros line [? _]%elem_of_re_findall_insert.
    by eapply str_split_no_sep.
  - intros line l Hline Hl Hc. specialize (Hlines line Hline).
    rewrite forallb_forall in Hlines.
    specialize (Hlines l (proj1 (list_elem_of_In _ _) Hl)).
    rewrite Hc in Hlines. by apply bool_decide_eq_true in Hlines.
  - intros line line' Hline Hline'. specialize (Hclean line Hline).
    rewrite forallb_forall in Hclean.
    specialize (Hclean line' (proj1 (list_elem_of_In _ _) Hline')).
    by apply negb_true_iff in Hclean.
  - done.
Qed.

Lemma insert_directives_resolved_nested :
  get_shader_code_from_file fs_nested 3 "quad/frag.glsl"
  = Return (Some ("#version 330" +:+ nl +:+ "vec4 add_light();" +:+ nl
                    +:+ "vec4 finalize_color();" +:+ nl
                    +:+ "void main() {}")).
Proof.
  exact (insert_directives_resolved fs_nested 2 "quad/frag.glsl"
           "quad/frag.glsl" _ code_nested
           ltac:(done) eq_refl eq_refl eq_refl eq_refl eq_refl).
Defined.

(** C4, on the code: [main.glsl] has the two directive lines
    [#INSERT a.glsl] and [#INSERT a.glsl.glsl], and both files resolve.
    [result.replace(line, inserted_code)] replaces the text of the first
    directive wherever it occurs, also at the start of the second line,
    which is then no directive any more: the result is [A], a newline and
    [A.glsl], and at no depth the text with the second line replaced by
    the file it names. *)
Theorem insert_overlap_replaces_prefix :
  is_insert_line "#INSERT a.glsl.glsl" = true
  ∧ get_shader_code_from_file fs_overlap 3 "inserts/a.glsl" = Return (Some "A")
  ∧ get_shader_code_from_file fs_overlap 3 "inserts/a.glsl.glsl"
    = Return (Some "B")
  ∧ get_shader_code_from_file fs_overlap 4 "main.glsl"
    = Return (Some ("A" +:+ nl +:+ "A.glsl"))
  ∧ ¬ ∃ depth, get_shader_code_from_file fs_overlap depth "main.glsl"
               = Return (Some ("A" +:+ nl +:+ "B")).
Proof.
  repeat split; try by vm_compute.
  intros [depth H].
  destruct (decide (depth ≤ 4)) as [Hle|Hgt].
  - eapply get_shader_code_from_file_mono_le in H; [|exact Hle].
    by vm_compute in H.
  - assert (get_shader_code_from_file fs_overlap 4 "main.glsl"
            = Return (Some ("A" +:+ nl +:+ "A.glsl"))) as H4 by by vm_compute.
    eapply get_shader_code_from_file_mono_le in H4;
      [|by apply Nat.lt_le_incl, Nat.nle_gt].
    rewrite H4 in H. by vm_compute in H.
Qed.









(** C2, on the code: a directive that names no file makes the
    resolution of the enclosing file raise [TypeError], and a file that
    is found and cannot be read makes it raise the error of [open]; a
    file that is not found resolves to [None]. *)
Theorem missing_insert_raises (d : nat) :
  get_shader_code_from_file fs_missing (S d) "inserts/missing.glsl"
    = Return None
  ∧ get_shader_code_from_file fs_missing (S (S d)) "main.glsl"
    = Raise TypeError
  ∧ get_shader_code_from_file fs_missing (S d) "secret.glsl"
    = Raise OSError.
Proof. done. Qed.

End SourceFacts.

(* ===================================================================== *)
(** * Properties of [ShaderWrapper]                                       *)
(* ===================================================================== *)

Module WrapperFacts.
Import Wrapper.

(** ** Running computations *)

Section run.
Context `{Externals}.

Lemma run_bind {A B} (m : M A) (f : A → M B) (h : heap) :
  (m ≫= f) h = match m h with
               | (Return a, h') => f a h'
               | (Raise e, h') => (Raise e, h')
               end.
Proof. reflexivity. Qed.

Lemma run_ret {A} (a : A) (h : heap) : ret a h = (Return a, h).
Proof. reflexivity. Qed.

Lemma run_get_wrapper (l : loc) (sw : ShaderWrapper) (h : heap) :
  wrappers h !! l = Some sw → get_wrapper l h = (Return sw, h).
Proof. unfold get_wrapper. by intros ->. Qed.

Lemma run_read_vert (a : loc) (xs : list vertex) (h : heap) :
  vert_arrays h !! a = Some xs → read_vert a h = (Return xs, h).
Proof. unfold read_vert. by intros ->. Qed.

Lemma run_read_index (a : loc) (xs : list Z) (h : heap) :
  index_arrays h !! a = Some xs → read_index a h = (Return xs, h).
Proof. unfold read_index. by intros ->. Qed.

Lemma run_read_uniforms (a : loc) (d : dict uniform) (h : heap) :
  uniform_dicts h !! a = Some d → read_uniforms a h = (Return d, h).
Proof. unfold read_uniforms. by intros ->. Qed.

Lemma run_read_textures (a : loc) (d : dict string) (h : heap) :
  texture_dicts h !! a = Some d → read_textures a h = (Return d, h).
Proof. unfold read_textures. by intros ->. Qed.

Lemma run_write_vert (a : loc) (old xs : list vertex) (h : heap) :
  vert_arrays h !! a = Some old →
  write_vert a xs h = (Return (), store_vert a xs h).
Proof.
  intros Ha. unfold write_vert. by rewrite run_bind, (run_read_vert a old).
Qed.

Lemma run_write_index (a : loc) (old xs : list Z) (h : heap) :
  index_arrays h !! a = Some old →
  write_index a xs h = (Return (), store_index a xs h).
Proof.
  intros Ha. unfold write_index. by rewrite run_bind, (run_read_index a old).
Qed.

Lemma run_modify (f : heap → heap) (h : heap) :
  modify f h = (Return (), f h).
Proof. reflexivity. Qed.

Lemma run_raise {A} (e : exn) (h : heap) : raise (A := A) e h = (Raise e, h).
Proof. reflexivity. Qed.

Lemma run_lift {A} (x : outcome A) (h : heap) : lift x h = (x, h).
Proof. reflexivity. Qed.

End run.

Ltac heap_simpl :=
  cbn [wrappers vert_arrays index_arrays uniform_dicts texture_dicts
       store_wrapper store_vert store_index store_uniforms store_textures
       fst snd].

Ltac heap_lookup :=
  heap_simpl;
  repeat first [ rewrite lookup_insert_eq | rewrite lookup_insert_ne by done ];
  first [ reflexivity | eassumption ].

(** One step of a computation: the equation [lem] of its first action. *)
Ltac mrun lem :=
  rewrite ?run_bind; erewrite lem by heap_lookup; cbv beta iota.

(** ** Identity *)

Section identity.
Context `{Externals}.

Lemma run_refresh_id (self : loc) (sw : ShaderWrapper) (u : dict uniform)
    (t : dict string) (h : heap) :
  wrappers h !! self = Some sw →
  uniform_dicts h !! uniforms sw = Some u →
  texture_dicts h !! texture_paths sw = Some t →
  ∃ h' sw', refresh_id self h = (Return (), h') ∧
    wrappers h' !! self = Some sw'
    ∧ program_id sw' = program_id_of (program_code sw)
    ∧ id sw' = id_of (program_id_of (program_code sw)) u t (depth_test sw)
                 (render_primitive sw).
Proof.
  intros Hsw Hu Ht. eexists _, _. split.
  - unfold refresh_id, create_program_id, set_program_id, create_id, set_id.
    mrun run_get_wrapper. mrun @run_ret.
    mrun run_get_wrapper. mrun run_modify.
    mrun run_get_wrapper. cbn [uniforms texture_paths].
    mrun run_read_uniforms. mrun run_read_textures. mrun @run_ret.
    mrun run_get_wrapper. rewrite run_modify. reflexivity.
  - heap_simpl. rewrite lookup_insert_eq. done.
Qed.

Lemma dict_str_printed_alike {V} (repr_value : V → string)
    (d1 d2 : dict V) :
  printed_alike repr_value d1 d2 →
  dict_str str_repr repr_value d1 = dict_str str_repr repr_value d2.
Proof.
  intros Halike. unfold dict_str. do 3 f_equal.
  induction Halike as [|[k1 v1] [k2 v2] d1 d2 [Hk Hv] _ IH]; [done |].
  simpl in *. by rewrite Hk, Hv, IH.
Qed.

(** C5, as the code has it.  Two instances with equal resolved source
    text, uniforms with the same keys in the same order of insertion and
    under every key values that print the same, texture paths that
    agree in the same way, equal depth-test flag and equal primitive
    get, from [refresh_id], equal [program_id] and equal [id], whatever
    their vertex and index arrays hold. *)
Theorem id_determined_by_configuration (h1 h2 : heap) (s1 s2 : loc)
    (sw1 sw2 : ShaderWrapper) (u1 u2 : dict uniform)
    (t1 t2 : dict string) :
  wrappers h1 !! s1 = Some sw1 →
  wrappers h2 !! s2 = Some sw2 →
  program_code sw1 = program_code sw2 →
  uniform_dicts h1 !! uniforms sw1 = Some u1 →
  uniform_dicts h2 !! uniforms sw2 = Some u2 →
  printed_alike uniform_repr u1 u2 →
  texture_dicts h1 !! texture_paths sw1 = Some t1 →
  texture_dicts h2 !! texture_paths sw2 = Some t2 →
  printed_alike str_repr t1 t2 →
  depth_test sw1 = depth_test sw2 →
  render_primitive sw1 = render_primitive sw2 →
  ∃ h1' h2' sw1' sw2',
    refresh_id s1 h1 = (Return (), h1')
    ∧ refresh_id s2 h2 = (Return (), h2')
    ∧ wrappers h1' !! s1 = Some sw1'
    ∧ wrappers h2' !! s2 = Some sw2'
    ∧ program_id sw1' = program_id sw2'
    ∧ id sw1' = id sw2'.
Proof.
  intros Hs1 Hs2 Hcode Hu1 Hu2 Hu Ht1 Ht2 Ht Hdepth Hprim.
  destruct (run_refresh_id s1 sw1 u1 t1 h1)
    as (h1' & sw1' & ? & ? & Hp1 & Hi1); [done.. |].
  destruct (run_refresh_id s2 sw2 u2 t2 h2)
    as (h2' & sw2' & ? & ? & Hp2 & Hi2); [done.. |].
  exists h1', h2', sw1', sw2'. repeat split; [done.. | |].
  - by rewrite Hp1, Hp2, Hcode.
  - rewrite Hi1, Hi2, Hcode, Hdepth, Hprim. unfold id_of.
    by rewrite (dict_str_printed_alike _ u1 u2 Hu),
      (dict_str_printed_alike _ t1 t2 Ht).
Qed.

End identity.

(** ** What the methods leave alone *)

Section frame.
Context `{Externals}.

Lemma ids_kept_refl (h : heap) : ids_kept h h.
Proof. intros l sw Hl. eauto. Qed.

Lemma ids_kept_trans (h1 h2 h3 : heap) :
  ids_kept h1 h2 → ids_kept h2 h3 → ids_kept h1 h3.
Proof.
  intros H12 H23 l sw Hl.
  destruct (H12 l sw Hl) as (sw2 & Hl2 & Hi2 & Hp2).
  destruct (H23 l sw2 Hl2) as (sw3 & Hl3 & Hi3 & Hp3).
  exists sw3. repeat split; [done | congruence..].
Qed.

Lemma ids_kept_same_wrappers (h h' : heap) :
  wrappers h' = wrappers h → ids_kept h h'.
Proof. intros Heq l sw Hl. rewrite Heq. eauto. Qed.

Lemma keeps_ret {A} (a : A) : keeps_ids (ret a).
Proof. intros h. apply ids_kept_refl. Qed.

Lemma keeps_mret {A} (a : A) : keeps_ids (mret (M := M) a).
Proof. intros h. apply ids_kept_refl. Qed.

Lemma keeps_raise {A} (e : exn) : keeps_ids (raise (A := A) e).
Proof. intros h. apply ids_kept_refl. Qed.

Lemma keeps_lift {A} (x : outcome A) : keeps_ids (lift x).
Proof. intros h. apply ids_kept_refl. Qed.

Lemma keeps_from_option {A} (x : option A) : keeps_ids (from_option x).
Proof. destruct x; [apply keeps_ret | apply keeps_raise]. Qed.

Lemma keeps_bind {A B} (m : M A) (f : A → M B) :
  keeps_ids m → (∀ a, keeps_ids (f a)) → keeps_ids (m ≫= f).
Proof.
  intros Hm Hf h. rewrite run_bind. specialize (Hm h).
  destruct (m h) as [[a|e] h1]; [|done].
  eapply ids_kept_trans; [done | apply Hf].
Qed.

Lemma keeps_get_wrapper (l : loc) : keeps_ids (get_wrapper l).
Proof. intros h. unfold get_wrapper. apply keeps_from_option. Qed.
Lemma keeps_read_vert (l : loc) : keeps_ids (read_vert l).
Proof. intros h. unfold read_vert. apply keeps_from_option. Qed.
Lemma keeps_read_index (l : loc) : keeps_ids (read_index l).
Proof. intros h. unfold read_index. apply keeps_from_option. Qed.
Lemma keeps_read_uniforms (l : loc) : keeps_ids (read_uniforms l).
Proof. intros h. unfold read_uniforms. apply keeps_from_option. Qed.
Lemma keeps_read_textures (l : loc) : keeps_ids (read_textures l).
Proof. intros h. unfold read_textures. apply keeps_from_option. Qed.

Lemma keeps_modify (f : heap → heap) :
  (∀ h, wrappers (f h) = wrappers h) → keeps_ids (modify f).
Proof. intros Hf h. apply ids_kept_same_wrappers. apply Hf. Qed.

Lemma keeps_new_vert (xs : list vertex) : keeps_ids (new_vert xs).
Proof. intros h. by apply ids_kept_same_wrappers. Qed.
Lemma keeps_new_index (xs : list Z) : keeps_ids (new_index xs).
Proof. intros h. by apply ids_kept_same_wrappers. Qed.
Lemma keeps_new_uniforms (d : dict uniform) : keeps_ids (new_uniforms d).
Proof. intros h. by apply ids_kept_same_wrappers. Qed.
Lemma keeps_new_textures (d : dict string) : keeps_ids (new_textures d).
Proof. intros h. by apply ids_kept_same_wrappers. Qed.

Lemma keeps_new_wrapper (sw : ShaderWrapper) : keeps_ids (new_wrapper sw).
Proof.
  intros h l sw' Hl. exists sw'. split; [|done]. unfold new_wrapper.
  heap_simpl. rewrite lookup_insert_ne; [done |].
  intros <-. pose proof (is_fresh (dom (wrappers h))) as Hfresh.
  apply Hfresh, elem_of_dom. eauto.
Qed.

(** Storing, under the reference of an instance, an instance with the
    same [id] and [program_id]. *)
Lemma keeps_store_wrapper (l : loc) (sw sw' : ShaderWrapper) (h : heap) :
  wrappers h !! l = Some sw → id sw' = id sw →
  program_id sw' = program_id sw →
  ids_kept h (store_wrapper l sw' h).
Proof.
  intros Hl Hi Hp l0 sw0 Hl0. heap_simpl.
  destruct (decide (l = l0)) as [<-|Hne].
  - rewrite lookup_insert_eq. exists sw'. by simplify_eq.
  - rewrite lookup_insert_ne by done. eauto.
Qed.

Lemma keeps_set_vert_data (self a : loc) : keeps_ids (set_vert_data self a).
Proof.
  intros h. unfold set_vert_data. rewrite run_bind. unfold get_wrapper.
  destruct (wrappers h !! self) as [sw|] eqn:Hsw; simpl;
    [|apply ids_kept_refl].
  by eapply keeps_store_wrapper.
Qed.

Lemma keeps_set_vert_indices (self : loc) (a : option loc) :
  keeps_ids (set_vert_indices self a).
Proof.
  intros h. unfold set_vert_indices. rewrite run_bind. unfold get_wrapper.
  destruct (wrappers h !! self) as [sw|] eqn:Hsw; simpl;
    [|apply ids_kept_refl].
  by eapply keeps_store_wrapper.
Qed.

Lemma keeps_set_uniforms (self a : loc) : keeps_ids (set_uniforms self a).
Proof.
  intros h. unfold set_uniforms. rewrite run_bind. unfold get_wrapper.
  destruct (wrappers h !! self) as [sw|] eqn:Hsw; simpl;
    [|apply ids_kept_refl].
  by eapply keeps_store_wrapper.
Qed.

Lemma keeps_set_texture_paths (self a : loc) :
  keeps_ids (set_texture_paths self a).
Proof.
  intros h. unfold set_texture_paths. rewrite run_bind. unfold get_wrapper.
  destruct (wrappers h !! self) as [sw|] eqn:Hsw; simpl;
    [|apply ids_kept_refl].
  by eapply keeps_store_wrapper.
Qed.

End frame.

Create HintDb keeps.
#[export] Hint Resolve keeps_ret keeps_mret keeps_raise keeps_lift
  keeps_get_wrapper keeps_read_vert keeps_read_index keeps_read_uniforms
  keeps_read_textures keeps_new_vert keeps_new_index keeps_new_uniforms
  keeps_new_textures keeps_new_wrapper keeps_set_vert_data
  keeps_set_vert_indices keeps_set_uniforms keeps_set_texture_paths : keeps.

(** A computation put together from parts that keep the identities. *)
Ltac keeps :=
  repeat first
    [ solve [auto with keeps]
    | apply keeps_modify; reflexivity
    | apply keeps_bind; [|intros ?]
    | match goal with
      | |- keeps_ids (match ?x with _ => _ end) => destruct x
      end ].

Section frame_methods.
Context `{Externals}.

Lemma keeps_write_vert (a : loc) (xs : list vertex) :
  keeps_ids (write_vert a xs).
Proof. unfold write_vert. keeps. Qed.

Lemma keeps_write_index (a : loc) (xs : list Z) :
  keeps_ids (write_index a xs).
Proof. unfold write_index. keeps. Qed.

Lemma keeps_resize_vert (a : loc) (n : nat) : keeps_ids (resize_vert a n).
Proof. unfold resize_vert. keeps. Qed.

Lemma keeps_resize_index (a : loc) (n : nat) : keeps_ids (resize_index a n).
Proof. unfold resize_index. keeps. Qed.

Lemma keeps_read_opt_index (a : option loc) : keeps_ids (read_opt_index a).
Proof. unfold read_opt_index. keeps. Qed.

Lemma keeps_copy (self : loc) : keeps_ids (copy self).
Proof. unfold copy. keeps. Qed.

Lemma keeps_sum_len_vert_data (acc : nat) (sws : list loc) :
  keeps_ids (sum_len_vert_data acc sws).
Proof. revert acc. induction sws as [|sw sws IH]; intros acc; simpl; keeps. Qed.

Lemma keeps_sum_len_vert_indices (acc : nat) (sws : list loc) :
  keeps_ids (sum_len_vert_indices acc sws).
Proof. revert acc. induction sws as [|sw sws IH]; intros acc; simpl; keeps. Qed.

#[local] Hint Resolve keeps_write_vert keeps_write_index keeps_resize_vert
  keeps_resize_index keeps_copy keeps_sum_len_vert_data
  keeps_sum_len_vert_indices : keeps.

Lemma keeps_read_in_loop (self : loc) (sws : list loc) (n m : nat) :
  keeps_ids (read_in_loop self sws n m).
Proof. revert n m. induction sws as [|sw sws IH]; intros n m; simpl; keeps. Qed.

#[local] Hint Resolve keeps_read_in_loop : keeps.

Lemma keeps_read_in (self : loc) (sws : list loc) :
  keeps_ids (read_in self sws).
Proof. unfold read_in. keeps. Qed.

#[local] Hint Resolve keeps_read_in : keeps.

Lemma keeps_combine_with (self : loc) (sws : list loc) :
  keeps_ids (combine_with self sws).
Proof. unfold combine_with. keeps. Qed.

Lemma ids_kept_get (h h' : heap) (self : loc) (sw : ShaderWrapper) :
  ids_kept h h' → wrappers h !! self = Some sw →
  (get_id self h').1 = Return (id sw)
  ∧ (get_program_id self h').1 = Return (program_id sw).
Proof.
  intros Hkept Hsw. destruct (Hkept self sw Hsw) as (sw' & Hsw' & Hi & Hp).
  unfold get_id, get_program_id.
  rewrite !run_bind, (run_get_wrapper self sw' h' Hsw'), !run_ret. simpl.
  by rewrite Hi, Hp.
Qed.

(** C6. Writing to the contents of any vertex array or index array in
    place leaves the [id] and the [program_id] of an instance as they
    were, and so does [combine_with], however it ends. *)
Theorem identity_unchanged_by_payload (h : heap) (self : loc)
    (sw : ShaderWrapper) :
  wrappers h !! self = Some sw →
  (∀ (a : loc) (xs : list vertex),
     (get_id self (write_vert a xs h).2).1 = Return (id sw)
     ∧ (get_program_id self (write_vert a xs h).2).1
       = Return (program_id sw))
  ∧ (∀ (a : loc) (xs : list Z),
     (get_id self (write_index a xs h).2).1 = Return (id sw)
     ∧ (get_program_id self (write_index a xs h).2).1
       = Return (program_id sw))
  ∧ (∀ others : list loc,
     (get_id self (combine_with self others h).2).1 = Return (id sw)
     ∧ (get_program_id self (combine_with self others h).2).1
       = Return (program_id sw)).
Proof.
  intros Hsw. repeat split; intros;
    (eapply ids_kept_get; [|done]);
    [ apply keeps_write_vert | apply keeps_write_vert
    | apply keeps_write_index | apply keeps_write_index
    | apply keeps_combine_with | apply keeps_combine_with ].
Qed.

End frame_methods.

(** ** Merging *)

Section slices.
Context `{Externals}.

Lemma setitem_slice_within {A} (target value : list A) (n : nat) :
  n + length value ≤ length target →
  setitem_slice target n (n + length value) value
  = Return (take n target ++ value ++ drop (n + length value) target).
Proof.
  intros Hle. unfold setitem_slice.
  rewrite (Nat.min_l n) by lia.
  rewrite (Nat.min_l (n + length value)) by lia.
  rewrite (Nat.max_r n) by lia.
  rewrite decide_True by lia. done.
Qed.

Lemma length_slice_write {A} (target value : list A) (n : nat) :
  n + length value ≤ length target →
  length (take n target ++ value ++ drop (n + length value) target)
  = length target.
Proof. intros Hle. rewrite !length_app, length_take, length_drop. lia. Qed.

Lemma take_slice_write {A} (target value : list A) (n : nat) :
  n + length value ≤ length target →
  take (n + length value)
    (take n target ++ value ++ drop (n + length value) target)
  = take n target ++ value.
Proof.
  intros Hle. rewrite app_assoc. rewrite take_app_length'; [done |].
  rewrite length_app, length_take. lia.
Qed.

Lemma drop_slice_write {A} (target value : list A) (n k : nat) :
  n + length value ≤ length target →
  drop (n + length value + k)
    (take n target ++ value ++ drop (n + length value) target)
  = drop (n + length value + k) target.
Proof.
  intros Hle. rewrite app_assoc.
  rewrite drop_app_ge by (rewrite length_app, length_take; lia).
  rewrite length_app, length_take, drop_drop. f_equal. lia.
Qed.

End slices.

Section merge.
Context `{Externals}.

Lemma total_vertices_cons (x : source) (xs : list source) :
  total_vertices (x :: xs) = length (src_data x) + total_vertices xs.
Proof. reflexivity. Qed.

Lemma total_indices_cons (x : source) (xs : list source) :
  total_indices (x :: xs) = length (src_indices x) + total_indices xs.
Proof. reflexivity. Qed.

Lemma length_merged_vertices (xs : list source) :
  length (mjoin (map src_data xs)) = total_vertices xs.
Proof.
  induction xs as [|x xs IH]; [done |].
  simpl. rewrite length_app, IH. done.
Qed.

Lemma length_merged_indices (n : nat) (xs : list source) :
  length (merged_indices n xs) = total_indices xs.
Proof.
  revert n. induction xs as [|x xs IH]; intros n; [done |].
  simpl. rewrite length_app, length_map, IH. done.
Qed.

Lemma buffers_of_data (h : heap) (sw : ShaderWrapper) b :
  buffers_of h sw = Some b → vert_arrays h !! vert_data sw = Some b.1.
Proof.
  unfold buffers_of. destruct (vert_arrays h !! vert_data sw); [|done].
  destruct (vert_indices sw) as [i|]; [|by intros [= <-]].
  destruct (index_arrays h !! i); [|done]. by intros [= <-].
Qed.

Lemma buffers_of_indices (h : heap) (sw : ShaderWrapper) b (i : loc) :
  buffers_of h sw = Some b → vert_indices sw = Some i →
  ∃ idx, index_arrays h !! i = Some idx ∧ b.2 = Some idx.
Proof.
  unfold buffers_of. intros Hb Hi. rewrite Hi in Hb.
  destruct (vert_arrays h !! vert_data sw); [|done].
  destruct (index_arrays h !! i) as [idx|]; [|done].
  injection Hb as <-. eauto.
Qed.

Lemma buffers_of_no_indices (h : heap) (sw : ShaderWrapper) b :
  buffers_of h sw = Some b → vert_indices sw = None → b.2 = None.
Proof.
  unfold buffers_of. intros Hb Hi. rewrite Hi in Hb.
  destruct (vert_arrays h !! vert_data sw); [|done]. by injection Hb as <-.
Qed.

(** [buffers_of] looks at the arrays of the instance only. *)
Lemma buffers_of_ext (h h' : heap) (sw : ShaderWrapper) :
  vert_arrays h' !! vert_data sw = vert_arrays h !! vert_data sw →
  (∀ i, vert_indices sw = Some i →
        index_arrays h' !! i = index_arrays h !! i) →
  buffers_of h' sw = buffers_of h sw.
Proof.
  intros Hv Hi. unfold buffers_of. rewrite Hv.
  destruct (vert_indices sw) as [i|]; [|done]. by rewrite (Hi i).
Qed.

(** A write of as many elements to the target's array leaves the sources
    as they are: a source that has that array has it empty. *)
Lemma source_at_write_vert (h : heap) (self a : loc) (ti : option loc)
    (T T1 : list vertex) (l : loc) (x : source) :
  vert_arrays h !! a = Some T → length T1 = length T →
  source_at h self a ti l x →
  source_at (store_vert a T1 h) self a ti l x.
Proof.
  intros HT Hlen ((Hw & Hself & Hb) & Ha & Hi).
  split; [|done]. split; [done |]. split; [done |].
  rewrite <-Hb. apply buffers_of_ext; [|done]. heap_simpl.
  destruct (decide (vert_data x.1 = a)) as [Heq|Hne].
  - rewrite Heq, lookup_insert_eq, HT.
    pose proof (buffers_of_data _ _ _ Hb) as Hd.
    rewrite Heq, HT, (Ha Heq) in Hd. injection Hd as ->.
    by destruct T1.
  - by rewrite lookup_insert_ne.
Qed.

Lemma source_at_write_index (h : heap) (self a ti : loc)
    (I I1 : list Z) (l : loc) (x : source) :
  index_arrays h !! ti = Some I → length I1 = length I →
  source_at h self a (Some ti) l x →
  source_at (store_index ti I1 h) self a (Some ti) l x.
Proof.
  intros HI Hlen ((Hw & Hself & Hb) & Ha & Hi).
  split; [|done]. split; [done |]. split; [done |].
  rewrite <-Hb. apply buffers_of_ext; [done |]. intros i Hxi. heap_simpl.
  destruct (decide (i = ti)) as [->|Hne].
  - rewrite lookup_insert_eq, HI.
    destruct (buffers_of_indices _ _ _ _ Hb Hxi) as (idx & Hil & Hidx).
    rewrite (Hi ti Hxi eq_refl) in Hidx. injection Hidx as <-.
    rewrite HI in Hil. injection Hil as ->. by destruct I1.
  - by rewrite lookup_insert_ne.
Qed.

Lemma index_modulus_pos : (0 < index_modulus)%Z.
Proof. unfold index_modulus. apply Z.pow_pos_nonneg; lia. Qed.

Lemma index_bound_pos : (0 < index_bound)%Z.
Proof.
  pose proof index_modulus_pos as Hpos. unfold index_bound, index_min.
  destruct index_signed; [|lia].
  assert (index_modulus / 2 < index_modulus)%Z
    by (apply Z.div_lt; lia).
  lia.
Qed.

Lemma python_int_fits_0 : python_int_fits 0.
Proof. intros _. apply index_bound_pos. Qed.

(** A value of the dtype is not changed by the wrap. *)
Lemma wrap_index_value (z : Z) : index_value z → wrap_index z = z.
Proof.
  unfold index_value, index_bound, wrap_index. intros Hz.
  rewrite Z.mod_small by lia. lia.
Qed.

Lemma add_python_int_fits (a : list Z) (n : nat) :
  python_int_fits n →
  add_python_int a n = Return (map (λ i, wrap_index (i + Z.of_nat n)) a).
Proof.
  intros Hfit. unfold add_python_int, python_int_fits in *.
  destruct python_int_checked; [|done]. simpl.
  rewrite bool_decide_eq_true_2; [done | by apply Hfit].
Qed.

Lemma offsets_fit_cons (n : nat) (x : source) (xs : list source) :
  offsets_fit n (x :: xs) →
  python_int_fits n ∧ offsets_fit (n + length (src_data x)) xs.
Proof.
  intros Hfit. split.
  - specialize (Hfit 0 ltac:(simpl; lia)). simpl in Hfit.
    unfold total_vertices in Hfit. simpl in Hfit.
    by rewrite Nat.add_0_r in Hfit.
  - intros k Hk. specialize (Hfit (S k) ltac:(simpl; lia)).
    simpl in Hfit. rewrite total_vertices_cons in Hfit.
    by rewrite Nat.add_assoc in Hfit.
Qed.

Lemma offsets_fit_nil (n : nat) : offsets_fit n [].
Proof. intros k Hk. simpl in Hk. lia. Qed.

Lemma run_read_in_loop (self : loc) (s : ShaderWrapper) (ls : list loc)
    (xs : list source) :
  ∀ (h : heap) (n m : nat) (T : list vertex) (I : list Z),
  Forall2 (source_at h self (vert_data s) (vert_indices s)) ls xs →
  wrappers h !! self = Some s →
  vert_arrays h !! vert_data s = Some T →
  n + total_vertices xs ≤ length T →
  (∀ ti, vert_indices s = Some ti →
     index_arrays h !! ti = Some I ∧ m + total_indices xs ≤ length I
     ∧ Forall (λ x, is_Some x.2.2) xs
     ∧ offsets_fit n xs) →
  read_in_loop self ls n m h
  = (Return (),
     Heap (<[vert_data s := take n T ++ mjoin (map src_data xs)
                              ++ drop (n + total_vertices xs) T]>
             (vert_arrays h))
          (match vert_indices s with
           | Some ti => <[ti := take m I ++ merged_indices n xs
                                  ++ drop (m + total_indices xs) I]>
                          (index_arrays h)
           | None => index_arrays h
           end)
          (uniform_dicts h) (texture_dicts h) (wrappers h)).
Proof.
  revert ls. induction xs as [|x xs IH]; intros ls h n m T I Hsrc Hself HT Hn HI.
  - apply Forall2_nil_inv_r in Hsrc as ->. simpl. rewrite run_ret.
    f_equal. unfold total_vertices, total_indices. simpl.
    rewrite !Nat.add_0_r, !take_drop. rewrite insert_id by done.
    destruct (vert_indices s) as [ti|] eqn:Hti.
    + destruct (HI ti eq_refl) as (HIt & _ & _ & _).
      rewrite insert_id by done.
      by destruct h.
    + by destruct h.
  - apply Forall2_cons_inv_r in Hsrc as (l & ls' & Hl & Hrest & ->).
    destruct Hl as ((Hlw & Hlself & Hlb) & _ & _).
    destruct x as [o [d oi]]. simpl in Hlw, Hlb.
    pose proof (buffers_of_data _ _ _ Hlb) as Hd. simpl in Hd.
    rewrite total_vertices_cons in Hn |- *.
    rewrite total_indices_cons in HI |- *.
    change (src_data (o, (d, oi))) with d in *.
    change (merged_indices n ((o, (d, oi)) :: xs))
      with (map (λ i, wrap_index (i + Z.of_nat n)) (src_indices (o, (d, oi)))
              ++ merged_indices (n + length d) xs).
    change (mjoin (map src_data ((o, (d, oi)) :: xs)))
      with (d ++ mjoin (map src_data xs)).
    cbn [read_in_loop].
    mrun run_get_wrapper. mrun run_read_vert. mrun run_get_wrapper.
    mrun run_read_vert. rewrite ?run_bind, run_lift.
    rewrite setitem_slice_within by lia. cbv beta iota.
    mrun run_write_vert.
    set (T1 := take n T ++ d ++ drop (n + length d) T).
    set (h1 := store_vert (vert_data s) T1 h).
    assert (length T1 = length T) as HT1 by (apply length_slice_write; lia).
    mrun run_get_wrapper. mrun run_get_wrapper.
    assert (Forall2 (source_at h1 self (vert_data s) (vert_indices s)) ls' xs)
      as Hrest1.
    { eapply Forall2_impl; [exact Hrest |]. intros l0 x0 Hx0.
      by apply (source_at_write_vert h self _ _ T). }
    destruct (vert_indices s) as [ti|] eqn:Hti.
    + destruct (HI ti eq_refl) as (HIt & Hm & Hall & Hfit).
      apply offsets_fit_cons in Hfit as [Hfit0 Hfit].
      change (src_data (o, (d, oi))) with d in Hfit.
      apply Forall_cons in Hall as [[idx Hidx] Hall]. simpl in Hidx. subst oi.
      change (src_indices (o, (d, Some idx))) with idx in *.
      destruct (vert_indices o) as [si|] eqn:Hsi.
      2: { by apply buffers_of_no_indices in Hlb. }
      destruct (buffers_of_indices _ _ _ si Hlb Hsi) as (? & Hsil & [= <-]).
      mrun run_read_index.
      rewrite ?run_bind, run_lift, add_python_int_fits by done.
      cbv beta iota. mrun run_read_index.
      rewrite ?run_bind, run_lift.
      rewrite <-(length_map (λ i : Z, wrap_index (i + Z.of_nat n)) idx) at 1.
      rewrite setitem_slice_within by (rewrite length_map; lia).
      cbv beta iota. mrun run_write_index. mrun @run_ret.
      rewrite length_map.
      set (I1 := take m I ++ map (λ i : Z, wrap_index (i + Z.of_nat n)) idx
                   ++ drop (m + length idx) I).
      assert (length I1 = length I) as HI1.
      { unfold I1.
        rewrite <-(length_map (λ i : Z, wrap_index (i + Z.of_nat n)) idx).
        apply length_slice_write. rewrite length_map. lia. }
      rewrite (IH ls' _ (n + length d) (m + length idx) T1 I1).
      * unfold h1. heap_simpl. f_equal. f_equal.
        -- rewrite insert_insert_eq. f_equal. unfold T1.
           rewrite take_slice_write by lia.
           rewrite drop_slice_write by lia.
           by rewrite <-!app_assoc, Nat.add_assoc.
        -- rewrite insert_insert_eq. f_equal. unfold I1.
           rewrite <-(length_map (λ i : Z, wrap_index (i + Z.of_nat n)) idx).
           rewrite take_slice_write by (rewrite length_map; lia).
           rewrite drop_slice_write by (rewrite length_map; lia).
           by rewrite <-!app_assoc, length_map, Nat.add_assoc.
      * eapply Forall2_impl; [exact Hrest1 |]. intros l0 x0 Hx0.
        by apply (source_at_write_index h1 self _ _ I).
      * done.
      * unfold h1. heap_simpl. by rewrite lookup_insert_eq.
      * lia.
      * intros ti' [= <-]. heap_simpl. rewrite lookup_insert_eq.
        split; [done |]. split; [lia |]. by split.
    + mrun @run_ret.
      rewrite (IH ls' _ (n + length d) m T1 I).
      * unfold h1. heap_simpl. f_equal. f_equal.
        rewrite insert_insert_eq. f_equal. unfold T1.
        rewrite take_slice_write by lia.
        rewrite drop_slice_write by lia.
        by rewrite <-!app_assoc, Nat.add_assoc.
      * done.
      * done.
      * unfold h1. heap_simpl. by rewrite lookup_insert_eq.
      * lia.
      * by intros ti' [=].
Qed.

Lemma run_set_vert_data (self a : loc) (sw : ShaderWrapper) (h : heap) :
  wrappers h !! self = Some sw →
  set_vert_data self a h
  = (Return (), store_wrapper self (with_vert_data sw a) h).
Proof. intros Hsw. unfold set_vert_data. by mrun run_get_wrapper. Qed.

Lemma run_set_vert_indices (self : loc) (i : option loc)
    (sw : ShaderWrapper) (h : heap) :
  wrappers h !! self = Some sw →
  set_vert_indices self i h
  = (Return (), store_wrapper self (with_vert_indices sw i) h).
Proof. intros Hsw. unfold set_vert_indices. by mrun run_get_wrapper. Qed.

Lemma run_new_vert (xs : list vertex) (h : heap) :
  new_vert xs h
  = (Return (fresh (dom (vert_arrays h))),
     store_vert (fresh (dom (vert_arrays h))) xs h).
Proof. reflexivity. Qed.

Lemma run_new_index (xs : list Z) (h : heap) :
  new_index xs h
  = (Return (fresh (dom (index_arrays h))),
     store_index (fresh (dom (index_arrays h))) xs h).
Proof. reflexivity. Qed.

Lemma fresh_vert (h : heap) :
  vert_arrays h !! fresh (dom (vert_arrays h)) = None.
Proof. apply not_elem_of_dom, is_fresh. Qed.

Lemma fresh_index (h : heap) :
  index_arrays h !! fresh (dom (index_arrays h)) = None.
Proof. apply not_elem_of_dom, is_fresh. Qed.

Lemma fresh_wrapper (h : heap) : wrappers h !! fresh (dom (wrappers h)) = None.
Proof. apply not_elem_of_dom, is_fresh. Qed.

(** [resize_array] on an array of the store: the array returned has the
    length asked for and is the one given, unchanged, or a new one. *)
Lemma run_resize_vert (a : loc) (T : list vertex) (n : nat) (h : heap) :
  vert_arrays h !! a = Some T →
  ∃ a' T', resize_vert a n h = (Return a', store_vert a' T' h)
    ∧ length T' = n
    ∧ ((a' = a ∧ T' = T) ∨ vert_arrays h !! a' = None).
Proof.
  intros Ha. unfold resize_vert. mrun run_read_vert.
  destruct (resize_array_same T n) eqn:Hsame.
  - exists a, T. rewrite run_ret. split; [|split].
    + f_equal. unfold store_vert. rewrite insert_id by done. by destruct h.
    + by apply resize_array_same_length.
    + by left.
  - eexists _, _. rewrite run_new_vert. split; [done |]. split.
    + apply resize_array_length.
    + right. apply fresh_vert.
Qed.

Lemma run_resize_index (a : loc) (I : list Z) (n : nat) (h : heap) :
  index_arrays h !! a = Some I →
  ∃ a' I', resize_index a n h = (Return a', store_index a' I' h)
    ∧ length I' = n
    ∧ ((a' = a ∧ I' = I) ∨ index_arrays h !! a' = None).
Proof.
  intros Ha. unfold resize_index. mrun run_read_index.
  destruct (resize_array_same I n) eqn:Hsame.
  - exists a, I. rewrite run_ret. split; [|split].
    + f_equal. unfold store_index. rewrite insert_id by done. by destruct h.
    + by apply resize_array_same_length.
    + by left.
  - eexists _, _. rewrite run_new_index. split; [done |]. split.
    + apply resize_array_length.
    + right. apply fresh_index.
Qed.

(** Sources stay sources when the target gets its resized arrays.  A
    source that has the target's old array has it empty when the array
    is returned as it is: the others leave no room in it. *)
Lemma source_resized_vert (h : heap) (self a a' : loc)
    (T T' : list vertex) (n : nat) (l : loc) (x : source) :
  vert_arrays h !! a = Some T → length T' = n →
  (a' = a ∧ T' = T) ∨ vert_arrays h !! a' = None →
  (vert_data x.1 = a → length T = n → x.2.1 = []) →
  source_in h self l x →
  source_in (store_vert a' T' h) self l x
  ∧ (vert_data x.1 = a' → x.2.1 = []).
Proof.
  intros HT Hlen Ha' Halias (Hw & Hself & Hb).
  pose proof (buffers_of_data _ _ _ Hb) as Hd.
  destruct Ha' as [[-> ->]|Hnone].
  - split; [|by intros ?; apply Halias].
    split; [done |]. split; [done |].
    rewrite <-Hb. apply buffers_of_ext; [|done].
    heap_simpl. by rewrite insert_id.
  - assert (vert_data x.1 ≠ a') by congruence.
    split; [|done]. split; [done |]. split; [done |].
    rewrite <-Hb. apply buffers_of_ext; [|done].
    heap_simpl. by rewrite lookup_insert_ne.
Qed.

Lemma source_resized_index (h : heap) (self ti ti' : loc)
    (I I' : list Z) (n : nat) (l : loc) (x : source) :
  index_arrays h !! ti = Some I → length I' = n →
  (ti' = ti ∧ I' = I) ∨ index_arrays h !! ti' = None →
  (vert_indices x.1 = Some ti → length I = n → x.2.2 = Some []) →
  source_in h self l x →
  source_in (store_index ti' I' h) self l x
  ∧ (∀ i, vert_indices x.1 = Some i → Some ti' = Some i → x.2.2 = Some []).
Proof.
  intros HI Hlen Hti' Halias (Hw & Hself & Hb).
  destruct Hti' as [[-> ->]|Hnone].
  - split; [|by intros i Hxi [= <-]; apply Halias].
    split; [done |]. split; [done |].
    rewrite <-Hb. apply buffers_of_ext; [done |]. intros i Hxi.
    heap_simpl. by rewrite insert_id.
  - assert (∀ i, vert_indices x.1 = Some i → i ≠ ti') as Hne.
    { intros i Hxi ->.
      destruct (buffers_of_indices _ _ _ _ Hb Hxi) as (? & ? & _).
      congruence. }
    split; [|by intros i Hxi [= <-]; destruct (Hne _ Hxi)].
    split; [done |]. split; [done |].
    rewrite <-Hb. apply buffers_of_ext; [done |]. intros i Hxi.
    heap_simpl. rewrite lookup_insert_ne; [done |].
    intros ->. by eapply Hne.
Qed.

Lemma source_in_store_wrapper (h : heap) (self : loc) (sw : ShaderWrapper)
    (l : loc) (x : source) :
  source_in h self l x → source_in (store_wrapper self sw h) self l x.
Proof.
  intros (Hw & Hself & Hb). split; [|done].
  heap_simpl. by rewrite lookup_insert_ne.
Qed.

Lemma Forall2_and_r {A B} (P : A → B → Prop) (Q : B → Prop)
    (l : list A) (k : list B) :
  Forall2 P l k → Forall Q k → Forall2 (λ a b, P a b ∧ Q b) l k.
Proof.
  induction 1 as [|a b l k Hab _ IH]; [constructor |].
  intros [Hb Hk]%Forall_cons. constructor; auto.
Qed.

Lemma run_sum_len_vert_data (h : heap) (self : loc) (ls : list loc)
    (xs : list source) (acc : nat) :
  Forall2 (source_in h self) ls xs →
  sum_len_vert_data acc ls h = (Return (acc + total_vertices xs), h).
Proof.
  intros Hsrc. revert acc.
  induction Hsrc as [|l x ls xs Hl _ IH]; intros acc.
  - simpl. rewrite run_ret. unfold total_vertices. simpl.
    by rewrite Nat.add_0_r.
  - destruct Hl as (Hw & _ & Hb%buffers_of_data).
    cbn [sum_len_vert_data]. mrun run_get_wrapper. mrun run_read_vert.
    rewrite IH, total_vertices_cons. by rewrite Nat.add_assoc.
Qed.

Lemma run_sum_len_vert_indices (h : heap) (self : loc) (ls : list loc)
    (xs : list source) (acc : nat) :
  Forall2 (source_in h self) ls xs →
  Forall (λ x, is_Some x.2.2) xs →
  sum_len_vert_indices acc ls h = (Return (acc + total_indices xs), h).
Proof.
  intros Hsrc. revert acc.
  induction Hsrc as [|l x ls xs Hl _ IH]; intros acc Hall.
  - simpl. rewrite run_ret. unfold total_indices. simpl. by rewrite Nat.add_0_r.
  - destruct Hl as (Hw & _ & Hb).
    apply Forall_cons in Hall as [[idx Hidx] Hall].
    cbn [sum_len_vert_indices]. mrun run_get_wrapper.
    destruct (vert_indices x.1) as [i|] eqn:Hi.
    + destruct (buffers_of_indices _ _ _ _ Hb Hi) as (idx' & Hil & Hidx').
      mrun run_read_index. rewrite IH by done.
      rewrite total_indices_cons. unfold src_indices at 1.
      rewrite Hidx'. simpl. by rewrite Nat.add_assoc.
    + apply buffers_of_no_indices in Hb; [|done]. congruence.
Qed.

(** With a source that has no index buffer the sum raises [TypeError]
    and writes nothing. *)
Lemma run_sum_len_vert_indices_none (h : heap) (self : loc)
    (ls : list loc) (xs : list source) (acc : nat) :
  Forall2 (source_in h self) ls xs →
  Exists (λ x, x.2.2 = None) xs →
  sum_len_vert_indices acc ls h = (Raise TypeError, h).
Proof.
  intros Hsrc. revert acc.
  induction Hsrc as [|l x ls xs Hl _ IH]; intros acc Hex.
  - by apply Exists_nil in Hex.
  - destruct Hl as (Hw & _ & Hb).
    cbn [sum_len_vert_indices]. mrun run_get_wrapper.
    destruct (vert_indices x.1) as [i|] eqn:Hi.
    + destruct (buffers_of_indices _ _ _ _ Hb Hi) as (idx' & Hil & Hidx').
      mrun run_read_index. apply IH.
      apply Exists_cons in Hex as [Hnone|Hex]; [congruence | done].
    + by rewrite run_raise.
Qed.

Lemma slice_write_all {A} (target value : list A) :
  length target = length value →
  take 0 target ++ value ++ drop (0 + length value) target = value.
Proof.
  intros Hlen. rewrite take_0, drop_ge by (simpl; lia).
  by rewrite app_nil_l, app_nil_r.
Qed.

(** [read_in] on a target whose arrays exist, with sources other than
    the target that all have an index buffer when the target has one. *)
Lemma run_read_in (self : loc) (s : ShaderWrapper) (ls : list loc)
    (xs : list source) (h : heap) (T : list vertex) :
  Forall2 (source_in h self) ls xs →
  wrappers h !! self = Some s →
  vert_arrays h !! vert_data s = Some T →
  Forall (λ x, vert_data x.1 = vert_data s →
               length T = total_vertices xs → x.2.1 = []) xs →
  (∀ ti, vert_indices s = Some ti →
     ∃ I, index_arrays h !! ti = Some I
       ∧ Forall (λ x, is_Some x.2.2) xs
       ∧ Forall (λ x, vert_indices x.1 = Some ti →
                      length I = total_indices xs → x.2.2 = Some []) xs
       ∧ offsets_fit 0 xs) →
  ∃ h' s', read_in self ls h = (Return self, h')
    ∧ wrappers h' !! self = Some s'
    ∧ vert_arrays h' !! vert_data s' = Some (mjoin (map src_data xs))
    ∧ match vert_indices s with
      | Some _ => ∃ ti', vert_indices s' = Some ti'
          ∧ index_arrays h' !! ti' = Some (merged_indices 0 xs)
      | None => vert_indices s' = None
      end.
Proof.
  intros Hsrc Hself HT Halias HI. unfold read_in.
  rewrite ?run_bind. erewrite run_sum_len_vert_data by done.
  cbv beta iota. mrun run_get_wrapper.
  destruct (run_resize_vert (vert_data s) T (0 + total_vertices xs) h HT)
    as (a' & T' & Hres & HlenT' & Ha').
  rewrite ?run_bind, Hres. cbv beta iota.
  mrun run_set_vert_data. mrun run_get_wrapper.
  cbn [vert_indices with_vert_data].
  set (s1 := with_vert_data s a').
  set (h1 := store_wrapper self s1 (store_vert a' T' h)).
  assert (wrappers h1 !! self = Some s1) as Hself1
    by (unfold h1; heap_lookup).
  assert (vert_arrays h1 !! a' = Some T') as HT1
    by (unfold h1; heap_lookup).
  assert (index_arrays h1 = index_arrays h) as Hidx1 by done.
  assert (Forall2 (λ l x, source_in h1 self l x
                          ∧ (vert_data x.1 = a' → x.2.1 = [])) ls xs)
    as Hsrc1.
  { eapply Forall2_impl; [exact (Forall2_and_r _ _ _ _ Hsrc Halias) |].
    intros l x [Hx Hax]. simpl in Hax.
    destruct (source_resized_vert h self (vert_data s) a' T T'
                (0 + total_vertices xs) l x) as [Hin Hempty]; try done.
    split; [|done]. by apply source_in_store_wrapper. }
  destruct (vert_indices s) as [ti|] eqn:Hti.
  - destruct (HI ti eq_refl) as (I & HIt & Hall & Halias' & Hfit).
    rewrite ?run_bind.
    erewrite (run_sum_len_vert_indices h1 self ls xs);
      [|by eapply Forall2_impl; [exact Hsrc1 |]; intros ?? []|done].
    cbv beta iota.
    destruct (run_resize_index ti I (0 + total_indices xs) h1)
      as (ti' & I' & Hres' & HlenI' & Hti'); [by rewrite Hidx1 |].
    rewrite ?run_bind, Hres'. cbv beta iota.
    mrun run_set_vert_indices.
    set (s2 := with_vert_indices s1 (Some ti')).
    set (h2 := store_wrapper self s2 (store_index ti' I' h1)).
    rewrite ?run_bind.
    rewrite (run_read_in_loop self s2 ls xs h2 0 0 T' I').
    + cbv beta iota. rewrite run_ret. eexists _, s2. split; [done |].
      heap_simpl. split; [unfold h2; heap_lookup |]. split.
      * rewrite lookup_insert_eq. f_equal.
        rewrite <-(length_merged_vertices xs) at 1.
        apply slice_write_all. rewrite length_merged_vertices. lia.
      * exists ti'. split; [done |]. cbn [vert_indices s2 with_vert_indices].
        rewrite lookup_insert_eq. f_equal.
        rewrite <-(length_merged_indices 0 xs) at 1.
        apply slice_write_all. rewrite length_merged_indices. lia.
    + eapply Forall2_impl;
        [exact (Forall2_and_r _ _ _ _ Hsrc1 Halias') |].
      intros l x [[Hx Hempty] Hax]. simpl in Hax.
      destruct (source_resized_index h1 self ti ti' I I'
                  (0 + total_indices xs) l x) as [Hin Hempty'];
        try done.
      split; [by apply source_in_store_wrapper |]. split; done.
    + unfold h2. heap_simpl. by rewrite lookup_insert_eq.
    + done.
    + lia.
    + intros ? [= <-]. unfold h2. heap_simpl. rewrite lookup_insert_eq.
      split; [done |]. split; [lia |]. split; done.
  - mrun @run_ret. rewrite ?run_bind.
    rewrite (run_read_in_loop self s1 ls xs h1 0 0 T' []).
    + cbv beta iota. rewrite run_ret. eexists _, s1. split; [done |].
      heap_simpl. split; [done |].
      cbn [vert_indices vert_data s1 with_vert_data].
      split; [|done]. rewrite lookup_insert_eq. f_equal.
      rewrite <-(length_merged_vertices xs) at 1.
      apply slice_write_all. rewrite length_merged_vertices. lia.
    + unfold s1. cbn [vert_indices vert_data with_vert_data].
      rewrite Hti. eapply Forall2_impl; [exact Hsrc1 |].
      intros l x [Hx Hempty]. split; [done |]. split; [done |].
      by intros i _ [=].
    + done.
    + done.
    + lia.
    + unfold s1. cbn [vert_indices with_vert_data]. rewrite Hti.
      by intros ? [=].
Qed.

Lemma run_read_in_no_indices (self : loc) (s : ShaderWrapper) (ti : loc)
    (ls : list loc) (xs : list source) (h : heap) (T : list vertex) :
  Forall2 (source_in h self) ls xs →
  wrappers h !! self = Some s →
  vert_arrays h !! vert_data s = Some T →
  vert_indices s = Some ti →
  Exists (λ x, x.2.2 = None) xs →
  (read_in self ls h).1 = Raise TypeError.
Proof.
  intros Hsrc Hself HT Hti Hex. unfold read_in.
  rewrite ?run_bind. erewrite run_sum_len_vert_data by done.
  cbv beta iota. mrun run_get_wrapper.
  destruct (run_resize_vert (vert_data s) T (0 + total_vertices xs) h HT)
    as (a' & T' & Hres & HlenT' & Ha').
  rewrite ?run_bind, Hres. cbv beta iota.
  mrun run_set_vert_data. mrun run_get_wrapper.
  cbn [vert_indices with_vert_data]. rewrite Hti.
  rewrite ?run_bind.
  erewrite (run_sum_len_vert_indices_none _ self ls xs);
    [done | | done].
  eapply Forall2_impl; [exact Hsrc |]. intros l x Hx.
  apply source_in_store_wrapper.
  destruct Hx as (Hw & Hself' & Hb). split; [done |]. split; [done |].
  pose proof (buffers_of_data _ _ _ Hb) as Hd.
  rewrite <-Hb. apply buffers_of_ext; [|done]. heap_simpl.
  destruct Ha' as [[-> ->]|Hnone]; [by rewrite insert_id |].
  rewrite lookup_insert_ne; [done | congruence].
Qed.

Lemma run_new_wrapper (sw : ShaderWrapper) (h : heap) :
  new_wrapper sw h
  = (Return (fresh (dom (wrappers h))),
     store_wrapper (fresh (dom (wrappers h))) sw h).
Proof. reflexivity. Qed.

Lemma run_new_uniforms (d : dict uniform) (h : heap) :
  new_uniforms d h
  = (Return (fresh (dom (uniform_dicts h))),
     store_uniforms (fresh (dom (uniform_dicts h))) d h).
Proof. reflexivity. Qed.

Lemma run_new_textures (d : dict string) (h : heap) :
  new_textures d h
  = (Return (fresh (dom (texture_dicts h))),
     store_textures (fresh (dom (texture_dicts h))) d h).
Proof. reflexivity. Qed.

End merge.

(** The next action of a computation, whichever it is. *)
Ltac mstep :=
  first
    [ mrun run_get_wrapper | mrun run_read_vert | mrun run_read_index
    | mrun run_read_uniforms | mrun run_read_textures
    | mrun @run_ret | mrun run_modify | mrun run_new_vert
    | mrun run_new_index | mrun run_new_uniforms | mrun run_new_textures
    | mrun run_new_wrapper ].

Section merge_copy.
Context `{Externals}.

(** [copy] on an instance whose arrays and dictionaries exist: the copy
    is a new instance over new arrays with the same contents, and no
    array that existed has changed. *)
Lemma run_copy (self : loc) (s : ShaderWrapper)
    (b : list vertex * option (list Z)) (u : dict uniform)
    (t : dict string) (h : heap) :
  wrappers h !! self = Some s →
  buffers_of h s = Some b →
  uniform_dicts h !! uniforms s = Some u →
  texture_dicts h !! texture_paths s = Some t →
  ∃ h' c sc, copy self h = (Return c, h')
    ∧ wrappers h !! c = None
    ∧ wrappers h' = <[c := sc]> (wrappers h)
    ∧ vert_arrays h !! vert_data sc = None
    ∧ vert_arrays h' = <[vert_data sc := b.1]> (vert_arrays h)
    ∧ match vert_indices s with
      | Some _ => ∃ i' idx, vert_indices sc = Some i'
          ∧ index_arrays h !! i' = None ∧ b.2 = Some idx
          ∧ index_arrays h' = <[i' := idx]> (index_arrays h)
      | None => vert_indices sc = None ∧ b.2 = None
          ∧ index_arrays h' = index_arrays h
      end.
Proof.
  intros Hself Hb Hu Ht.
  pose proof (buffers_of_data _ _ _ Hb) as Hd.
  pose proof (fresh_wrapper h) as Hc.
  pose proof (fresh_vert h) as Ha.
  pose proof (fresh_index h) as Hi.
  unfold copy, set_vert_data, set_vert_indices, set_uniforms,
    set_texture_paths.
  repeat mstep.
  destruct (vert_indices s) as [i|] eqn:Hsi.
  - destruct (buffers_of_indices _ _ _ _ Hb Hsi) as (idx & Hidx & Hb2).
    repeat mstep.
    destruct u as [|u0 u]; repeat mstep;
      (destruct t as [|t0 t]; repeat mstep;
       eexists _, _, _; (split; [reflexivity |]); heap_simpl;
       rewrite ?insert_insert_eq;
       repeat split; try done; eexists _, _; repeat split; done).
  - pose proof (buffers_of_no_indices _ _ _ Hb Hsi) as Hb2.
    repeat mstep.
    destruct u as [|u0 u]; repeat mstep;
      (destruct t as [|t0 t]; repeat mstep;
       eexists _, _, _; (split; [reflexivity |]); heap_simpl;
       rewrite ?insert_insert_eq; repeat split; done).
Qed.

Lemma map_add_0 (idx : list Z) :
  Forall index_value idx →
  map (λ i : Z, wrap_index (i + Z.of_nat 0)) idx = idx.
Proof.
  induction 1 as [|i idx Hi _ IH]; [done |]. simpl. rewrite IH. f_equal.
  rewrite Z.add_0_r. by apply wrap_index_value.
Qed.

(** The sources of [combine_with] after [copy]: the copy, which has
    arrays of its own, and the others. *)
Lemma copy_sources (self c : loc) (s sc : ShaderWrapper)
    (b : list vertex * option (list Z)) (h h' : heap) (ls : list loc)
    (xs : list source) :
  wrappers h !! self = Some s →
  buffers_of h s = Some b →
  wrappers h !! c = None →
  wrappers h' = <[c := sc]> (wrappers h) →
  vert_arrays h !! vert_data sc = None →
  vert_arrays h' = <[vert_data sc := b.1]> (vert_arrays h) →
  match vert_indices s with
  | Some _ => ∃ i' idx, vert_indices sc = Some i'
      ∧ index_arrays h !! i' = None ∧ b.2 = Some idx
      ∧ index_arrays h' = <[i' := idx]> (index_arrays h)
  | None => vert_indices sc = None ∧ b.2 = None
      ∧ index_arrays h' = index_arrays h
  end →
  Forall2 (source_in h self) ls xs →
  Forall2 (source_in h' self) (c :: ls) ((sc, b) :: xs)
  ∧ vert_data sc ≠ vert_data s
  ∧ (∀ ti, vert_indices s = Some ti → vert_indices sc ≠ Some ti).
Proof.
  intros Hself Hb Hc Hw Ha Hv Hi Hsrc.
  pose proof (buffers_of_data _ _ _ Hb) as Hd.
  split; [|split].
  - apply Forall2_cons. split.
    + unfold source_in. cbn [fst snd]. rewrite Hw, lookup_insert_eq.
      split; [done |]. split; [congruence |].
      destruct (vert_indices s) as [ti|] eqn:Hti.
      * destruct Hi as (i' & idx & Hsci & Hi' & Hb2 & Hidx).
        unfold buffers_of.
        rewrite Hv, lookup_insert_eq, Hsci, Hidx, lookup_insert_eq.
        destruct b as [d oi]. simpl in *. by subst.
      * destruct Hi as (Hsci & Hb2 & Hidx).
        unfold buffers_of. rewrite Hv, lookup_insert_eq, Hsci.
        destruct b as [d oi]. simpl in *. by subst.
    + eapply Forall2_impl; [exact Hsrc |].
      intros l x (Hlw & Hlself & Hlb).
      pose proof (buffers_of_data _ _ _ Hlb) as Hld.
      split; [|split; [done |]].
      * rewrite Hw, lookup_insert_ne; [done | congruence].
      * rewrite <-Hlb. apply buffers_of_ext.
        -- rewrite Hv, lookup_insert_ne; [done | congruence].
        -- intros i Hxi.
           destruct (buffers_of_indices _ _ _ _ Hlb Hxi) as (? & Hil & _).
           destruct (vert_indices s) as [ti|].
           ++ destruct Hi as (i' & idx & _ & Hi' & _ & ->).
              rewrite lookup_insert_ne; [done | congruence].
           ++ by destruct Hi as (_ & _ & ->).
  - congruence.
  - intros ti Hti. rewrite Hti in Hi.
    destruct Hi as (i' & idx & Hsci & Hi' & _ & _).
    destruct (buffers_of_indices _ _ _ _ Hb Hti) as (? & Hil & _).
    rewrite Hsci. intros [= ->]. congruence.
Qed.

(** Sources that add nothing to the totals are empty. *)
Lemma total_vertices_zero (xs : list source) (x : source) :
  total_vertices xs = 0 → x ∈ xs → x.2.1 = [].
Proof.
  induction xs as [|y xs IH]; [by intros _ ?%elem_of_nil |].
  rewrite total_vertices_cons. unfold src_data at 1.
  intros Hsum [<-|Hin]%elem_of_cons.
  - destruct (x.2.1); [done | simpl in Hsum; lia].
  - apply IH; [lia | done].
Qed.

Lemma total_indices_zero (xs : list source) (x : source) :
  total_indices xs = 0 → x ∈ xs → is_Some x.2.2 → x.2.2 = Some [].
Proof.
  induction xs as [|y xs IH]; [by intros _ ?%elem_of_nil |].
  rewrite total_indices_cons. unfold src_indices at 1.
  intros Hsum [<-|Hin]%elem_of_cons [idx Hidx].
  - rewrite Hidx in Hsum |- *. simpl in Hsum.
    destruct idx; [done | simpl in Hsum; lia].
  - apply IH; [lia | done | eauto].
Qed.

(** [combine_with] on an instance whose arrays and dictionaries exist,
    with other instances, all with an index buffer when the instance has
    one. *)
Lemma run_combine_with (self : loc) (s : ShaderWrapper)
    (b : list vertex * option (list Z)) (u : dict uniform)
    (t : dict string) (h : heap) (ls : list loc) (xs : list source) :
  wrappers h !! self = Some s →
  buffers_of h s = Some b →
  uniform_dicts h !! uniforms s = Some u →
  texture_dicts h !! texture_paths s = Some t →
  Forall2 (source_in h self) ls xs →
  (b.2 = None ∨ Forall (λ x, is_Some x.2.2) xs) →
  Forall index_value (src_indices (s, b)) →
  (is_Some b.2 → offsets_fit 0 ((s, b) :: xs)) →
  ∃ h' s', combine_with self ls h = (Return self, h')
    ∧ wrappers h' !! self = Some s'
    ∧ vert_arrays h' !! vert_data s'
      = Some (mjoin (map src_data ((s, b) :: xs)))
    ∧ match b.2 with
      | Some _ => ∃ ti', vert_indices s' = Some ti'
          ∧ index_arrays h' !! ti'
            = Some (merged_indices 0 ((s, b) :: xs))
      | None => vert_indices s' = None
      end.
Proof.
  intros Hself Hb Hu Ht Hsrc Hidx Hvalues Hfit.
  pose proof (buffers_of_data _ _ _ Hb) as Hd.
  destruct ls as [|l ls].
  - apply Forall2_nil_inv_l in Hsrc as ->. exists h, s.
    unfold combine_with. mrun @run_ret. rewrite run_ret.
    split; [done |]. split; [done |]. split.
    + simpl. unfold src_data. simpl. by rewrite app_nil_r.
    + destruct (vert_indices s) as [ti|] eqn:Hti.
      * destruct (buffers_of_indices _ _ _ _ Hb Hti) as (idx & Hil & Hb2).
        rewrite Hb2. exists ti. split; [done |].
        simpl. rewrite app_nil_r, map_add_0 by done.
        unfold src_indices. simpl. by rewrite Hb2.
      * by rewrite (buffers_of_no_indices _ _ _ Hb Hti).
  - destruct (run_copy self s b u t h) as
      (h1 & c & sc & Hcopy & Hc & Hw & Ha & Hv & Hi); [done.. |].
    destruct (copy_sources self c s sc b h h1 (l :: ls) xs
                Hself Hb Hc Hw Ha Hv Hi Hsrc) as (Hsrc1 & Hca & Hci).
    destruct (run_read_in self s (c :: l :: ls) ((sc, b) :: xs) h1 b.1)
      as (h2 & s2 & Hread & Hs2 & Hv2 & Hi2).
    + done.
    + rewrite Hw, lookup_insert_ne; [done | congruence].
    + rewrite Hv, lookup_insert_ne; [done | congruence].
    + apply Forall_cons. split; [done |].
      apply Forall_forall. intros x Hx _ Htot.
      change (length b.1 = length b.1 + total_vertices xs) in Htot.
      apply (total_vertices_zero xs); [lia | done].
    + intros ti Hti. rewrite Hti in Hi.
      destruct Hi as (i' & idx & Hsci & Hi' & Hb2 & Hidx1).
      destruct (buffers_of_indices _ _ _ _ Hb Hti) as (idx0 & Hil & Hb2').
      assert (idx0 = idx) as -> by congruence.
      assert (Forall (λ x, is_Some x.2.2) xs) as Hall
        by (destruct Hidx as [Hnone|Hall]; [congruence | done]).
      exists idx. split; [|split; [|split]].
      * rewrite Hidx1, lookup_insert_ne; [done | congruence].
      * apply Forall_cons. split; [simpl; by rewrite Hb2 | done].
      * apply Forall_cons. split; [by intros ?; destruct (Hci ti) |].
        apply Forall_forall. intros x Hx _ Htot.
        change (length idx
                = length (default [] b.2) + total_indices xs) in Htot.
        rewrite Hb2 in Htot. simpl in Htot.
        apply (total_indices_zero xs); [lia | done |].
        by eapply Forall_forall in Hall.
      * intros k Hk.
        specialize (Hfit ltac:(rewrite Hb2; by eexists) k Hk).
        destruct k as [|k]; [done |]. simpl in *.
        by rewrite total_vertices_cons in *.
    + exists h2, s2. unfold combine_with.
      rewrite ?run_bind, Hcopy. cbv beta iota.
      rewrite ?run_bind, Hread. cbv beta iota.
      rewrite !run_ret. split; [done |]. split; [done |]. split; [done |].
      destruct (vert_indices s) as [ti|] eqn:Hti.
      * destruct (buffers_of_indices _ _ _ _ Hb Hti) as (idx & _ & Hb2).
        by rewrite Hb2.
      * by rewrite (buffers_of_no_indices _ _ _ Hb Hti).
Qed.

(** With an index buffer on the instance and none on a source,
    [combine_with] raises [TypeError]. *)
Lemma run_combine_with_no_indices (self : loc) (s : ShaderWrapper)
    (b : list vertex * option (list Z)) (u : dict uniform)
    (t : dict string) (h : heap) (ls : list loc) (xs : list source) :
  wrappers h !! self = Some s →
  buffers_of h s = Some b →
  uniform_dicts h !! uniforms s = Some u →
  texture_dicts h !! texture_paths s = Some t →
  Forall2 (source_in h self) ls xs →
  is_Some b.2 →
  Exists (λ x, x.2.2 = None) xs →
  (combine_with self ls h).1 = Raise TypeError.
Proof.
  intros Hself Hb Hu Ht Hsrc [idx Hb2] Hex.
  pose proof (buffers_of_data _ _ _ Hb) as Hd.
  destruct ls as [|l ls].
  { apply Forall2_nil_inv_l in Hsrc as ->. by apply Exists_nil in Hex. }
  destruct (vert_indices s) as [ti|] eqn:Hti.
  2: { rewrite (buffers_of_no_indices _ _ _ Hb Hti) in Hb2. done. }
  destruct (run_copy self s b u t h) as
    (h1 & c & sc & Hcopy & Hc & Hw & Ha & Hv & Hi); [done.. |].
  rewrite Hti in Hi.
  pose proof (copy_sources self c s sc b h h1 (l :: ls) xs) as Hsrc1.
  rewrite Hti in Hsrc1.
  destruct (Hsrc1 Hself Hb Hc Hw Ha Hv Hi Hsrc) as (Hsrc1' & _ & _).
  unfold combine_with. rewrite ?run_bind, Hcopy. cbv beta iota.
  rewrite ?run_bind.
  pose proof (run_read_in_no_indices self s ti (c :: l :: ls)
                ((sc, b) :: xs) h1 b.1) as Hread.
  destruct (read_in self (c :: l :: ls) h1) as [r h2]. simpl in Hread.
  rewrite Hread; [done | done | | | done |].
  - rewrite Hw, lookup_insert_ne; [done | congruence].
  - rewrite Hv, lookup_insert_ne; [done | congruence].
  - by apply Exists_cons_tl.
Qed.

End merge_copy.

(** ** The sources of a merge, computed *)

Section sources.
Context `{Externals}.

Lemma source_of_in (h : heap) (self l : loc) (x : source) :
  source_of h self l = Some x → source_in h self l x.
Proof.
  unfold source_of, source_in.
  destruct (wrappers h !! l) as [o|]; [|done].
  destruct (buffers_of h o) as [b|] eqn:Hb; [|done].
  case_bool_decide; [|done]. by intros [= <-].
Qed.

Lemma sources_of_in (h : heap) (self : loc) (ls : list loc)
    (xs : list source) :
  sources_of h self ls = Some xs → Forall2 (source_in h self) ls xs.
Proof.
  revert xs. induction ls as [|l ls IH]; intros xs; simpl.
  - intros [= <-]. constructor.
  - destruct (source_of h self l) as [x|] eqn:Hx; [|done].
    destruct (sources_of h self ls) as [xs'|]; [|done].
    intros [= <-]. constructor; [by apply source_of_in | by apply IH].
Qed.

Lemma has_indices_all (xs : list source) :
  forallb has_indices xs = true → Forall (λ x, is_Some x.2.2) xs.
Proof.
  rewrite forallb_forall, Forall_forall. intros Hall x Hx.
  specialize (Hall x (proj1 (list_elem_of_In _ _) Hx)).
  unfold has_indices in Hall. by destruct (x.2.2).
Qed.

Lemma has_indices_not_all (xs : list source) :
  forallb has_indices xs = false → Exists (λ x, x.2.2 = None) xs.
Proof.
  induction xs as [|x xs IH]; simpl; [done |].
  intros [Hx|Hxs]%andb_false_iff.
  - left. unfold has_indices in Hx. by destruct (x.2.2).
  - right. by apply IH.
Qed.

(** A block of a concatenation, and a block of the merged indices. *)
Lemma merged_vertices_block (xs : list source) (k : nat) (x : source) :
  xs !! k = Some x →
  take (length (src_data x))
    (drop (total_vertices (take k xs)) (mjoin (map src_data xs)))
  = src_data x.
Proof.
  intros Hk. rewrite <-(take_drop_middle xs k x Hk) at 2.
  rewrite map_app, join_app, <-length_merged_vertices, drop_app_length.
  simpl. by rewrite take_app_length.
Qed.

Lemma merged_indices_app (n : nat) (xs ys : list source) :
  merged_indices n (xs ++ ys)
  = merged_indices n xs ++ merged_indices (n + total_vertices xs) ys.
Proof.
  revert n. induction xs as [|x xs IH]; intros n; simpl.
  - unfold total_vertices. simpl. by rewrite Nat.add_0_r.
  - rewrite IH, total_vertices_cons, <-app_assoc. by rewrite Nat.add_assoc.
Qed.

Lemma merged_indices_block (n : nat) (xs : list source) (k : nat)
    (x : source) :
  xs !! k = Some x →
  take (length (src_indices x))
    (drop (total_indices (take k xs)) (merged_indices n xs))
  = map (λ i, wrap_index (i + Z.of_nat (n + total_vertices (take k xs))))
      (src_indices x).
Proof.
  intros Hk. rewrite <-(take_drop_middle xs k x Hk) at 2.
  rewrite merged_indices_app, <-(length_merged_indices n (take k xs)).
  rewrite drop_app_length. simpl.
  rewrite <-(length_map
               (λ i, wrap_index
                       (i + Z.of_nat (n + total_vertices (take k xs))))
               (src_indices x)) at 1.
  by rewrite take_app_length.
Qed.

(** C1, as the code has it.  [self.combine_with(others)], for others
    that are not [self] and that all have an index buffer when [self] has
    one, returns [self] holding: a vertex buffer whose length is the sum
    of the vertex counts of [self] and the others, the blocks in that
    order; and, when [self] had an index buffer, an index buffer whose
    length is the sum of the index counts, the block of each source being
    its indices raised by the number of vertices before it, the sum
    taken in the integer dtype of the index arrays, where it wraps
    around.  The indices of [self] are values of that dtype, and so are
    the numbers of vertices before each source where NumPy requires it
    of a Python [int]. *)
Theorem combine_with_merges (h : heap) (self : loc) (s : ShaderWrapper)
    (b : list vertex * option (list Z)) (u : dict uniform)
    (t : dict string) (ls : list loc) (xs : list source) :
  wrappers h !! self = Some s →
  buffers_of h s = Some b →
  uniform_dicts h !! uniforms s = Some u →
  texture_dicts h !! texture_paths s = Some t →
  sources_of h self ls = Some xs →
  implb (has_indices (s, b)) (forallb has_indices xs) = true →
  Forall index_value (src_indices (s, b)) →
  (has_indices (s, b) = true → offsets_fit 0 ((s, b) :: xs)) →
  ∃ h' s' merged,
    combine_with self ls h = (Return self, h')
    ∧ wrappers h' !! self = Some s'
    ∧ vert_arrays h' !! vert_data s' = Some merged
    ∧ length merged = total_vertices ((s, b) :: xs)
    ∧ (∀ k x, ((s, b) :: xs) !! k = Some x →
         take (length (src_data x))
           (drop (total_vertices (take k ((s, b) :: xs))) merged)
         = src_data x)
    ∧ (has_indices (s, b) = true →
       ∃ ti' indices,
         vert_indices s' = Some ti'
         ∧ index_arrays h' !! ti' = Some indices
         ∧ length indices = total_indices ((s, b) :: xs)
         ∧ ∀ k x, ((s, b) :: xs) !! k = Some x →
             take (length (src_indices x))
               (drop (total_indices (take k ((s, b) :: xs))) indices)
             = map (λ i, wrap_index
                           (i + Z.of_nat
                                  (total_vertices
                                     (take k ((s, b) :: xs)))))
                 (src_indices x)).
Proof.
  intros Hself Hb Hu Ht Hsrc%sources_of_in Hidx Hvalues Hfit.
  destruct (run_combine_with self s b u t h ls xs)
    as (h' & s' & Hrun & Hs' & Hv & Hi); [done.. | | done | |].
  { unfold has_indices in Hidx at 1. simpl in Hidx.
    destruct (b.2); [right; by apply has_indices_all | by left]. }
  { intros [idx Hidx']. apply Hfit. unfold has_indices. simpl.
    by rewrite Hidx'. }
  exists h', s', (mjoin (map src_data ((s, b) :: xs))).
  split; [done |]. split; [done |]. split; [done |].
  split; [apply length_merged_vertices |].
  split; [intros k x Hk; by apply merged_vertices_block |].
  unfold has_indices at 1. simpl. intros Hsome.
  destruct (b.2) as [idx|]; [|done].
  destruct Hi as (ti' & Hti' & Hidx').
  exists ti', (merged_indices 0 ((s, b) :: xs)).
  split; [done |]. split; [done |].
  split; [apply length_merged_indices |].
  intros k x Hk. by apply merged_indices_block.
Qed.


End sources.

(** ** Closed evaluations *)

Section evaluations.
Import Examples.
#[local] Existing Instance reference_externals.

Lemma id_determined_by_configuration_two :
  ∃ h1' h2' sw1' sw2',
    refresh_id 1 store_same_uniforms = (Return (), h1')
    ∧ refresh_id 2 store_same_uniforms = (Return (), h2')
    ∧ wrappers h1' !! 1 = Some sw1'
    ∧ wrappers h2' !! 2 = Some sw2'
    ∧ program_id sw1' = program_id sw2'
    ∧ id sw1' = id sw2'.
Proof.
  apply (id_determined_by_configuration
           store_same_uniforms store_same_uniforms 1 2
           (instance 1 (Some 1) 1 1 same_uniforms)
           (instance 2 (Some 2) 2 2 same_uniforms)
           [("opacity", PyInt 1); ("gloss", PyInt 2)]
           [("opacity", PyInt 1); ("gloss", PyInt 2)]
           [("Texture", "img.png")] [("Texture", "img.png")]);
    try reflexivity; by repeat constructor.
Defined.

(** C5, as the claim has it, fails in two ways.  The uniforms of the
    two instances of [store_two_orders] are equal as maps and were
    inserted in different orders; everything else that the claim names
    is equal; the two [id]s differ.  The uniforms of the two instances
    of [store_array_uniform] have one key, under which the values, a
    number and the array of it, are equal for [==] and print
    differently; everything else that the claim names is equal; the two
    [id]s differ. *)
Lemma id_depends_on_insertion_order :
  (∃ sw1 sw2 u1 u2,
    wrappers store_two_orders !! 1 = Some sw1
    ∧ wrappers store_two_orders !! 2 = Some sw2
    ∧ uniform_dicts store_two_orders !! uniforms sw1 = Some u1
    ∧ uniform_dicts store_two_orders !! uniforms sw2 = Some u2
    ∧ dict_same_map u1 u2
    ∧ shader_folder sw1 = shader_folder sw2
    ∧ program_code sw1 = program_code sw2
    ∧ texture_dicts store_two_orders !! texture_paths sw1
      = texture_dicts store_two_orders !! texture_paths sw2
    ∧ depth_test sw1 = depth_test sw2
    ∧ render_primitive sw1 = render_primitive sw2
    ∧ fst ((refresh_id 1;; get_id 1) store_two_orders)
      = Return "28|{'gloss': 1, 'shadow': 2}|{}|False|5"
    ∧ fst ((refresh_id 2;; get_id 2) store_two_orders)
      = Return "28|{'shadow': 2, 'gloss': 1}|{}|False|5")
  ∧ (∃ sw1 sw2,
    wrappers store_array_uniform !! 1 = Some sw1
    ∧ wrappers store_array_uniform !! 2 = Some sw2
    ∧ uniform_dicts store_array_uniform !! uniforms sw1
      = Some [("opacity", PyInt 1)]
    ∧ uniform_dicts store_array_uniform !! uniforms sw2
      = Some [("opacity", NdArray0 1)]
    ∧ uniform_all_eq (PyInt 1) (NdArray0 1) = Return true
    ∧ uniform_all_eq (NdArray0 1) (PyInt 1) = Return true
    ∧ shader_folder sw1 = shader_folder sw2
    ∧ program_code sw1 = program_code sw2
    ∧ texture_dicts store_array_uniform !! texture_paths sw1
      = texture_dicts store_array_uniform !! texture_paths sw2
    ∧ depth_test sw1 = depth_test sw2
    ∧ render_primitive sw1 = render_primitive sw2
    ∧ fst ((refresh_id 1;; get_id 1) store_array_uniform)
      = Return "28|{'opacity': 1}|{'Texture': 'img.png'}|False|5"
    ∧ fst ((refresh_id 2;; get_id 2) store_array_uniform)
      = Return "28|{'opacity': array(1)}|{'Texture': 'img.png'}|False|5").
Proof.
  split.
  - eexists _, _, _, _. repeat split; try by vm_compute.
    intros key. simpl. by repeat case_bool_decide; simplify_eq.
  - eexists _, _. repeat split; by vm_compute.
Qed.

(** C8, on the code: the instance [1] of [store_two] has no uniforms and
    no texture paths; its copy has the same two dictionaries, and an
    entry set in the copy's dictionary is an entry of the original's.
    With a uniform in it before the copy ([store_extra_uniform], instance
    [2]), the original's dictionary stays as it was. *)
Theorem copy_shares_empty_dicts :
  fst ((s ← get_wrapper 1; read_uniforms (uniforms s)) store_two) = Return []
  ∧ fst ((c ← copy 1; r ← get_wrapper c;
          setitem_uniforms (uniforms r) "opacity" (PyInt 3);;
          s ← get_wrapper 1; read_uniforms (uniforms s)) store_two)
    = Return [("opacity", PyInt 3)]
  ∧ fst ((c ← copy 1; r ← get_wrapper c;
          setitem_textures (texture_paths r) "Texture" "img.png";;
          s ← get_wrapper 1; read_textures (texture_paths s)) store_two)
    = Return [("Texture", "img.png")]
  ∧ fst ((c ← copy 2; r ← get_wrapper c;
          setitem_uniforms (uniforms r) "opacity" (PyInt 3);;
          s ← get_wrapper 2; read_uniforms (uniforms s)) store_extra_uniform)
    = Return [("opacity", PyInt 1)].
Proof. repeat split; by vm_compute. Qed.

(** C9, on the code: the two instances of [store_extra_uniform] differ
    in their uniforms; [__eq__] of the one without the uniform with the
    other is [True], and the other way round it raises [KeyError]. *)
Theorem eq_ignores_keys_of_the_other :
  fst ((s ← get_wrapper 1; read_uniforms (uniforms s)) store_extra_uniform)
    = Return []
  ∧ fst ((s ← get_wrapper 2; read_uniforms (uniforms s)) store_extra_uniform)
    = Return [("opacity", PyInt 1)]
  ∧ fst (__eq__ 1 2 store_extra_uniform) = Return true
  ∧ fst (__eq__ 2 1 store_extra_uniform) = Raise KeyError.
Proof. repeat split; by vm_compute. Qed.

Lemma combine_with_merges_two :
  ∃ h' s' merged,
    combine_with 1 [2] store_two = (Return 1, h')
    ∧ wrappers h' !! 1 = Some s'
    ∧ vert_arrays h' !! vert_data s' = Some merged
    ∧ length merged = 5
    ∧ (∀ k x, sources_two !! k = Some x →
         take (length (src_data x))
           (drop (total_vertices (take k sources_two)) merged)
         = src_data x)
    ∧ (true = true →
       ∃ ti' indices,
         vert_indices s' = Some ti'
         ∧ index_arrays h' !! ti' = Some indices
         ∧ length indices = 5
         ∧ ∀ k x, sources_two !! k = Some x →
             take (length (src_indices x))
               (drop (total_indices (take k sources_two)) indices)
             = map (λ i, wrap_index
                           (i + Z.of_nat
                                  (total_vertices (take k sources_two))))
                 (src_indices x)).
Proof.
  apply (combine_with_merges store_two 1 (instance 1 (Some 1) 1 1 no_uniforms)
           ([10; 11; 12]%Z, Some [0; 1; 2]%Z) [] [] [2]
           [(instance 2 (Some 2) 2 2 no_uniforms, ([20; 21]%Z, Some [1; 0]%Z))]
           eq_refl eq_refl eq_refl eq_refl eq_refl eq_refl).
  - repeat constructor; by vm_compute.
  - intros _ [|[|k]] Hk _; [by vm_compute.. | simpl in Hk; lia].
Defined.

(** C1, as the claim has it, fails in three ways.  When an instance is
    merged with itself: the vertex counts are 3 and 3; [combine_with]
    raises [ValueError] and leaves an index buffer whose second block is
    not the indices raised by 3.  When an index and the number of
    vertices before its source add up to more than the dtype of the
    index arrays holds: the largest index of [int64], raised by the 3
    vertices before it, arrives as a negative number.  When the number
    of vertices before a source is more than that dtype holds: with
    index arrays of the dtype [uint8] and 256 vertices before the second
    source, [combine_with] raises the [OverflowError] of NumPy 2. *)
Lemma combine_with_itself_counterexample :
  ((combine_with 1 [1] store_two).1 = Raise ValueError
   ∧ (s ← get_wrapper 1; read_opt_index (vert_indices s))
       (combine_with 1 [1] store_two).2
     = (Return (Some [0; 1; 2; 0; 1; 2]%Z), (combine_with 1 [1] store_two).2)
   ∧ [0; 1; 2; 0; 1; 2]%Z
     ≠ [0; 1; 2]%Z ++ map (λ i, (i + 3)%Z) [0; 1; 2]%Z)
  ∧ ((combine_with 1 [2] store_wide_index).1 = Return 1
     ∧ ((s ← get_wrapper 1; read_opt_index (vert_indices s))
          (combine_with 1 [2] store_wide_index).2).1
       = Return (Some [0; 1; 2; -9223372036854775806; 3]%Z)
     ∧ [0; 1; 2; -9223372036854775806; 3]%Z
       ≠ [0; 1; 2]%Z ++ map (λ i, (i + 3)%Z) [9223372036854775807; 0]%Z)
  ∧ (@combine_with narrow_externals 1 [2] store_narrow_index).1
    = Raise OverflowError.
Proof.
  split; [|split].
  - split; [by vm_compute |]. split; [by vm_compute | done].
  - split; [by vm_compute |]. split; [by vm_compute | done].
  - by vm_compute.
Qed.



Lemma identity_unchanged_by_payload_two :
  (∀ (a : loc) (xs : list vertex),
     (get_id 1 (write_vert a xs store_two).2).1 = Return "28|{}|{}|False|5"
     ∧ (get_program_id 1 (write_vert a xs store_two).2).1 = Return 28%Z)
  ∧ (∀ (a : loc) (xs : list Z),
     (get_id 1 (write_index a xs store_two).2).1 = Return "28|{}|{}|False|5"
     ∧ (get_program_id 1 (write_index a xs store_two).2).1 = Return 28%Z)
  ∧ (∀ others : list loc,
     (get_id 1 (combine_with 1 others store_two).2).1
       = Return "28|{}|{}|False|5"
     ∧ (get_program_id 1 (combine_with 1 others store_two).2).1
       = Return 28%Z).
Proof.
  exact (identity_unchanged_by_payload store_two 1
           (instance 1 (Some 1) 1 1 no_uniforms) eq_refl).
Defined.

End evaluations.

End WrapperFacts.

(* ===================================================================== *)
(** * Further properties of [get_colormap_code]                           *)
(* ===================================================================== *)

Module ColormapCases.
Import Colormap Statements.

Lemma format_vec3_first_three (rgb : list Z) :
  format_vec3 rgb
  = if bool_decide (3 ≤ length rgb)
    then Return (vec3_entry (first_three rgb)) else Raise IndexError.
Proof. by destruct rgb as [|r [|g [|b rest]]]. Qed.

Lemma format_all_first_three (l : list (list Z)) :
  format_all l
  = if forallb (λ rgb, bool_decide (3 ≤ length rgb)) l
    then Return (map (λ rgb, vec3_entry (first_three rgb)) l)
    else Raise IndexError.
Proof.
  induction l as [|rgb l IH]; [done |]. simpl.
  rewrite format_vec3_first_three, IH.
  case_bool_decide; [|done]. simpl.
  by destruct (forallb _ l).
Qed.

(** X1. [get_colormap_code] uses the first three components of every
    colour and ignores the others; when some colour has fewer than three
    components it raises [IndexError], whatever the other colours are.
    The count in [vec3[N]] is the number of colours. *)
Theorem get_colormap_code_components (l : list (list Z)) :
  get_colormap_code l
  = if forallb (λ rgb, bool_decide (3 ≤ length rgb)) l
    then Return ("vec3[" +:+ pretty (length l) +:+ "]("
                   +:+ comma_separated
                         (map (λ rgb, vec3_entry (first_three rgb)) l)
                   +:+ ")")
    else Raise IndexError.
Proof.
  unfold get_colormap_code. rewrite format_all_first_three.
  destruct (forallb _ l); [|done]. simpl.
  by rewrite ColormapFacts.str_join_comma, ColormapFacts.str_of_int_nat.
Qed.

End ColormapCases.

(* ===================================================================== *)
(** * Further properties of [get_shader_code_from_file]                   *)
(* ===================================================================== *)

Module SourceCases.
Import Source Statements.

Lemma filter_nil_forallb {A} (f : A → bool) (l : list A) :
  forallb (λ x, negb (f x)) l = true → List.filter f l = [].
Proof.
  induction l as [|x l IH]; [done |]. simpl.
  destruct (f x); [done |]. simpl. apply IH.
Qed.

(** X2. A file none of whose lines starts with [#INSERT ] and ends with
    [.glsl] is returned as it was read, by a single call. *)
Theorem file_without_directives (fs : file_system) (d : nat)
    (filename filepath text : string) :
  filename ≠ EmptyString →
  find_file fs filename = Some filepath →
  read_text fs filepath = Return text →
  forallb (λ line, negb (is_insert_line line)) (str_split newline text)
    = true →
  get_shader_code_from_file fs (S d) filename = Return (Some text).
Proof.
  intros Hname Hfind Hread Hlines. simpl.
  rewrite bool_decide_eq_false_2 by done. rewrite Hfind, Hread.
  unfold re_findall_insert. by rewrite filter_nil_forallb.
Qed.

Lemma file_without_directives_plain :
  get_shader_code_from_file fs_plain 1 "plain.glsl"
  = Return (Some ("#insert a.glsl" +:+ nl +:+ " #INSERT a.glsl"
      +:+ nl +:+ "#INSERT a.vert" +:+ nl
      +:+ "#INSERT a.glsl " +:+ nl +:+ "#INSERTa.glsl")).
Proof.
  apply (file_without_directives fs_plain 0 "plain.glsl" "plain.glsl");
    [done | reflexivity..].
Defined.

Lemma str_split_one (c : ascii) (s : string) :
  str_mem c s = false → str_split c s = [s].
Proof.
  induction s as [|a s IH]; [done |]. simpl.
  destruct (Ascii.eqb a c); [done |]. intros Hs. by rewrite IH.
Qed.

Lemma str_mem_app (c : ascii) (s t : string) :
  str_mem c (s +:+ t) = str_mem c s || str_mem c t.
Proof.
  induction s as [|a s IH]; [done |]. rewrite str_app_cons. simpl.
  rewrite IH. by destruct (Ascii.eqb a c).
Qed.

(** X3. A file that consists of the one line [#INSERT <path>], with a
    path that ends with [.glsl] and holds no newline and no further
    [#INSERT ], ends as the file named by the directive ends: it resolves
    to the text that file resolves to, raises what that file raises, and
    raises [TypeError] when that file is not found.  The file named is
    [inserts/<path>] for a relative path and [<path>] itself for an
    absolute one. *)
Theorem single_directive_target (fs : file_system) (d : nat)
    (filename filepath path : string) :
  filename ≠ EmptyString →
  find_file fs filename = Some filepath →
  read_text fs filepath = Return ("#INSERT " +:+ path) →
  str_endswith path ".glsl" = true →
  str_mem newline path = false →
  str_contains "#INSERT " path = false →
  get_shader_code_from_file fs (S d) filename
  = match get_shader_code_from_file fs d
            (if String.prefix "/" path then path
             else "inserts/" +:+ path) with
    | Raise e => Raise e
    | Return None => Raise TypeError
    | Return (Some code) => Return (Some code)
    end.
Proof.
  intros Hname Hfind Hread Hext Hnl Hnone. simpl.
  rewrite bool_decide_eq_false_2 by done. rewrite Hfind, Hread.
  unfold re_findall_insert. rewrite str_split_one.
  2: { rewrite str_mem_app, Hnl. reflexivity. }
  cbn [List.filter].
  assert (is_insert_line ("#INSERT " +:+ path) = true) as ->
    by (unfold is_insert_line; exact Hext).
  cbn [insert_loop].
  assert (insert_target ("#INSERT " +:+ path)
          = if String.prefix "/" path then path else "inserts/" +:+ path)
    as ->.
  { unfold insert_target.
    rewrite str_replace_prefix, str_replace_absent by done.
    unfold os_path_join. rewrite str_app_nil_l.
    by destruct (String.prefix "/" path). }
  destruct (get_shader_code_from_file fs d _) as [[code|]|e]; [|done..].
  cbn [insert_loop]. by rewrite str_replace_whole.
Qed.

Lemma single_directive_target_absolute :
  get_shader_code_from_file fs_absolute 2 "main.glsl"
    = Return (Some "float shared_noise();")
  ∧ get_shader_code_from_file fs_absolute 2 "other.glsl"
    = Return (Some "float noise();")
  ∧ get_shader_code_from_file fs_absolute 2 "lost.glsl" = Raise TypeError.
Proof.
  split; [|split].
  - apply (single_directive_target fs_absolute 1 "main.glsl" "main.glsl"
             "/shared/noise.glsl"); [done | reflexivity..].
  - apply (single_directive_target fs_absolute 1 "other.glsl" "other.glsl"
             "noise.glsl"); [done | reflexivity..].
  - apply (single_directive_target fs_absolute 1 "lost.glsl" "lost.glsl"
             "gone.glsl"); [done | reflexivity..].
Defined.

(** X20. A file resolves only if every file that its directives name
    resolves to text: when a directive names a file that is not found,
    cannot be read or does not resolve, the call raises; when that
    directive is the first of the file, the call raises the exception of
    the named file, and [TypeError] when the named file is not found. *)
Theorem failed_include_fails (fs : file_system) (d : nat)
    (filename target : string) :
  target ∈ include_targets fs filename →
  (∀ code, get_shader_code_from_file fs d target ≠ Return (Some code)) →
  returns (get_shader_code_from_file fs (S d) filename) = false
  ∧ ∀ targets, include_targets fs filename = target :: targets →
      get_shader_code_from_file fs (S d) filename
      = match get_shader_code_from_file fs d target with
        | Raise e => Raise e
        | Return _ => Raise TypeError
        end.
Proof.
  intros Hin Hfail. split.
  - destruct (get_shader_code_from_file fs (S d) filename) as [r|e] eqn:Hr;
      [|done].
    destruct (SourceFacts.returns_include_targets fs d filename r target
                Hr Hin) as [code Hcode].
    by destruct (Hfail code).
  - intros targets Htargets.
    rewrite (SourceFacts.include_targets_cons fs filename target targets d)
      by done.
    destruct (get_shader_code_from_file fs d target) as [[code|]|e];
      [|done..].
    by destruct (Hfail code).
Qed.

Lemma failed_include_fails_missing :
  returns (get_shader_code_from_file fs_missing 2 "main.glsl") = false
  ∧ ∀ targets,
      include_targets fs_missing "main.glsl"
        = "inserts/missing.glsl" :: targets →
      get_shader_code_from_file fs_missing 2 "main.glsl"
      = match get_shader_code_from_file fs_missing 1
                "inserts/missing.glsl" with
        | Raise e => Raise e
        | Return _ => Raise TypeError
        end.
Proof.
  apply (failed_include_fails fs_missing 1 "main.glsl"
           "inserts/missing.glsl"); [by left | done].
Defined.

End SourceCases.

(* ===================================================================== *)
(** * Further properties of [ShaderWrapper]                               *)
(* ===================================================================== *)

Module WrapperLaws.
Import Wrapper Construction Statements WrapperFacts.

(** ** What a computation leaves unchanged *)

Section hoare.
Context `{Externals}.
Context (I : heap → Prop).

Lemma triple_bind {A B} (m : M A) (f : A → M B) (Q : A → Prop)
    (R : B → Prop) :
  triple I m Q → (∀ a, Q a → triple I (f a) R) → triple I (m ≫= f) R.
Proof.
  intros Hm Hf h HI. rewrite run_bind. destruct (Hm h HI) as [HI1 HQ].
  destruct (m h) as [[a|e] h1]; simpl in *.
  - apply Hf; [by apply HQ | done].
  - by split.
Qed.

Lemma triple_weaken {A} (m : M A) (Q R : A → Prop) :
  triple I m Q → (∀ a, Q a → R a) → triple I m R.
Proof.
  intros Hm HQR h HI. destruct (Hm h HI) as [HI1 HQ]. split; [done |].
  intros a Ha. by apply HQR, HQ.
Qed.

Lemma triple_ret {A} (a : A) (Q : A → Prop) : Q a → triple I (ret a) Q.
Proof. intros HQ h HI. split; [done |]. by intros a' [= <-]. Qed.

Lemma triple_mret {A} (a : A) (Q : A → Prop) :
  Q a → triple I (mret (M := M) a) Q.
Proof. apply triple_ret. Qed.

Lemma triple_raise {A} (e : exn) (Q : A → Prop) :
  triple I (raise (A := A) e) Q.
Proof. intros h HI. by split. Qed.

Lemma triple_lift {A} (x : outcome A) :
  triple I (lift x) (λ _, True).
Proof. intros h HI. by split. Qed.

Lemma triple_from_option {A} (x : option A) (h : heap) :
  I h → I (from_option x h).2.
Proof. by destruct x. Qed.

Lemma triple_get_wrapper (l : loc) (Q : ShaderWrapper → Prop) :
  (∀ h s, I h → wrappers h !! l = Some s → Q s) →
  triple I (get_wrapper l) Q.
Proof.
  intros HQ h HI. unfold get_wrapper.
  destruct (wrappers h !! l) as [s|] eqn:Hs; simpl; [|by split].
  split; [done |]. intros a [= <-]. by eapply HQ.
Qed.

Lemma triple_get_wrapper_any (l : loc) :
  triple I (get_wrapper l) (λ _, True).
Proof. by apply triple_get_wrapper. Qed.

Lemma triple_read_vert (a : loc) : triple I (read_vert a) (λ _, True).
Proof. intros h HI. split; [by apply triple_from_option | done]. Qed.
Lemma triple_read_index (a : loc) : triple I (read_index a) (λ _, True).
Proof. intros h HI. split; [by apply triple_from_option | done]. Qed.
Lemma triple_read_uniforms (a : loc) :
  triple I (read_uniforms a) (λ _, True).
Proof. intros h HI. split; [by apply triple_from_option | done]. Qed.
Lemma triple_read_textures (a : loc) :
  triple I (read_textures a) (λ _, True).
Proof. intros h HI. split; [by apply triple_from_option | done]. Qed.

(** A change of the store that keeps [I]. *)
Lemma triple_modify (f : heap → heap) :
  (∀ h, I h → I (f h)) → triple I (modify f) (λ _, True).
Proof. intros Hf h HI. split; [by apply Hf | done]. Qed.

End hoare.

Create HintDb triples.
#[export] Hint Resolve triple_read_vert triple_read_index
  triple_read_uniforms triple_read_textures triple_lift triple_raise
  : triples.
#[export] Hint Resolve triple_get_wrapper_any | 5 : triples.

(** A computation put together from parts with known triples. *)
Ltac hoare :=
  repeat first
    [ apply triple_mret; done
    | apply triple_ret; done
    | solve [eauto with triples]
    | eapply triple_bind;
        [solve [eauto with triples] | intros ? ?; cbv beta in *]
    | match goal with
      | |- triple _ (match ?x with _ => _ end) _ => destruct x eqn:?
      | |- triple _ (match ?x with _ => _ end ≫= _) _ =>
          eapply triple_bind with (Q := λ _, True);
            [|intros ? ?; cbv beta in *]
      end ].

(** ** [copy] writes to new objects only *)

Section copy_frame.
Context `{Externals}.
Context (h0 : heap).

Lemma extends_refl : extends h0 h0.
Proof. by repeat split. Qed.

Lemma fresh_not_in {V} (m0 m : gmap loc V) :
  m0 ⊆ m → m0 !! fresh (dom m) = None.
Proof.
  intros Hsub. apply eq_None_not_Some. intros [v Hv].
  eapply lookup_weaken in Hv; [|done].
  apply (is_fresh (dom m)), elem_of_dom. eauto.
Qed.

Lemma subseteq_insert_new {V} (m0 m : gmap loc V) (a : loc) (v : V) :
  m0 ⊆ m → m0 !! a = None → m0 ⊆ <[a := v]> m.
Proof.
  intros Hsub Ha. apply map_subseteq_spec. intros i x Hi.
  rewrite lookup_insert_ne by congruence.
  by eapply lookup_weaken.
Qed.

Lemma extends_new_vert (xs : list vertex) :
  triple (extends h0) (new_vert xs) (λ _, True).
Proof.
  intros h (Hv & Hi & Hu & Ht & Hw). split; [|done].
  unfold new_vert. repeat split; heap_simpl; try done.
  apply subseteq_insert_new; [done | by apply fresh_not_in].
Qed.

Lemma extends_new_index (xs : list Z) :
  triple (extends h0) (new_index xs) (λ _, True).
Proof.
  intros h (Hv & Hi & Hu & Ht & Hw). split; [|done].
  unfold new_index. repeat split; heap_simpl; try done.
  apply subseteq_insert_new; [done | by apply fresh_not_in].
Qed.

Lemma extends_new_uniforms (d : dict uniform) :
  triple (extends h0) (new_uniforms d) (λ _, True).
Proof.
  intros h (Hv & Hi & Hu & Ht & Hw). split; [|done].
  unfold new_uniforms. repeat split; heap_simpl; try done.
  apply subseteq_insert_new; [done | by apply fresh_not_in].
Qed.

Lemma extends_new_textures (d : dict string) :
  triple (extends h0) (new_textures d) (λ _, True).
Proof.
  intros h (Hv & Hi & Hu & Ht & Hw). split; [|done].
  unfold new_textures. repeat split; heap_simpl; try done.
  apply subseteq_insert_new; [done | by apply fresh_not_in].
Qed.

Lemma extends_new_wrapper (sw : ShaderWrapper) :
  triple (extends h0) (new_wrapper sw) (λ c, wrappers h0 !! c = None).
Proof.
  intros h (Hv & Hi & Hu & Ht & Hw). unfold new_wrapper. simpl.
  split; [|intros c [= <-]; by apply fresh_not_in].
  repeat split; heap_simpl; try done.
  apply subseteq_insert_new; [done | by apply fresh_not_in].
Qed.

Lemma extends_store_wrapper (c : loc) (sw : ShaderWrapper) (h : heap) :
  wrappers h0 !! c = None → extends h0 h →
  extends h0 (store_wrapper c sw h).
Proof.
  intros Hc (Hv & Hi & Hu & Ht & Hw). repeat split; heap_simpl; try done.
  by apply subseteq_insert_new.
Qed.

Lemma extends_set_vert_data (c a : loc) :
  wrappers h0 !! c = None →
  triple (extends h0) (set_vert_data c a) (λ _, True).
Proof.
  intros Hc. unfold set_vert_data.
  eapply triple_bind; [apply triple_get_wrapper_any | intros sw _].
  apply triple_modify. intros h. by apply extends_store_wrapper.
Qed.

Lemma extends_set_vert_indices (c : loc) (i : option loc) :
  wrappers h0 !! c = None →
  triple (extends h0) (set_vert_indices c i) (λ _, True).
Proof.
  intros Hc. unfold set_vert_indices.
  eapply triple_bind; [apply triple_get_wrapper_any | intros sw _].
  apply triple_modify. intros h. by apply extends_store_wrapper.
Qed.

Lemma extends_set_uniforms (c a : loc) :
  wrappers h0 !! c = None →
  triple (extends h0) (set_uniforms c a) (λ _, True).
Proof.
  intros Hc. unfold set_uniforms.
  eapply triple_bind; [apply triple_get_wrapper_any | intros sw _].
  apply triple_modify. intros h. by apply extends_store_wrapper.
Qed.

Lemma extends_set_texture_paths (c a : loc) :
  wrappers h0 !! c = None →
  triple (extends h0) (set_texture_paths c a) (λ _, True).
Proof.
  intros Hc. unfold set_texture_paths.
  eapply triple_bind; [apply triple_get_wrapper_any | intros sw _].
  apply triple_modify. intros h. by apply extends_store_wrapper.
Qed.

#[local] Hint Resolve extends_new_vert
  extends_new_index extends_new_uniforms extends_new_textures
  extends_new_wrapper extends_set_vert_data extends_set_vert_indices
  extends_set_uniforms extends_set_texture_paths : triples.

Lemma extends_copy (self : loc) :
  triple (extends h0) (copy self) (λ c, wrappers h0 !! c = None).
Proof. unfold copy. hoare. Qed.

End copy_frame.

(** ** What a merge into [self] writes to *)

Section merge_frame.
Context `{Externals}.
Context (h0 : heap) (self : loc) (s0 : ShaderWrapper).
Context (Hself0 : wrappers h0 !! self = Some s0).

Local Abbreviation I := (merged_into h0 self s0).
Local Abbreviation own s := (but_for_buffers s s0 ∧ own_buffers h0 s0 s).

Lemma but_for_buffers_refl (s : ShaderWrapper) : but_for_buffers s s.
Proof. by destruct s. Qed.

Lemma merged_into_refl : I h0.
Proof using Hself0.
  repeat split; try done. exists s0. split; [done |].
  split; [apply but_for_buffers_refl |]. split; by left.
Qed.

Lemma merged_into_wrappers (h : heap) (l : loc) :
  I h → is_Some (wrappers h0 !! l) → is_Some (wrappers h !! l).
Proof.
  intros (Hw & _ & _ & _ & _ & _ & _ & s & Hs & _) [o Ho].
  destruct (decide (l = self)) as [->|Hne]; [by eexists |].
  exists o. by apply Hw.
Qed.

Lemma mi_get_self : triple I (get_wrapper self) (λ s, own s).
Proof.
  apply triple_get_wrapper.
  intros h s (_ & _ & _ & _ & _ & _ & _ & s' & Hs' & Hown) Hs.
  by simplify_eq.
Qed.

Lemma mi_new_vert (xs : list vertex) :
  triple I (new_vert xs)
    (λ a, a = vert_data s0 ∨ vert_arrays h0 !! a = None).
Proof.
  intros h HI. pose proof HI as (Hw & Hv & Hvd & Hi & Hid & Hu & Ht & Hs).
  assert (vert_arrays h0 !! fresh (dom (vert_arrays h)) = None) as Hnew.
  { apply eq_None_not_Some. intros Hsome%Hvd.
    by apply (is_fresh (dom (vert_arrays h))), elem_of_dom. }
  unfold new_vert. simpl. split; [|intros a [= <-]; by right].
  repeat split; heap_simpl; try done.
  - intros a xs' Ha Hne. rewrite lookup_insert_ne by congruence. eauto.
  - intros a Ha. rewrite lookup_insert_ne by (destruct Ha; congruence).
    eauto.
Qed.

Lemma mi_new_index (xs : list Z) :
  triple I (new_index xs)
    (λ i, vert_indices s0 = Some i ∨ index_arrays h0 !! i = None).
Proof.
  intros h HI. pose proof HI as (Hw & Hv & Hvd & Hi & Hid & Hu & Ht & Hs).
  assert (index_arrays h0 !! fresh (dom (index_arrays h)) = None) as Hnew.
  { apply eq_None_not_Some. intros Hsome%Hid.
    by apply (is_fresh (dom (index_arrays h))), elem_of_dom. }
  unfold new_index. simpl. split; [|intros a [= <-]; by right].
  repeat split; heap_simpl; try done.
  - intros a xs' Ha Hne. rewrite lookup_insert_ne by congruence. eauto.
  - intros a Ha. rewrite lookup_insert_ne by (destruct Ha; congruence).
    eauto.
Qed.

Lemma mi_new_uniforms (d : dict uniform) :
  triple I (new_uniforms d) (λ _, True).
Proof.
  intros h (Hw & Hv & Hvd & Hi & Hid & Hu & Ht & Hs). split; [|done].
  unfold new_uniforms. repeat split; heap_simpl; try done.
  apply subseteq_insert_new; [done | by apply fresh_not_in].
Qed.

Lemma mi_new_textures (d : dict string) :
  triple I (new_textures d) (λ _, True).
Proof.
  intros h (Hw & Hv & Hvd & Hi & Hid & Hu & Ht & Hs). split; [|done].
  unfold new_textures. repeat split; heap_simpl; try done.
  apply subseteq_insert_new; [done | by apply fresh_not_in].
Qed.

Lemma mi_store_other (c : loc) (sw : ShaderWrapper) (h : heap) :
  wrappers h0 !! c = None → I h → I (store_wrapper c sw h).
Proof using Hself0.
  intros Hc (Hw & Hv & Hvd & Hi & Hid & Hu & Ht & s & Hs & Hown).
  repeat split; heap_simpl; try done.
  - intros l o Hl Hne. rewrite lookup_insert_ne by congruence. eauto.
  - exists s. rewrite lookup_insert_ne by congruence. done.
Qed.

Lemma mi_new_wrapper (sw : ShaderWrapper) :
  triple I (new_wrapper sw) (λ c, wrappers h0 !! c = None).
Proof using Hself0.
  intros h HI.
  assert (wrappers h0 !! fresh (dom (wrappers h)) = None) as Hnew.
  { apply eq_None_not_Some. intros Hsome.
    eapply merged_into_wrappers in Hsome; [|done].
    by apply (is_fresh (dom (wrappers h))), elem_of_dom. }
  unfold new_wrapper. simpl. split; [|by intros a [= <-]].
  by apply mi_store_other.
Qed.

Lemma mi_set_vert_data (c a : loc) :
  wrappers h0 !! c = None → triple I (set_vert_data c a) (λ _, True).
Proof using Hself0.
  intros Hc. unfold set_vert_data.
  eapply triple_bind; [apply triple_get_wrapper_any | intros sw _].
  apply triple_modify. intros h. by apply mi_store_other.
Qed.

Lemma mi_set_vert_indices (c : loc) (i : option loc) :
  wrappers h0 !! c = None → triple I (set_vert_indices c i) (λ _, True).
Proof using Hself0.
  intros Hc. unfold set_vert_indices.
  eapply triple_bind; [apply triple_get_wrapper_any | intros sw _].
  apply triple_modify. intros h. by apply mi_store_other.
Qed.

Lemma mi_set_uniforms (c a : loc) :
  wrappers h0 !! c = None → triple I (set_uniforms c a) (λ _, True).
Proof using Hself0.
  intros Hc. unfold set_uniforms.
  eapply triple_bind; [apply triple_get_wrapper_any | intros sw _].
  apply triple_modify. intros h. by apply mi_store_other.
Qed.

Lemma mi_set_texture_paths (c a : loc) :
  wrappers h0 !! c = None → triple I (set_texture_paths c a) (λ _, True).
Proof using Hself0.
  intros Hc. unfold set_texture_paths.
  eapply triple_bind; [apply triple_get_wrapper_any | intros sw _].
  apply triple_modify. intros h. by apply mi_store_other.
Qed.

Lemma mi_store_vert (a : loc) (xs : list vertex) (h : heap) :
  a = vert_data s0 ∨ vert_arrays h0 !! a = None →
  I h → I (store_vert a xs h).
Proof.
  intros Ha (Hw & Hv & Hvd & Hi & Hid & Hu & Ht & Hs).
  repeat split; heap_simpl; try done.
  - intros a' xs' Ha' Hne.
    rewrite lookup_insert_ne by (destruct Ha; congruence). eauto.
  - intros a' Ha'. destruct (decide (a = a')) as [->|Hne].
    + rewrite lookup_insert_eq. by eexists.
    + rewrite lookup_insert_ne by done. eauto.
Qed.

Lemma mi_store_index (i : loc) (xs : list Z) (h : heap) :
  vert_indices s0 = Some i ∨ index_arrays h0 !! i = None →
  I h → I (store_index i xs h).
Proof.
  intros Ha (Hw & Hv & Hvd & Hi & Hid & Hu & Ht & Hs).
  repeat split; heap_simpl; try done.
  - intros a' xs' Ha' Hne.
    rewrite lookup_insert_ne by (destruct Ha; congruence). eauto.
  - intros a' Ha'. destruct (decide (i = a')) as [->|Hne].
    + rewrite lookup_insert_eq. by eexists.
    + rewrite lookup_insert_ne by done. eauto.
Qed.

Lemma own_vert_data (s : ShaderWrapper) :
  own s → vert_data s = vert_data s0 ∨ vert_arrays h0 !! vert_data s = None.
Proof. by intros (_ & ? & _). Qed.

Lemma own_vert_indices (s : ShaderWrapper) (i : loc) :
  own s → vert_indices s = Some i →
  is_Some (vert_indices s0)
  ∧ (vert_indices s0 = Some i ∨ index_arrays h0 !! i = None).
Proof.
  intros (_ & _ & [Heq|(i' & Hi' & Hsome & Hnone)]) Hi.
  - rewrite <-Heq, Hi. split; [by eexists | by left].
  - simplify_eq. split; [done | by right].
Qed.

Lemma mi_write_vert (s : ShaderWrapper) (xs : list vertex) :
  own s → triple I (write_vert (vert_data s) xs) (λ _, True).
Proof.
  intros Hs%own_vert_data. unfold write_vert.
  eapply triple_bind; [apply triple_read_vert | intros _ _].
  apply triple_modify. intros h. by apply mi_store_vert.
Qed.

Lemma mi_write_index (s : ShaderWrapper) (i : loc) (xs : list Z) :
  own s → vert_indices s = Some i →
  triple I (write_index i xs) (λ _, True).
Proof.
  intros Hs Hi. destruct (own_vert_indices s i Hs Hi) as [_ Hown].
  unfold write_index.
  eapply triple_bind; [apply triple_read_index | intros _ _].
  apply triple_modify. intros h. by apply mi_store_index.
Qed.

Lemma mi_resize_vert (s : ShaderWrapper) (n : nat) :
  own s →
  triple I (resize_vert (vert_data s) n)
    (λ a, a = vert_data s0 ∨ vert_arrays h0 !! a = None).
Proof.
  intros Hs%own_vert_data. unfold resize_vert.
  eapply triple_bind; [apply triple_read_vert | intros xs _].
  destruct (resize_array_same xs n); [by apply triple_ret |].
  apply mi_new_vert.
Qed.

Lemma mi_resize_index (s : ShaderWrapper) (i : loc) (n : nat) :
  own s → vert_indices s = Some i →
  triple I (resize_index i n)
    (λ i', is_Some (vert_indices s0)
           ∧ (vert_indices s0 = Some i' ∨ index_arrays h0 !! i' = None)).
Proof.
  intros Hs Hi. destruct (own_vert_indices s i Hs Hi) as [Hsome Hown].
  unfold resize_index.
  eapply triple_bind; [apply triple_read_index | intros xs _].
  destruct (resize_array_same xs n); [by apply triple_ret |].
  eapply triple_weaken; [apply mi_new_index | by intros i' Hi'].
Qed.

Lemma mi_set_vert_data_self (a : loc) :
  a = vert_data s0 ∨ vert_arrays h0 !! a = None →
  triple I (set_vert_data self a) (λ _, True).
Proof.
  intros Ha. unfold set_vert_data.
  eapply triple_bind; [apply mi_get_self | intros s (Hbut & Hv & Hi)].
  apply triple_modify.
  intros h (Hw & Hvs & Hvd & His & Hid & Hu & Ht & _).
  repeat split; heap_simpl; try done.
  - intros l o Hl Hne. rewrite lookup_insert_ne by done. eauto.
  - exists (with_vert_data s a). rewrite lookup_insert_eq.
    split; [done |]. split; [by destruct s | by split].
Qed.

Lemma mi_set_vert_indices_self (i : loc) :
  is_Some (vert_indices s0)
  ∧ (vert_indices s0 = Some i ∨ index_arrays h0 !! i = None) →
  triple I (set_vert_indices self (Some i)) (λ _, True).
Proof.
  intros [Hsome Hi]. unfold set_vert_indices.
  eapply triple_bind; [apply mi_get_self | intros s (Hbut & Hv & _)].
  apply triple_modify.
  intros h (Hw & Hvs & Hvd & His & Hid & Hu & Ht & _).
  repeat split; heap_simpl; try done.
  - intros l o Hl Hne. rewrite lookup_insert_ne by done. eauto.
  - exists (with_vert_indices s (Some i)). rewrite lookup_insert_eq.
    split; [done |]. split; [by destruct s |]. split; [done |].
    destruct Hi as [Hi|Hi]; [by left | right; eauto].
Qed.

End merge_frame.

Section merge_frame_methods.
Context `{Externals}.
Context (h0 : heap) (self : loc) (s0 : ShaderWrapper).
Context (Hself0 : wrappers h0 !! self = Some s0).

Local Abbreviation I := (merged_into h0 self s0).

#[local] Hint Resolve mi_get_self | 0 : triples.
#[local] Hint Resolve mi_new_vert mi_new_index mi_new_uniforms
  mi_new_textures mi_new_wrapper mi_set_vert_data mi_set_vert_indices
  mi_set_uniforms mi_set_texture_paths mi_write_vert mi_write_index
  mi_resize_vert mi_resize_index mi_set_vert_data_self
  mi_set_vert_indices_self : triples.

Lemma mi_copy (l : loc) : triple I (copy l) (λ _, True).
Proof using Hself0. unfold copy. hoare. Qed.

Lemma mi_sum_len_vert_data (acc : nat) (ls : list loc) :
  triple I (sum_len_vert_data acc ls) (λ _, True).
Proof.
  revert acc. induction ls as [|l ls IH]; intros acc; simpl; hoare.
Qed.

Lemma mi_sum_len_vert_indices (acc : nat) (ls : list loc) :
  triple I (sum_len_vert_indices acc ls) (λ _, True).
Proof.
  revert acc. induction ls as [|l ls IH]; intros acc; simpl; hoare.
Qed.

#[local] Hint Resolve mi_copy mi_sum_len_vert_data mi_sum_len_vert_indices
  : triples.

Lemma mi_read_in_loop (ls : list loc) (n m : nat) :
  triple I (read_in_loop self ls n m) (λ _, True).
Proof.
  revert n m. induction ls as [|l ls IH]; intros n m; simpl; hoare.
Qed.

#[local] Hint Resolve mi_read_in_loop : triples.

Lemma mi_read_in (ls : list loc) :
  triple I (read_in self ls) (λ _, True).
Proof. unfold read_in. hoare. Qed.

#[local] Hint Resolve mi_read_in : triples.

Lemma mi_combine_with (ls : list loc) :
  triple I (combine_with self ls) (λ _, True).
Proof using Hself0. unfold combine_with. hoare. Qed.

End merge_frame_methods.

Section frames.
Context `{Externals}.

(** X4. [copy] changes no object that exists: every array, dictionary
    and instance of the store is in the store after the call as it was,
    whether the call returns or raises, and the instance returned is one
    that did not exist. *)
Theorem copy_leaves_the_store (self : loc) (h : heap) :
  extends h (copy self h).2
  ∧ ∀ c, (copy self h).1 = Return c → wrappers h !! c = None.
Proof. apply extends_copy, extends_refl. Qed.

(** X5. [combine_with] and [read_in] on [self], whether they return or
    raise, leave every other instance, every array other than the two
    buffers of [self] and every dictionary as they were; of [self] they
    change only [vert_data] and [vert_indices], each of which stays the
    array it was or becomes a new one, an absent index buffer staying
    absent. *)
Theorem merge_leaves_the_rest (h : heap) (self : loc) (s : ShaderWrapper)
    (ls : list loc) :
  wrappers h !! self = Some s →
  merged_into h self s (combine_with self ls h).2
  ∧ merged_into h self s (read_in self ls h).2.
Proof.
  intros Hself. split.
  - by apply mi_combine_with, merged_into_refl.
  - by apply mi_read_in, merged_into_refl.
Qed.

End frames.

(** ** [__eq__] *)

Section equality.
Context `{Externals}.

Lemma run_read_opt_index (h : heap) (sw : ShaderWrapper)
    (b : list vertex * option (list Z)) :
  buffers_of h sw = Some b →
  read_opt_index (vert_indices sw) h = (Return b.2, h).
Proof.
  intros Hb. unfold read_opt_index.
  destruct (vert_indices sw) as [i|] eqn:Hi.
  - destruct (buffers_of_indices _ _ _ _ Hb Hi) as (idx & Hidx & ->).
    by mrun run_read_index.
  - by rewrite (buffers_of_no_indices _ _ _ Hb Hi).
Qed.

Lemma run_eq (h : heap) (self other : loc) (s o : ShaderWrapper)
    (b1 b2 : list vertex * option (list Z)) (u1 u2 : dict uniform)
    (t1 t2 : dict string) :
  wrappers h !! self = Some s →
  wrappers h !! other = Some o →
  buffers_of h s = Some b1 →
  buffers_of h o = Some b2 →
  uniform_dicts h !! uniforms s = Some u1 →
  uniform_dicts h !! uniforms o = Some u2 →
  texture_dicts h !! texture_paths s = Some t1 →
  texture_dicts h !! texture_paths o = Some t2 →
  __eq__ self other h
  = (obind (np_all_eq b1.1 b2.1) (λ c1,
     obind (np_all_eq_opt b1.2 b2.2) (λ c2,
     obind (all_uniforms_eq u1 u2) (λ c4,
     obind (all_texture_paths_eq t1 t2) (λ c5,
     Return (c1 && c2
             && bool_decide (shader_folder s = shader_folder o)
             && c4 && c5
             && bool_decide (depth_test s = depth_test o)
             && bool_decide (render_primitive s = render_primitive o)))))),
     h).
Proof.
  intros Hs Ho Hb1 Hb2 Hu1 Hu2 Ht1 Ht2.
  pose proof (buffers_of_data _ _ _ Hb1) as Hd1.
  pose proof (buffers_of_data _ _ _ Hb2) as Hd2.
  unfold __eq__. do 4 mstep. rewrite run_bind, run_lift.
  destruct (np_all_eq b1.1 b2.1) as [c1|e]; [|done]. cbn [obind].
  rewrite run_bind, (run_read_opt_index h s b1) by done.
  rewrite run_bind, (run_read_opt_index h o b2) by done.
  rewrite run_bind, run_lift.
  destruct (np_all_eq_opt b1.2 b2.2) as [c2|e]; [|done]. cbn [obind].
  do 2 mstep. rewrite run_bind, run_lift.
  destruct (all_uniforms_eq u1 u2) as [c4|e]; [|done]. cbn [obind].
  do 2 mstep. rewrite run_bind, run_lift.
  destruct (all_texture_paths_eq t1 t2) as [c5|e]; [|done]. cbn [obind].
  by mstep.
Qed.

End equality.

Section equality_laws.
Context `{Externals}.

Lemma np_all_eq_same_length {A} `{NpEq A} (a b : list A) :
  length a = length b →
  np_all_eq a b = Return (forallb (λ '(x, y), np_eq x y) (zip a b)).
Proof. intros Hlen. unfold np_all_eq. by rewrite decide_True. Qed.

Lemma forallb_zip_np_eq {A} `{NpEq A} (a b : list A) :
  length a = length b →
  forallb (λ '(x, y), np_eq x y) (zip a b) = true
  ↔ Forall2 (λ x y, np_eq x y = true) a b.
Proof.
  revert b. induction a as [|x a IH]; intros [|y b] Hlen;
    simplify_eq/=.
  - split; [constructor | done].
  - rewrite andb_true_iff, IH by done. split.
    + intros [? ?]. by constructor.
    + by intros [? ?]%Forall2_cons.
Qed.

Lemma forallb_zip_Z (a b : list Z) :
  length a = length b →
  forallb (λ '(x, y), np_eq x y) (zip a b) = bool_decide (a = b).
Proof.
  intros Hlen. apply eq_true_iff_eq.
  rewrite forallb_zip_np_eq, bool_decide_eq_true by done. split.
  - intros Hall. induction Hall as [|x y a' b' Hxy _ IH]; [done |].
    apply Z.eqb_eq in Hxy. simpl in Hlen. f_equal; [done |].
    apply IH. lia.
  - intros ->. clear Hlen. induction b as [|y b IH]; constructor; [|done].
    apply Z.eqb_refl.
Qed.

Lemma forallb_zip_refl {A} `{NpEq A} (a : list A) :
  Forall (λ v, np_eq v v = true) a →
  forallb (λ '(x, y), np_eq x y) (zip a a) = true.
Proof.
  induction 1 as [|x a Hx _ IH]; [done |]. simpl. by rewrite Hx, IH.
Qed.

Lemma all_uniforms_eq_returns (mine theirs : dict uniform) :
  (∀ k v, (k, v) ∈ mine →
     ∃ v' b, dict_get theirs k = Some v'
       ∧ uniform_all_eq v v' = Return b) →
  ∃ b, all_uniforms_eq mine theirs = Return b
    ∧ (b = true ↔
       ∀ k v, (k, v) ∈ mine →
         ∃ v', dict_get theirs k = Some v'
           ∧ uniform_all_eq v v' = Return true).
Proof.
  induction mine as [|[k v] mine IH]; intros Hkeys; simpl.
  - exists true. split; [done |]. split; [|done].
    by intros _ k v ?%elem_of_nil.
  - destruct (Hkeys k v) as (v' & b & Hv' & Hb); [by left |].
    rewrite Hv', Hb. simpl.
    destruct IH as (b' & Hrec & Hiff).
    { intros k0 v0 Hin. apply Hkeys. by right. }
    destruct b.
    + exists b'. split; [done |]. rewrite Hiff. split.
      * intros Hall k0 v0 [[= -> ->]|Hin]%elem_of_cons; eauto.
      * intros Hall k0 v0 Hin. apply Hall. by right.
    + exists false. split; [done |]. split; [done |].
      intros Hall. destruct (Hall k v) as (v'' & Hv'' & Htrue); [by left |].
      congruence.
Qed.

Lemma all_texture_paths_eq_returns (mine theirs : dict string) :
  (∀ k v, (k, v) ∈ mine → is_Some (dict_get theirs k)) →
  ∃ b, all_texture_paths_eq mine theirs = Return b
    ∧ (b = true ↔ ∀ k v, (k, v) ∈ mine → dict_get theirs k = Some v).
Proof.
  induction mine as [|[k v] mine IH]; intros Hkeys; simpl.
  - exists true. split; [done |]. split; [|done].
    by intros _ k v ?%elem_of_nil.
  - destruct (Hkeys k v) as (v' & Hv'); [by left |].
    rewrite Hv'.
    destruct IH as (b' & Hrec & Hiff).
    { intros k0 v0 Hin. eapply Hkeys. by right. }
    case_bool_decide as Hvv.
    + subst v'. exists b'. split; [done |]. rewrite Hiff. split.
      * intros Hall k0 v0 [[= -> ->]|Hin]%elem_of_cons; eauto.
      * intros Hall k0 v0 Hin. apply Hall. by right.
    + exists false. split; [done |]. split; [done |].
      intros Hall. specialize (Hall k v). rewrite Hv' in Hall.
      destruct Hvv. by injection (Hall ltac:(by left)).
Qed.

Lemma np_all_eq_opt_same_shape (i1 i2 : option (list Z)) :
  same_shape i1 i2 →
  np_all_eq_opt i1 i2 = Return (bool_decide (i1 = i2)).
Proof.
  destruct i1 as [a|], i2 as [b|]; simpl; try done.
  intros Hlen. rewrite np_all_eq_same_length, forallb_zip_Z by done.
  f_equal. apply bool_decide_ext. split; congruence.
Qed.

(** X6. When the vertex buffers of the two instances have one length,
    the index buffers are both absent or both present with one length,
    every key of the dictionaries of [self] is a key of those of the
    other, and the comparisons of the uniform values return, then
    [__eq__] returns, and it returns [True] exactly when: the vertices
    are equal one by one for the [==] of NumPy, which need not hold of a
    vertex and itself; the index data are equal; the folder, the
    depth-test flag and the primitive are equal; under every key of the
    uniforms of [self] the comparison of the two values is [True]; and
    under every key of the texture paths of [self] the other has the
    same path. *)
Theorem eq_true_iff (h : heap) (self other : loc) (s o : ShaderWrapper)
    (d1 d2 : list vertex) (i1 i2 : option (list Z))
    (u1 u2 : dict uniform) (t1 t2 : dict string) :
  wrappers h !! self = Some s →
  wrappers h !! other = Some o →
  buffers_of h s = Some (d1, i1) →
  buffers_of h o = Some (d2, i2) →
  uniform_dicts h !! uniforms s = Some u1 →
  uniform_dicts h !! uniforms o = Some u2 →
  texture_dicts h !! texture_paths s = Some t1 →
  texture_dicts h !! texture_paths o = Some t2 →
  length d1 = length d2 →
  same_shape i1 i2 →
  (∀ k v, (k, v) ∈ u1 →
     ∃ v' b, dict_get u2 k = Some v' ∧ uniform_all_eq v v' = Return b) →
  (∀ k v, (k, v) ∈ t1 → is_Some (dict_get t2 k)) →
  ∃ b, __eq__ self other h = (Return b, h)
    ∧ (b = true ↔
       Forall2 (λ x y, np_eq x y = true) d1 d2 ∧ i1 = i2
       ∧ shader_folder s = shader_folder o
       ∧ (∀ k v, (k, v) ∈ u1 →
            ∃ v', dict_get u2 k = Some v'
              ∧ uniform_all_eq v v' = Return true)
       ∧ (∀ k v, (k, v) ∈ t1 → dict_get t2 k = Some v)
       ∧ depth_test s = depth_test o
       ∧ render_primitive s = render_primitive o).
Proof.
  intros Hs Ho Hb1 Hb2 Hu1 Hu2 Ht1 Ht2 Hlen Hshape Hkeys Htkeys.
  rewrite (run_eq h self other s o _ _ u1 u2 t1 t2) by done.
  cbn [fst snd].
  rewrite np_all_eq_same_length, np_all_eq_opt_same_shape by done.
  destruct (all_uniforms_eq_returns u1 u2 Hkeys) as (c4 & -> & Hc4).
  destruct (all_texture_paths_eq_returns t1 t2 Htkeys) as (c5 & -> & Hc5).
  cbn [obind]. eexists. split; [done |].
  rewrite !andb_true_iff, !bool_decide_eq_true, Hc4, Hc5.
  rewrite forallb_zip_np_eq by done. tauto.
Qed.

End equality_laws.

Section equality_reads.
Context `{Externals}.
Context (h1 h2 : heap).
Context (Hpayload : same_payload h1 h2).

Lemma agree_bind {A B} (m1 m2 : M A) (f1 f2 : A → M B) :
  (m1 h1).2 = h1 → (m2 h2).2 = h2 →
  (m1 h1).1 = (m2 h2).1 →
  (∀ a, (m1 h1).1 = Return a → (f1 a h1).1 = (f2 a h2).1) →
  ((m1 ≫= f1) h1).1 = ((m2 ≫= f2) h2).1.
Proof.
  intros Hro1 Hro2 Hm Hf. rewrite !run_bind.
  destruct (m1 h1) as [x1 h1'], (m2 h2) as [x2 h2']. simpl in *. subst.
  destruct x2 as [a|e]; [by apply Hf | done].
Qed.

Lemma from_option_ro {A} (x : option A) (h : heap) :
  (from_option x h).2 = h.
Proof. by destruct x. Qed.

Lemma read_vert_agree (a : loc) :
  (read_vert a h1).1 = (read_vert a h2).1.
Proof using Hpayload.
  destruct Hpayload as (Hv & _). unfold read_vert. rewrite Hv.
  by destruct (vert_arrays h2 !! a).
Qed.

Lemma read_index_agree (a : loc) :
  (read_index a h1).1 = (read_index a h2).1.
Proof using Hpayload.
  destruct Hpayload as (_ & Hi & _). unfold read_index. rewrite Hi.
  by destruct (index_arrays h2 !! a).
Qed.

Lemma read_uniforms_agree (a : loc) :
  (read_uniforms a h1).1 = (read_uniforms a h2).1.
Proof using Hpayload.
  destruct Hpayload as (_ & _ & Hu & _). unfold read_uniforms. rewrite Hu.
  by destruct (uniform_dicts h2 !! a).
Qed.

Lemma read_textures_agree (a : loc) :
  (read_textures a h1).1 = (read_textures a h2).1.
Proof using Hpayload.
  destruct Hpayload as (_ & _ & _ & Ht). unfold read_textures. rewrite Ht.
  by destruct (texture_dicts h2 !! a).
Qed.

Lemma read_opt_index_ro (a : option loc) (h : heap) :
  (read_opt_index a h).2 = h.
Proof.
  destruct a as [i|]; [|done]. simpl. rewrite run_bind.
  unfold read_index. by destruct (index_arrays h !! i).
Qed.

Lemma read_opt_index_agree (a : option loc) :
  (read_opt_index a h1).1 = (read_opt_index a h2).1.
Proof using Hpayload.
  destruct a as [i|]; [|done]. simpl.
  apply agree_bind; [apply from_option_ro.. | apply read_index_agree |].
  done.
Qed.

(** X7. The result of [__eq__] depends on the instances through the
    seven attributes it reads only: over the same arrays and
    dictionaries, instances that agree on [vert_data], [vert_indices],
    [shader_folder], [uniforms], [texture_paths], [depth_test] and
    [render_primitive] compare the same, whatever their
    [use_clip_plane], [program_code], [program_id], [id] and
    [vert_attributes]. *)
Theorem eq_reads_seven_attributes (self other : loc)
    (s1 s2 o1 o2 : ShaderWrapper) :
  wrappers h1 !! self = Some s1 →
  wrappers h2 !! self = Some s2 →
  wrappers h1 !! other = Some o1 →
  wrappers h2 !! other = Some o2 →
  same_compared s1 s2 →
  same_compared o1 o2 →
  (__eq__ self other h1).1 = (__eq__ self other h2).1.
Proof using Hpayload.
  intros Hs1 Hs2 Ho1 Ho2 (Hs_d & Hs_i & Hs_f & Hs_u & Hs_t & Hs_z & Hs_p)
    (Ho_d & Ho_i & Ho_f & Ho_u & Ho_t & Ho_z & Ho_p).
  unfold __eq__. do 4 mstep.
  rewrite Hs_d, Hs_i, Hs_f, Hs_u, Hs_t, Hs_z, Hs_p.
  rewrite Ho_d, Ho_i, Ho_f, Ho_u, Ho_t, Ho_z, Ho_p.
  repeat first
    [ apply agree_bind;
        [ first [apply from_option_ro | apply read_opt_index_ro | done]
        | first [apply from_option_ro | apply read_opt_index_ro | done]
        | first [ apply read_vert_agree | apply read_index_agree
                | apply read_uniforms_agree | apply read_textures_agree
                | apply read_opt_index_agree | done ]
        | intros ? _ ]
    | done ].
Qed.

End equality_reads.

Section missing_keys.
Context `{Externals}.

Lemma all_uniforms_eq_missing (mine theirs : dict uniform) (k : string)
    (v : uniform) :
  (k, v) ∈ mine → dict_get theirs k = None →
  all_uniforms_eq mine theirs ≠ Return true.
Proof.
  intros Hin Hnone. induction mine as [|[k0 v0] mine IH]; simpl.
  { by apply elem_of_nil in Hin. }
  destruct (dict_get theirs k0) as [v'|] eqn:Hk0; [|done].
  destruct (uniform_all_eq v0 v') as [[|]|e]; simpl; [|done..].
  apply elem_of_cons in Hin as [[= -> ->]|Hin]; [congruence | by apply IH].
Qed.

(** X8. When the uniforms of [self] have a key that those of the other
    lack, [__eq__] does not return [True]; when that key is the first
    one of [self] and the comparisons of the buffers return, [__eq__]
    raises [KeyError]. *)
Theorem eq_missing_key (h : heap) (self other : loc) (s o : ShaderWrapper)
    (b1 b2 : list vertex * option (list Z)) (u1 u2 : dict uniform)
    (t1 t2 : dict string) (k : string) (v : uniform) :
  wrappers h !! self = Some s →
  wrappers h !! other = Some o →
  buffers_of h s = Some b1 →
  buffers_of h o = Some b2 →
  uniform_dicts h !! uniforms s = Some u1 →
  uniform_dicts h !! uniforms o = Some u2 →
  texture_dicts h !! texture_paths s = Some t1 →
  texture_dicts h !! texture_paths o = Some t2 →
  (k, v) ∈ u1 →
  dict_get u2 k = None →
  (__eq__ self other h).1 ≠ Return true
  ∧ (∀ rest, u1 = (k, v) :: rest →
       returns (np_all_eq b1.1 b2.1) = true →
       returns (np_all_eq_opt b1.2 b2.2) = true →
       (__eq__ self other h).1 = Raise KeyError).
Proof.
  intros Hs Ho Hb1 Hb2 Hu1 Hu2 Ht1 Ht2 Hin Hnone.
  rewrite (run_eq h self other s o b1 b2 u1 u2 t1 t2) by done.
  cbn [fst]. split.
  - pose proof (all_uniforms_eq_missing u1 u2 k v Hin Hnone) as Hne.
    destruct (np_all_eq b1.1 b2.1) as [c1|e]; [|done].
    destruct (np_all_eq_opt b1.2 b2.2) as [c2|e]; [|done].
    destruct (all_uniforms_eq u1 u2) as [c4|e]; [|done].
    destruct (all_texture_paths_eq t1 t2) as [c5|e]; [|done].
    simpl. destruct c4; [done |]. intros [= Hb].
    by rewrite !andb_false_r, ?andb_false_l in Hb.
  - intros rest -> Hd Hi.
    destruct (np_all_eq b1.1 b2.1) as [c1|e]; [|done].
    destruct (np_all_eq_opt b1.2 b2.2) as [c2|e]; [|done].
    simpl. by rewrite Hnone.
Qed.

End missing_keys.

(** ** [copy] *)

Section copies.
Context `{Externals}.

Lemma fresh_uniforms (h : heap) :
  uniform_dicts h !! fresh (dom (uniform_dicts h)) = None.
Proof. apply not_elem_of_dom, is_fresh. Qed.

Lemma fresh_textures (h : heap) :
  texture_dicts h !! fresh (dom (texture_dicts h)) = None.
Proof. apply not_elem_of_dom, is_fresh. Qed.

Lemma run_copy_full (self : loc) (s : ShaderWrapper)
    (b : list vertex * option (list Z)) (u : dict uniform)
    (t : dict string) (h : heap) :
  wrappers h !! self = Some s →
  buffers_of h s = Some b →
  uniform_dicts h !! uniforms s = Some u →
  texture_dicts h !! texture_paths s = Some t →
  ∃ h' c sc, copy self h = (Return c, h')
    ∧ wrappers h !! c = None
    ∧ wrappers h' !! c = Some sc
    ∧ wrappers h' !! self = Some s
    ∧ buffers_of h' s = Some b
    ∧ buffers_of h' sc = Some b
    ∧ vert_arrays h !! vert_data sc = None
    ∧ (∀ i, vert_indices sc = Some i → index_arrays h !! i = None)
    ∧ uniform_dicts h' !! uniforms s = Some u
    ∧ uniform_dicts h' !! uniforms sc = Some (np_array_values u)
    ∧ (if decide (u = []) then uniforms sc = uniforms s
       else uniform_dicts h !! uniforms sc = None)
    ∧ texture_dicts h' !! texture_paths s = Some t
    ∧ texture_dicts h' !! texture_paths sc = Some t
    ∧ (if decide (t = []) then texture_paths sc = texture_paths s
       else texture_dicts h !! texture_paths sc = None)
    ∧ with_texture_paths
        (with_uniforms
           (with_vert_indices (with_vert_data sc (vert_data s))
              (vert_indices s))
           (uniforms s))
        (texture_paths s) = s.
Proof.
  intros Hself Hb Hu Ht.
  pose proof (buffers_of_data _ _ _ Hb) as Hd.
  pose proof (fresh_wrapper h) as Hc.
  pose proof (fresh_vert h) as Ha.
  pose proof (fresh_index h) as Hi.
  pose proof (fresh_uniforms h) as Hfu.
  pose proof (fresh_textures h) as Hft.
  assert (fresh (dom (wrappers h)) ≠ self) as Hne by congruence.
  assert (fresh (dom (vert_arrays h)) ≠ vert_data s) as Hnv by congruence.
  unfold copy, set_vert_data, set_vert_indices, set_uniforms,
    set_texture_paths.
  repeat mstep.
  destruct (vert_indices s) as [i|] eqn:Hsi.
  - destruct (buffers_of_indices _ _ _ _ Hb Hsi) as (idx & Hidx & Hb2).
    assert (fresh (dom (index_arrays h)) ≠ i) as Hni by congruence.
    repeat mstep.
    destruct u as [|u0 u]; repeat mstep;
      (destruct t as [|t0 t]; repeat mstep;
       eexists _, _, _; (split; [reflexivity |]);
       (split; [exact Hc |]);
       (split; [by heap_simpl; rewrite ?insert_insert_eq, lookup_insert_eq |]);
       unfold buffers_of; heap_simpl; rewrite ?insert_insert_eq;
       rewrite ?lookup_insert_eq;
       cbn [vert_data vert_indices uniforms texture_paths with_vert_data
            with_vert_indices with_uniforms with_texture_paths];
       rewrite ?Hsi; heap_simpl;
       rewrite ?lookup_insert_eq, ?lookup_insert_ne by congruence;
       rewrite ?Hd, ?Hidx, ?Hu, ?Ht;
       destruct b as [bd bi]; simpl in *; subst bi;
       repeat split; try done; try (by destruct s; simpl in *; subst);
       try (by intros ? [= <-])).
  - pose proof (buffers_of_no_indices _ _ _ Hb Hsi) as Hb2.
    repeat mstep.
    destruct u as [|u0 u]; repeat mstep;
      (destruct t as [|t0 t]; repeat mstep;
       eexists _, _, _; (split; [reflexivity |]);
       (split; [exact Hc |]);
       (split; [by heap_simpl; rewrite ?insert_insert_eq, lookup_insert_eq |]);
       unfold buffers_of; heap_simpl; rewrite ?insert_insert_eq;
       rewrite ?lookup_insert_eq;
       cbn [vert_data vert_indices uniforms texture_paths with_vert_data
            with_vert_indices with_uniforms with_texture_paths];
       rewrite ?Hsi; heap_simpl;
       rewrite ?lookup_insert_eq, ?lookup_insert_ne by congruence;
       rewrite ?Hd, ?Hu, ?Ht;
       destruct b as [bd bi]; simpl in *; subst bi;
       repeat split; try done; try (by destruct s; simpl in *; subst)).
Qed.

End copies.

Section copies_laws.
Context `{Externals}.

Lemma dict_get_elem_of {V} (d : dict V) (k : string) (v : V) :
  NoDup d.*1 → (k, v) ∈ d → dict_get d k = Some v.
Proof.
  induction d as [|[k0 v0] d IH]; simpl; [by intros _ ?%elem_of_nil |].
  intros [Hk0 Hnd]%NoDup_cons [[= -> ->]|Hin]%elem_of_cons.
  - by rewrite bool_decide_eq_true_2.
  - rewrite bool_decide_eq_false_2; [by apply IH |].
    intros ->. apply Hk0. apply list_elem_of_fmap. by exists (k, v).
Qed.

Lemma np_array_values_keys (u : dict uniform) :
  (np_array_values u).*1 = u.*1.
Proof.
  unfold np_array_values. induction u as [|[k v] u IH]; [done |].
  simpl. f_equal. exact IH.
Qed.

Lemma elem_of_np_array_values (u : dict uniform) (k : string) (v : uniform) :
  (k, v) ∈ u → (k, uniform_array v) ∈ np_array_values u.
Proof.
  rewrite !list_elem_of_In. intros Hin. unfold np_array_values.
  apply in_map_iff. by exists (k, v).
Qed.

Lemma elem_of_np_array_values_inv (u : dict uniform) (k : string)
    (w : uniform) :
  (k, w) ∈ np_array_values u → ∃ v, w = uniform_array v ∧ (k, v) ∈ u.
Proof.
  rewrite list_elem_of_In. unfold np_array_values.
  intros ([k0 v] & [= -> <-] & Hin)%in_map_iff.
  exists v. by rewrite list_elem_of_In.
Qed.

Lemma same_shape_refl (i : option (list Z)) : same_shape i i.
Proof. by destruct i. Qed.

Lemma all_texture_paths_eq_refl (t : dict string) :
  NoDup t.*1 → all_texture_paths_eq t t = Return true.
Proof.
  intros Hnd.
  destruct (all_texture_paths_eq_returns t t) as (b & -> & Hb).
  - intros k v Hin. rewrite (dict_get_elem_of t k v) by done. by eexists.
  - f_equal. apply Hb. intros k v Hin. by apply dict_get_elem_of.
Qed.

(** X9. [copy] returns a new instance with a vertex array and an index
    array of its own, new to the store and holding the data of the
    original, with a new dictionary of uniforms, each value passed
    through [np.array], when the original has uniforms, and a new
    dictionary of texture paths when the original has any; an empty
    dictionary is the original's own.  The other attributes, [id] and
    [program_id] among them, are those of the original. *)
Theorem copy_owns_its_buffers (self : loc) (s : ShaderWrapper)
    (b : list vertex * option (list Z)) (u : dict uniform)
    (t : dict string) (h : heap) :
  wrappers h !! self = Some s →
  buffers_of h s = Some b →
  uniform_dicts h !! uniforms s = Some u →
  texture_dicts h !! texture_paths s = Some t →
  ∃ h' c sc, copy self h = (Return c, h')
    ∧ wrappers h !! c = None
    ∧ wrappers h' !! c = Some sc
    ∧ buffers_of h' sc = Some b
    ∧ vert_arrays h !! vert_data sc = None
    ∧ (∀ i, vert_indices sc = Some i → index_arrays h !! i = None)
    ∧ uniform_dicts h' !! uniforms sc = Some (np_array_values u)
    ∧ (if decide (u = []) then uniforms sc = uniforms s
       else uniform_dicts h !! uniforms sc = None)
    ∧ texture_dicts h' !! texture_paths sc = Some t
    ∧ (if decide (t = []) then texture_paths sc = texture_paths s
       else texture_dicts h !! texture_paths sc = None)
    ∧ vert_attributes sc = vert_attributes s
    ∧ shader_folder sc = shader_folder s
    ∧ depth_test sc = depth_test s
    ∧ use_clip_plane sc = use_clip_plane s
    ∧ render_primitive sc = render_primitive s
    ∧ program_code sc = program_code s
    ∧ program_id sc = program_id s
    ∧ id sc = id s.
Proof.
  intros Hself Hb Hu Ht.
  destruct (run_copy_full self s b u t h Hself Hb Hu Ht)
    as (h' & c & sc & Hrun & Hc & Hsc & Hs & Hbs & Hbc & Hv & Hi & Hus
        & Huc & Hunew & Hts & Htc & Htnew & Hrec).
  exists h', c, sc. repeat (split; [done |]).
  rewrite <-Hrec. by destruct sc.
Qed.

(** X10. An instance and its copy are equal for [__eq__], in both
    directions, when every vertex is equal to itself for the [==] of
    NumPy (no NaN in the vertex data), no key occurs twice in the
    dictionaries and every uniform value is equal, for [==], to the
    array [np.array] makes of it. *)
Theorem copy_equals_original (self : loc) (s : ShaderWrapper)
    (b : list vertex * option (list Z)) (u : dict uniform)
    (t : dict string) (h : heap) :
  wrappers h !! self = Some s →
  buffers_of h s = Some b →
  uniform_dicts h !! uniforms s = Some u →
  texture_dicts h !! texture_paths s = Some t →
  Forall (λ v, np_eq v v = true) b.1 →
  NoDup u.*1 →
  NoDup t.*1 →
  (∀ k v, (k, v) ∈ u →
     uniform_all_eq v (uniform_array v) = Return true
     ∧ uniform_all_eq (uniform_array v) v = Return true) →
  ((c ← copy self; __eq__ self c) h).1 = Return true
  ∧ ((c ← copy self; __eq__ c self) h).1 = Return true.
Proof.
  intros Hself Hb Hu Ht Hrefl Hndu Hndt Hvals.
  assert (∀ k v, (k, v) ∈ u →
            uniform_all_eq v (uniform_array v) = Return true) as Hto.
  { intros k v Hin. exact (proj1 (Hvals k v Hin)). }
  assert (∀ k v, (k, v) ∈ u →
            uniform_all_eq (uniform_array v) v = Return true) as Hfrom.
  { intros k v Hin. exact (proj2 (Hvals k v Hin)). }
  destruct (run_copy_full self s b u t h Hself Hb Hu Ht)
    as (h' & c & sc & Hrun & Hc & Hsc & Hs & Hbs & Hbc & Hv & Hi & Hus
        & Huc & Hunew & Hts & Htc & Htnew & Hrec).
  assert (shader_folder sc = shader_folder s
          ∧ depth_test sc = depth_test s
          ∧ render_primitive sc = render_primitive s) as (Hf & Hz & Hp).
  { rewrite <-Hrec. by destruct sc. }
  rewrite !run_bind, Hrun.
  rewrite (run_eq h' self c s sc b b u (np_array_values u) t t) by done.
  rewrite (run_eq h' c self sc s b b (np_array_values u) u t t) by done.
  cbn [fst snd].
  rewrite np_all_eq_same_length, forallb_zip_refl by done.
  rewrite np_all_eq_opt_same_shape by apply same_shape_refl.
  rewrite all_texture_paths_eq_refl by done.
  rewrite Hf, Hz, Hp, !bool_decide_eq_true_2 by done.
  destruct (all_uniforms_eq_returns u (np_array_values u))
    as (c4 & -> & Hc4).
  { intros k v Hin. exists (uniform_array v), true.
    split; [|by eapply Hto].
    apply dict_get_elem_of; [by rewrite np_array_values_keys |].
    by apply elem_of_np_array_values. }
  destruct (all_uniforms_eq_returns (np_array_values u) u)
    as (c4' & -> & Hc4').
  { intros k w (v & -> & Hin)%elem_of_np_array_values_inv.
    exists v, true. split; [by apply dict_get_elem_of | by eapply Hfrom]. }
  cbn [obind].
  assert (c4 = true) as ->.
  { apply Hc4. intros k v Hin. exists (uniform_array v).
    split; [|by eapply Hto].
    apply dict_get_elem_of; [by rewrite np_array_values_keys |].
    by apply elem_of_np_array_values. }
  assert (c4' = true) as ->.
  { apply Hc4'. intros k w (v & -> & Hin)%elem_of_np_array_values_inv.
    exists v. split; [by apply dict_get_elem_of | by eapply Hfrom]. }
  done.
Qed.

End copies_laws.

(** ** [refresh_id], [create_id] and [create_program_id] *)

Section identity_laws.
Context `{Externals}.

Lemma str_join_three (a b c : string) :
  str_join EmptyString [a; b; c] = a +:+ b +:+ c.
Proof.
  unfold str_join. simpl. by rewrite !str_app_nil_l, <-str_app_assoc.
Qed.

Lemma run_create_program_id (self : loc) (s : ShaderWrapper) (h : heap) :
  wrappers h !! self = Some s →
  create_program_id self h = (Return (program_id_of (program_code s)), h).
Proof. intros Hs. unfold create_program_id. by repeat mstep. Qed.

Lemma run_create_id (self : loc) (s : ShaderWrapper) (u : dict uniform)
    (t : dict string) (h : heap) :
  wrappers h !! self = Some s →
  uniform_dicts h !! uniforms s = Some u →
  texture_dicts h !! texture_paths s = Some t →
  create_id self h
  = (Return (id_of (program_id s) u t (depth_test s) (render_primitive s)),
     h).
Proof. intros Hs Hu Ht. unfold create_id. by repeat mstep. Qed.

Lemma run_refresh_id_store (self : loc) (s : ShaderWrapper)
    (u : dict uniform) (t : dict string) (h : heap) :
  wrappers h !! self = Some s →
  uniform_dicts h !! uniforms s = Some u →
  texture_dicts h !! texture_paths s = Some t →
  refresh_id self h
  = (Return (),
     store_wrapper self
       (with_id (with_program_id s (program_id_of (program_code s)))
          (id_of (program_id_of (program_code s)) u t (depth_test s)
             (render_primitive s))) h).
Proof.
  intros Hs Hu Ht.
  unfold refresh_id, set_program_id, set_id.
  rewrite run_bind, (run_create_program_id self s) by done.
  repeat mstep.
  rewrite run_bind.
  erewrite (run_create_id self _ u t) by heap_lookup.
  repeat mstep. destruct h. unfold store_wrapper. heap_simpl.
  by rewrite insert_insert_eq.
Qed.

Lemma refresh_id_no_instance (self : loc) (h : heap) :
  wrappers h !! self = None → refresh_id self h = (Raise ReferenceError, h).
Proof.
  intros Hs. unfold refresh_id, create_program_id.
  rewrite !run_bind. unfold get_wrapper. by rewrite Hs.
Qed.

Lemma refresh_id_no_dict (self : loc) (s : ShaderWrapper) (h : heap) :
  wrappers h !! self = Some s →
  uniform_dicts h !! uniforms s = None
  ∨ texture_dicts h !! texture_paths s = None →
  refresh_id self h
  = (Raise ReferenceError,
     store_wrapper self
       (with_program_id s (program_id_of (program_code s))) h).
Proof.
  intros Hs Hnone. unfold refresh_id, set_program_id.
  rewrite run_bind, (run_create_program_id self s) by done.
  repeat mstep. unfold create_id. repeat mstep.
  cbn [uniforms texture_paths with_program_id].
  rewrite !run_bind. unfold read_uniforms at 1. heap_simpl.
  destruct (uniform_dicts h !! uniforms s) as [u|] eqn:Hu; [|done].
  destruct Hnone as [?|Ht]; [done |]. simpl.
  rewrite !run_bind. unfold read_textures at 1. heap_simpl.
  by rewrite Ht.
Qed.

(** X11. [refresh_id] is idempotent: calling it twice leaves the store
    that calling it once leaves, with the same result. *)
Theorem refresh_id_twice (self : loc) (h : heap) :
  (refresh_id self;; refresh_id self) h = refresh_id self h.
Proof.
  rewrite run_bind.
  destruct (wrappers h !! self) as [s|] eqn:Hs.
  2: { by rewrite refresh_id_no_instance. }
  destruct (uniform_dicts h !! uniforms s) as [u|] eqn:Hu.
  2: { rewrite (refresh_id_no_dict self s) by auto. done. }
  destruct (texture_dicts h !! texture_paths s) as [t|] eqn:Ht.
  2: { rewrite (refresh_id_no_dict self s) by auto. done. }
  rewrite (run_refresh_id_store self s u t) by done.
  erewrite (run_refresh_id_store self _ u t) by heap_lookup.
  f_equal. destruct h, s. unfold store_wrapper. heap_simpl.
  by rewrite insert_insert_eq.
Qed.

End identity_laws.

Section identity_stale.
Context `{Externals}.

Lemma run_setitem_uniforms (a : loc) (u : dict uniform) (key : string)
    (value : uniform) (h : heap) :
  uniform_dicts h !! a = Some u →
  setitem_uniforms a key value h
  = (Return (), store_uniforms a (dict_set u key value) h).
Proof.
  intros Hu. unfold setitem_uniforms, write_uniforms. by repeat mstep.
Qed.

(** X12. Setting a uniform does not refresh the identity: after
    [self.uniforms[key] = value], [get_id] still returns the [id] from
    before, [create_id] returns the identity with the new entry, and
    after [refresh_id] the stored [id] is the one with the new entry. *)
Theorem id_is_stale_until_refresh (self : loc) (s : ShaderWrapper)
    (u : dict uniform) (t : dict string) (key : string) (value : uniform)
    (h : heap) :
  wrappers h !! self = Some s →
  uniform_dicts h !! uniforms s = Some u →
  texture_dicts h !! texture_paths s = Some t →
  ((setitem_uniforms (uniforms s) key value;; get_id self) h).1
    = Return (id s)
  ∧ ((setitem_uniforms (uniforms s) key value;; create_id self) h).1
    = Return (id_of (program_id s) (dict_set u key value) t (depth_test s)
                (render_primitive s))
  ∧ ((setitem_uniforms (uniforms s) key value;; refresh_id self;;
      get_id self) h).1
    = Return (id_of (program_id_of (program_code s)) (dict_set u key value)
                t (depth_test s) (render_primitive s)).
Proof.
  intros Hs Hu Ht.
  rewrite !run_bind, (run_setitem_uniforms _ u) by done.
  split; [|split].
  - unfold get_id. by repeat mstep.
  - by erewrite (run_create_id self s) by heap_lookup.
  - rewrite ?run_bind.
    erewrite (run_refresh_id_store self s) by heap_lookup.
    unfold get_id. by repeat mstep.
Qed.

(** X13. [create_program_id] depends on the three pieces of code through
    their concatenation only: instances whose vertex, geometry and
    fragment code, an absent one counting as empty, concatenate to the
    same text get the same program id. *)
Theorem program_id_of_concatenation (h1 h2 : heap) (self1 self2 : loc)
    (s1 s2 : ShaderWrapper) :
  wrappers h1 !! self1 = Some s1 →
  wrappers h2 !! self2 = Some s2 →
  code_or_empty (vertex_shader (program_code s1))
    +:+ code_or_empty (geometry_shader (program_code s1))
    +:+ code_or_empty (fragment_shader (program_code s1))
  = code_or_empty (vertex_shader (program_code s2))
    +:+ code_or_empty (geometry_shader (program_code s2))
    +:+ code_or_empty (fragment_shader (program_code s2)) →
  ∃ n, (create_program_id self1 h1).1 = Return n
    ∧ (create_program_id self2 h2).1 = Return n.
Proof.
  intros Hs1 Hs2 Hcat.
  rewrite (run_create_program_id self1 s1), (run_create_program_id self2 s2)
    by done.
  eexists. split; [done |]. simpl. unfold program_id_of.
  by rewrite !str_join_three, Hcat.
Qed.

End identity_stale.

(** ** The constructor *)

Section construction_laws.
Context `{Externals}.
Context (fs : Source.file_system) (depth : nat).

Lemma run_uniforms_or_dict (arg : option loc) (h : heap) :
  (∀ a, arg = Some a → is_Some (uniform_dicts h !! a)) →
  ∃ h' l, uniforms_or_dict arg h = (Return l, h')
    ∧ uniform_dicts h' !! l = Some (dict_or_empty (uniform_dicts h) arg)
    ∧ kept_or_new (uniform_dicts h) arg l
    ∧ uniform_dicts h ⊆ uniform_dicts h'
    ∧ vert_arrays h' = vert_arrays h
    ∧ index_arrays h' = index_arrays h
    ∧ texture_dicts h' = texture_dicts h
    ∧ wrappers h' = wrappers h.
Proof.
  intros Harg. pose proof (fresh_uniforms h) as Hnew.
  unfold uniforms_or_dict, dict_or_empty, kept_or_new.
  destruct arg as [a|]; simpl.
  - destruct (Harg a eq_refl) as [d Hd]. mstep. unfold dict in *.
    rewrite ?Hd.
    destruct d as [|x d]; simpl.
    + eexists _, _. split; [reflexivity |]. heap_simpl.
      rewrite lookup_insert_eq, ?Hd. split; [done |]. split; [done |].
      split; [by apply insert_subseteq | done].
    + eexists _, _. split; [reflexivity |]. by rewrite ?Hd.
  - eexists _, _. split; [reflexivity |]. heap_simpl.
    rewrite lookup_insert_eq. split; [done |]. split; [done |].
    split; [by apply insert_subseteq | done].
Qed.

Lemma run_texture_paths_or_dict (arg : option loc) (h : heap) :
  (∀ a, arg = Some a → is_Some (texture_dicts h !! a)) →
  ∃ h' l, texture_paths_or_dict arg h = (Return l, h')
    ∧ texture_dicts h' !! l = Some (dict_or_empty (texture_dicts h) arg)
    ∧ kept_or_new (texture_dicts h) arg l
    ∧ texture_dicts h ⊆ texture_dicts h'
    ∧ vert_arrays h' = vert_arrays h
    ∧ index_arrays h' = index_arrays h
    ∧ uniform_dicts h' = uniform_dicts h
    ∧ wrappers h' = wrappers h.
Proof.
  intros Harg. pose proof (fresh_textures h) as Hnew.
  unfold texture_paths_or_dict, dict_or_empty, kept_or_new.
  destruct arg as [a|]; simpl.
  - destruct (Harg a eq_refl) as [d Hd]. mstep. unfold dict in *.
    rewrite ?Hd.
    destruct d as [|x d]; simpl.
    + eexists _, _. split; [reflexivity |]. heap_simpl.
      rewrite lookup_insert_eq, ?Hd. split; [done |]. split; [done |].
      split; [by apply insert_subseteq | done].
    + eexists _, _. split; [reflexivity |]. by rewrite ?Hd.
  - eexists _, _. split; [reflexivity |]. heap_simpl.
    rewrite lookup_insert_eq. split; [done |]. split; [done |].
    split; [by apply insert_subseteq | done].
Qed.

Lemma run_init (data : loc) (names : list string) (indices : option loc)
    (folder : option string) (uarg targ : option loc) (dt cp : bool)
    (prim : Z) (h : heap) (xs : list vertex) (code : program_code_t) :
  vert_arrays h !! data = Some xs →
  (∀ a, uarg = Some a → is_Some (uniform_dicts h !! a)) →
  (∀ a, targ = Some a → is_Some (texture_dicts h !! a)) →
  init_program_code fs depth folder = Return code →
  ∃ h' self u t,
    __init__ fs depth data names indices folder uarg targ dt cp prim h
      = (Return self, h')
    ∧ wrappers h !! self = None
    ∧ wrappers h' !! self
      = Some {| vert_data := data; vert_indices := indices;
                vert_attributes := names; shader_folder := folder;
                uniforms := u; texture_paths := t;
                depth_test := dt; use_clip_plane := cp;
                render_primitive := str_of_int prim;
                program_code := code;
                program_id := program_id_of code;
                id := id_of (program_id_of code)
                        (dict_or_empty (uniform_dicts h) uarg)
                        (dict_or_empty (texture_dicts h) targ) dt
                        (str_of_int prim) |}
    ∧ uniform_dicts h' !! u = Some (dict_or_empty (uniform_dicts h) uarg)
    ∧ texture_dicts h' !! t = Some (dict_or_empty (texture_dicts h) targ)
    ∧ kept_or_new (uniform_dicts h) uarg u
    ∧ kept_or_new (texture_dicts h) targ t.
Proof.
  intros Hdata Hu Ht Hcode. unfold __init__. mstep.
  destruct (run_uniforms_or_dict uarg h Hu)
    as (h1 & u & Hrun1 & Hu1 & Hk1 & Hsub1 & Hv1 & Hi1 & Ht1 & Hw1).
  rewrite run_bind, Hrun1.
  destruct (run_texture_paths_or_dict targ h1) as
    (h2 & t & Hrun2 & Ht2 & Hk2 & Hsub2 & Hv2 & Hi2 & Hu2 & Hw2).
  { by rewrite Ht1. }
  rewrite Ht1 in Ht2, Hk2.
  rewrite run_bind, Hrun2.
  rewrite run_bind, run_lift, Hcode. mstep.
  rewrite run_bind.
  erewrite (run_refresh_id_store _ _ (dict_or_empty (uniform_dicts h) uarg)
              (dict_or_empty (texture_dicts h) targ));
    [| heap_lookup | heap_simpl; cbn [uniforms]; by rewrite Hu2
     | heap_simpl; by cbn [texture_paths] ].
  mstep. eexists _, _, u, t. split; [reflexivity |].
  heap_simpl. rewrite insert_insert_eq, lookup_insert_eq.
  cbn [program_code depth_test render_primitive with_id with_program_id].
  rewrite Hu2, Hw2, Hw1.
  split; [apply fresh_wrapper |]. by repeat split.
Qed.

End construction_laws.

Section construction_theorems.
Context `{Externals}.

Lemma run_is_valid (self : loc) (s : ShaderWrapper) (h : heap) :
  wrappers h !! self = Some s →
  is_valid self h
  = (Return (bool_decide (vertex_shader (program_code s) ≠ None)
             && bool_decide (fragment_shader (program_code s) ≠ None)), h).
Proof. intros Hs. unfold is_valid. by repeat mstep. Qed.

(** X14. The constructor raises what the resolution of the three shader
    files raises, and no instance results; in particular with
    [shader_folder=None], the default, [os.path.join] raises
    [TypeError]. *)
Theorem init_raises_what_resolution_raises (fs : Source.file_system)
    (depth : nat) (data : loc) (names : list string)
    (indices : option loc) (folder : option string)
    (uarg targ : option loc) (dt cp : bool) (prim : Z) (h : heap)
    (xs : list vertex) (e : exn) :
  vert_arrays h !! data = Some xs →
  (∀ a, uarg = Some a → is_Some (uniform_dicts h !! a)) →
  (∀ a, targ = Some a → is_Some (texture_dicts h !! a)) →
  init_program_code fs depth folder = Raise e →
  init_program_code fs depth None = Raise TypeError
  ∧ (__init__ fs depth data names indices folder uarg targ dt cp prim
       h).1 = Raise e
  ∧ wrappers
      (__init__ fs depth data names indices folder uarg targ dt cp
         prim h).2 = wrappers h.
Proof.
  intros Hdata Hu Ht Hcode. split; [done |].
  unfold __init__. mstep.
  destruct (run_uniforms_or_dict uarg h Hu)
    as (h1 & u & Hrun1 & Hu1 & Hk1 & Hsub1 & Hv1 & Hi1 & Ht1 & Hw1).
  rewrite run_bind, Hrun1.
  destruct (run_texture_paths_or_dict targ h1) as
    (h2 & t & Hrun2 & Ht2 & Hk2 & Hsub2 & Hv2 & Hi2 & Hu2 & Hw2).
  { by rewrite Ht1. }
  rewrite run_bind, Hrun2.
  rewrite run_bind, run_lift, Hcode. simpl. by rewrite Hw2.
Qed.

(** X15. When the three shader files resolve, the constructor returns a
    new instance whose dictionaries hold what the given ones held
    (nothing for [None]), whose [render_primitive] is the decimal text
    of the number given, and whose [program_id] and [id] are what
    [create_program_id] and [create_id] compute for it; [is_valid] tells
    whether the vertex and the fragment shader were found, whatever the
    geometry shader. *)
Theorem init_sets_identity (fs : Source.file_system) (depth : nat)
    (data : loc) (names : list string) (indices : option loc)
    (folder : option string) (uarg targ : option loc) (dt cp : bool)
    (prim : Z) (h : heap) (xs : list vertex) (code : program_code_t) :
  vert_arrays h !! data = Some xs →
  (∀ a, uarg = Some a → is_Some (uniform_dicts h !! a)) →
  (∀ a, targ = Some a → is_Some (texture_dicts h !! a)) →
  init_program_code fs depth folder = Return code →
  ∃ h' self sw,
    __init__ fs depth data names indices folder uarg targ dt cp prim h
      = (Return self, h')
    ∧ wrappers h !! self = None
    ∧ wrappers h' !! self = Some sw
    ∧ uniform_dicts h' !! uniforms sw
      = Some (dict_or_empty (uniform_dicts h) uarg)
    ∧ texture_dicts h' !! texture_paths sw
      = Some (dict_or_empty (texture_dicts h) targ)
    ∧ program_code sw = code
    ∧ render_primitive sw = str_of_int prim
    ∧ program_id sw = program_id_of code
    ∧ id sw = id_of (program_id_of code)
                (dict_or_empty (uniform_dicts h) uarg)
                (dict_or_empty (texture_dicts h) targ) dt (str_of_int prim)
    ∧ create_program_id self h' = (Return (program_id sw), h')
    ∧ create_id self h' = (Return (id sw), h')
    ∧ is_valid self h'
      = (Return (bool_decide (vertex_shader code ≠ None)
                 && bool_decide (fragment_shader code ≠ None)), h').
Proof.
  intros Hdata Hu Ht Hcode.
  destruct (run_init fs depth data names indices folder uarg targ dt cp prim
              h xs code Hdata Hu Ht Hcode)
    as (h' & self & u & t & Hrun & Hnew & Hsw & Hu' & Ht' & _ & _).
  eexists h', self, _. split; [done |]. split; [done |].
  split; [done |]. cbn [uniforms texture_paths program_code
    render_primitive program_id id].
  repeat (split; [done |]).
  split; [by erewrite run_create_program_id by done |].
  split; [by erewrite run_create_id by done |].
  by erewrite run_is_valid by done.
Qed.

(** X16. The constructor keeps a dictionary that is not empty (the
    instance holds the very dictionary it was given) and gives the
    instance a new dictionary in place of [None] or of an empty one. *)
Theorem init_keeps_nonempty_dicts (fs : Source.file_system) (depth : nat)
    (data : loc) (names : list string) (indices : option loc)
    (folder : option string) (uarg targ : option loc) (dt cp : bool)
    (prim : Z) (h : heap) (xs : list vertex) (code : program_code_t) :
  vert_arrays h !! data = Some xs →
  (∀ a, uarg = Some a → is_Some (uniform_dicts h !! a)) →
  (∀ a, targ = Some a → is_Some (texture_dicts h !! a)) →
  init_program_code fs depth folder = Return code →
  ∃ h' self sw,
    __init__ fs depth data names indices folder uarg targ dt cp prim h
      = (Return self, h')
    ∧ wrappers h' !! self = Some sw
    ∧ kept_or_new (uniform_dicts h) uarg (uniforms sw)
    ∧ kept_or_new (texture_dicts h) targ (texture_paths sw).
Proof.
  intros Hdata Hu Ht Hcode.
  destruct (run_init fs depth data names indices folder uarg targ dt cp prim
              h xs code Hdata Hu Ht Hcode)
    as (h' & self & u & t & Hrun & Hnew & Hsw & Hu' & Ht' & Hku & Hkt).
  by eexists h', self, _.
Qed.

End construction_theorems.

(** ** [read_in] on its own *)

Section read_in_laws.
Context `{Externals}.

(** X17. [read_in], unlike [combine_with], drops what [self] held: with
    sources that are not [self], do not have the arrays of [self] and
    have index buffers when [self] has one, [self] ends with the vertex
    data of the sources, one after the other, and with their indices,
    each block raised by the number of vertices before it, the sum taken
    in the integer dtype of the index arrays, where it wraps around.
    When [self] has an index buffer, the numbers of vertices before each
    source are values of that dtype where NumPy requires it of a Python
    [int]. *)
Theorem read_in_replaces_contents (h : heap) (self : loc)
    (s : ShaderWrapper) (T : list vertex) (ls : list loc)
    (xs : list source) :
  wrappers h !! self = Some s →
  vert_arrays h !! vert_data s = Some T →
  sources_of h self ls = Some xs →
  Forall (λ x, vert_data x.1 ≠ vert_data s) xs →
  (∀ ti, vert_indices s = Some ti →
     is_Some (index_arrays h !! ti)
     ∧ Forall (λ x, is_Some x.2.2 ∧ vert_indices x.1 ≠ Some ti) xs
     ∧ offsets_fit 0 xs) →
  ∃ h' s', read_in self ls h = (Return self, h')
    ∧ wrappers h' !! self = Some s'
    ∧ vert_arrays h' !! vert_data s' = Some (mjoin (map src_data xs))
    ∧ match vert_indices s with
      | Some _ => ∃ ti', vert_indices s' = Some ti'
          ∧ index_arrays h' !! ti' = Some (merged_indices 0 xs)
      | None => vert_indices s' = None
      end.
Proof.
  intros Hs HT Hsrc%sources_of_in Hdata Hidx.
  apply (run_read_in self s ls xs h T); [done.. | |].
  - eapply Forall_impl; [exact Hdata |]. by intros x Hne Heq.
  - intros ti Hti. destruct (Hidx ti Hti) as ([I HI] & Hall & Hfit).
    exists I. split; [done |]. split; [|split; [|done]].
    + eapply Forall_impl; [exact Hall |]. by intros x [? _].
    + eapply Forall_impl; [exact Hall |]. by intros x [_ Hne] Heq.
Qed.

(** X18. Without sources [combine_with] returns [self] and changes
    nothing, while [read_in] empties the vertex buffer and the index
    buffer of [self]. *)
Theorem merging_nothing (h : heap) (self : loc) (s : ShaderWrapper)
    (T : list vertex) :
  wrappers h !! self = Some s →
  vert_arrays h !! vert_data s = Some T →
  (∀ ti, vert_indices s = Some ti → is_Some (index_arrays h !! ti)) →
  combine_with self [] h = (Return self, h)
  ∧ ∃ h' s', read_in self [] h = (Return self, h')
      ∧ wrappers h' !! self = Some s'
      ∧ vert_arrays h' !! vert_data s' = Some []
      ∧ ∀ ti', vert_indices s' = Some ti' →
          index_arrays h' !! ti' = Some [].
Proof.
  intros Hs HT Hidx. split; [done |].
  destruct (run_read_in self s [] [] h T) as (h' & s' & Hrun & Hs' & Hv & Hi);
    [done.. | |].
  { intros ti Hti. destruct (Hidx ti Hti) as [I HI]. exists I.
    repeat split; [done.. | apply offsets_fit_nil]. }
  exists h', s'. repeat (split; [done |]).
  intros ti' Hti'. destruct (vert_indices s); [|congruence].
  destruct Hi as (ti & Hti & Hidx'). by simplify_eq.
Qed.

End read_in_laws.

(** ** The store after a failed merge *)

Section failures.
Context `{Externals}.

Lemma run_read_in_no_indices_store (self : loc) (s : ShaderWrapper)
    (ti : loc) (ls : list loc) (xs : list source) (h : heap)
    (T : list vertex) :
  Forall2 (source_in h self) ls xs →
  wrappers h !! self = Some s →
  vert_arrays h !! vert_data s = Some T →
  vert_indices s = Some ti →
  Exists (λ x, x.2.2 = None) xs →
  ∃ a' T',
    read_in self ls h
    = (Raise TypeError,
       store_wrapper self (with_vert_data s a') (store_vert a' T' h))
    ∧ length T' = total_vertices xs.
Proof.
  intros Hsrc Hself HT Hti Hex. unfold read_in.
  rewrite ?run_bind. erewrite run_sum_len_vert_data by done.
  cbv beta iota. mrun run_get_wrapper.
  destruct (run_resize_vert (vert_data s) T (0 + total_vertices xs) h HT)
    as (a' & T' & Hres & HlenT' & Ha').
  exists a', T'. split; [|done].
  rewrite ?run_bind, Hres. cbv beta iota.
  mrun run_set_vert_data. mrun run_get_wrapper.
  cbn [vert_indices with_vert_data]. rewrite Hti.
  rewrite ?run_bind.
  erewrite (run_sum_len_vert_indices_none _ self ls xs);
    [done | | done].
  eapply Forall2_impl; [exact Hsrc |]. intros l x Hx.
  apply source_in_store_wrapper.
  destruct Hx as (Hw & Hself' & Hb). split; [done |]. split; [done |].
  pose proof (buffers_of_data _ _ _ Hb) as Hd.
  rewrite <-Hb. apply buffers_of_ext; [|done]. heap_simpl.
  destruct Ha' as [[-> ->]|Hnone]; [by rewrite insert_id |].
  rewrite lookup_insert_ne; [done | congruence].
Qed.

(** X19. When [combine_with] raises the [TypeError] of a source without
    index buffer, [self] is left changed: its vertex buffer has already
    been resized to the total number of vertices, and its index buffer
    is as it was. *)
Theorem merge_failure_leaves_resized_buffer (h : heap) (self : loc)
    (s : ShaderWrapper) (b : list vertex * option (list Z))
    (u : dict uniform) (t : dict string) (ls : list loc)
    (xs : list source) :
  wrappers h !! self = Some s →
  buffers_of h s = Some b →
  uniform_dicts h !! uniforms s = Some u →
  texture_dicts h !! texture_paths s = Some t →
  sources_of h self ls = Some xs →
  has_indices (s, b) = true →
  forallb has_indices xs = false →
  ∃ h' s' T',
    combine_with self ls h = (Raise TypeError, h')
    ∧ wrappers h' !! self = Some s'
    ∧ vert_arrays h' !! vert_data s' = Some T'
    ∧ length T' = total_vertices ((s, b) :: xs)
    ∧ vert_indices s' = vert_indices s
    ∧ ∀ ti, vert_indices s = Some ti →
        index_arrays h' !! ti = index_arrays h !! ti.
Proof.
  intros Hself Hb Hu Ht Hsrc%sources_of_in Hhas Hnot%has_indices_not_all.
  pose proof (buffers_of_data _ _ _ Hb) as Hd.
  destruct ls as [|l ls].
  { apply Forall2_nil_inv_l in Hsrc as ->. by apply Exists_nil in Hnot. }
  destruct (vert_indices s) as [ti|] eqn:Hti.
  2: { unfold has_indices in Hhas. simpl in Hhas.
       by rewrite (buffers_of_no_indices _ _ _ Hb Hti) in Hhas. }
  destruct (run_copy self s b u t h) as
    (h1 & c & sc & Hcopy & Hc & Hw & Ha & Hv & Hi); [done.. |].
  rewrite Hti in Hi.
  pose proof (copy_sources self c s sc b h h1 (l :: ls) xs) as Hsrc1.
  rewrite Hti in Hsrc1.
  destruct (Hsrc1 Hself Hb Hc Hw Ha Hv Hi Hsrc) as (Hsrc1' & _ & _).
  destruct Hi as (i' & idx & Hsci & Hi' & Hb2 & Hidx).
  destruct (buffers_of_indices _ _ _ _ Hb Hti) as (idx0 & Hidx0 & _).
  destruct (run_read_in_no_indices_store self s ti (c :: l :: ls)
              ((sc, b) :: xs) h1 b.1) as (a' & T' & Hread & Hlen);
    [done | | | done | by apply Exists_cons_tl |].
  { rewrite Hw, lookup_insert_ne; [done | congruence]. }
  { rewrite Hv, lookup_insert_ne; [done | congruence]. }
  unfold combine_with. rewrite ?run_bind, Hcopy. cbv beta iota.
  rewrite ?run_bind, Hread.
  eexists _, _, T'. split; [done |]. heap_simpl.
  rewrite !lookup_insert_eq.
  split; [reflexivity |]. cbn [vert_data vert_indices with_vert_data].
  rewrite lookup_insert_eq.
  split; [done |]. split; [exact Hlen |].
  split; [done |]. intros ti' [= <-].
  rewrite Hidx, lookup_insert_ne; [done | congruence].
Qed.

End failures.

(** ** Closed evaluations *)

Section more_evaluations.
Import Examples Cases.
#[local] Existing Instance reference_externals.

Lemma merge_leaves_the_rest_two :
  merged_into store_two 1 (instance 1 (Some 1) 1 1 no_uniforms)
    (combine_with 1 [2] store_two).2
  ∧ merged_into store_two 1 (instance 1 (Some 1) 1 1 no_uniforms)
      (read_in 1 [2] store_two).2.
Proof.
  exact (merge_leaves_the_rest store_two 1
           (instance 1 (Some 1) 1 1 no_uniforms) [2] eq_refl).
Defined.

Lemma eq_true_iff_array_uniform :
  (∃ b, __eq__ 1 2 store_array_uniform = (Return b, store_array_uniform)
    ∧ (b = true ↔
       Forall2 (λ x y : Z, np_eq x y = true)
         [10; 11; 12]%Z [10; 11; 12]%Z
       ∧ Some [0; 1; 2]%Z = Some [0; 1; 2]%Z
       ∧ Some "quadratic_bezier" = Some "quadratic_bezier"
       ∧ (∀ k v, (k, v) ∈ [("opacity", PyInt 1)] →
            ∃ v', dict_get [("opacity", NdArray0 1)] k = Some v'
              ∧ uniform_all_eq v v' = Return true)
       ∧ (∀ k v, (k, v) ∈ [("Texture", "img.png")] →
            dict_get [("Texture", "img.png")] k = Some v)
       ∧ false = false
       ∧ "5" = "5"))
  ∧ (__eq__ 1 2 store_array_uniform).1 = Return true.
Proof.
  split; [|by vm_compute].
  apply (eq_true_iff store_array_uniform 1 2
           (instance 1 (Some 1) 1 1
              "28|{'opacity': 1}|{'Texture': 'img.png'}|False|5")
           (instance 2 (Some 2) 2 2
              "28|{'opacity': array(1)}|{'Texture': 'img.png'}|False|5")
           [10; 11; 12]%Z [10; 11; 12]%Z (Some [0; 1; 2]%Z)
           (Some [0; 1; 2]%Z) [("opacity", PyInt 1)]
           [("opacity", NdArray0 1)] [("Texture", "img.png")]
           [("Texture", "img.png")]);
    try reflexivity.
  - intros k v [= -> ->]%list_elem_of_singleton.
    by exists (NdArray0 1), true.
  - intros k v [= -> ->]%list_elem_of_singleton. by eexists.
Defined.

Lemma eq_reads_seven_attributes_relabelled :
  (__eq__ 1 2 store_array_uniform).1
    = (__eq__ 1 2 store_array_uniform_relabelled).1
  ∧ (__eq__ 1 2 store_array_uniform_relabelled).1 = Return true.
Proof.
  split; [|by vm_compute].
  apply (eq_reads_seven_attributes store_array_uniform
           store_array_uniform_relabelled
           ltac:(by repeat split) 1 2
           (instance 1 (Some 1) 1 1
              "28|{'opacity': 1}|{'Texture': 'img.png'}|False|5")
           (instance 1 (Some 1) 1 1
              "28|{'opacity': 1}|{'Texture': 'img.png'}|False|5")
           (instance 2 (Some 2) 2 2
              "28|{'opacity': array(1)}|{'Texture': 'img.png'}|False|5")
           (relabelled
              (instance 2 (Some 2) 2 2
                 "28|{'opacity': array(1)}|{'Texture': 'img.png'}|False|5")));
    try reflexivity; by repeat split.
Defined.

Lemma eq_missing_key_extra_uniform :
  (__eq__ 2 1 store_extra_uniform).1 ≠ Return true
  ∧ (∀ rest, [("opacity", PyInt 1)] = ("opacity", PyInt 1) :: rest →
       returns (np_all_eq [10; 11; 12]%Z [10; 11; 12]%Z) = true →
       returns (np_all_eq_opt (Some [0; 1; 2]%Z) (Some [0; 1; 2]%Z))
         = true →
       (__eq__ 2 1 store_extra_uniform).1 = Raise KeyError).
Proof.
  apply (eq_missing_key store_extra_uniform 2 1
           (instance 2 (Some 2) 2 2 "28|{'opacity': 1}|{}|False|5")
           (instance 1 (Some 1) 1 1 no_uniforms)
           ([10; 11; 12]%Z, Some [0; 1; 2]%Z)
           ([10; 11; 12]%Z, Some [0; 1; 2]%Z)
           [("opacity", PyInt 1)] [] [] [] "opacity" (PyInt 1));
    try reflexivity.
  by left.
Defined.

Lemma copy_owns_its_buffers_extra_uniform :
  ∃ h' c sc, copy 2 store_extra_uniform = (Return c, h')
    ∧ wrappers store_extra_uniform !! c = None
    ∧ wrappers h' !! c = Some sc
    ∧ buffers_of h' sc = Some ([10; 11; 12]%Z, Some [0; 1; 2]%Z)
    ∧ vert_arrays store_extra_uniform !! vert_data sc = None
    ∧ (∀ i, vert_indices sc = Some i →
         index_arrays store_extra_uniform !! i = None)
    ∧ uniform_dicts h' !! uniforms sc = Some [("opacity", NdArray0 1)]
    ∧ uniform_dicts store_extra_uniform !! uniforms sc = None
    ∧ texture_dicts h' !! texture_paths sc = Some []
    ∧ texture_paths sc = 2
    ∧ vert_attributes sc = ["point"; "rgba"]
    ∧ shader_folder sc = Some "quadratic_bezier"
    ∧ depth_test sc = false
    ∧ use_clip_plane sc = false
    ∧ render_primitive sc = "5"
    ∧ program_code sc
      = ProgramCode (Some "void main() {}") None (Some "void main() {}")
    ∧ program_id sc = 28%Z
    ∧ id sc = "28|{'opacity': 1}|{}|False|5".
Proof.
  exact (@copy_owns_its_buffers reference_externals 2
           (instance 2 (Some 2) 2 2 "28|{'opacity': 1}|{}|False|5")
           ([10; 11; 12]%Z, Some [0; 1; 2]%Z) [("opacity", PyInt 1)] []
           store_extra_uniform eq_refl eq_refl eq_refl eq_refl).
Defined.

Lemma copy_equals_original_array_uniform :
  ((c ← copy 1; __eq__ 1 c) store_array_uniform).1 = Return true
  ∧ ((c ← copy 1; __eq__ c 1) store_array_uniform).1 = Return true.
Proof.
  apply (@copy_equals_original reference_externals 1
           (instance 1 (Some 1) 1 1
              "28|{'opacity': 1}|{'Texture': 'img.png'}|False|5")
           ([10; 11; 12]%Z, Some [0; 1; 2]%Z) [("opacity", PyInt 1)]
           [("Texture", "img.png")] store_array_uniform);
    try reflexivity.
  - by repeat constructor.
  - apply NoDup_singleton.
  - apply NoDup_singleton.
  - intros k v [= -> ->]%list_elem_of_singleton. by split.
Defined.

Lemma id_is_stale_until_refresh_two :
  ((setitem_uniforms 1 "opacity" (PyInt 3);; get_id 1) store_two).1
    = Return "28|{}|{}|False|5"
  ∧ ((setitem_uniforms 1 "opacity" (PyInt 3);; create_id 1) store_two).1
    = Return "28|{'opacity': 3}|{}|False|5"
  ∧ ((setitem_uniforms 1 "opacity" (PyInt 3);; refresh_id 1;; get_id 1)
       store_two).1
    = Return "28|{'opacity': 3}|{}|False|5".
Proof.
  exact (@id_is_stale_until_refresh reference_externals 1
           (instance 1 (Some 1) 1 1 no_uniforms)
           [] [] "opacity" (PyInt 3) store_two eq_refl eq_refl eq_refl).
Defined.

Lemma program_id_of_concatenation_split :
  ∃ n, (create_program_id 1 store_split).1 = Return n
    ∧ (create_program_id 2 store_split).1 = Return n.
Proof.
  exact (program_id_of_concatenation store_split store_split 1 2
           (with_code (Some "void a();") None (Some "void b();"))
           (with_code (Some "void a();void ") (Some EmptyString)
              (Some "b();"))
           eq_refl eq_refl eq_refl).
Defined.

Lemma init_raises_what_resolution_raises_no_folder :
  init_program_code fs_quad 3 None = Raise TypeError
  ∧ (__init__ fs_quad 3 1 ["point"; "rgba"] (Some 1) None None None false
       false 5 store_two).1 = Raise TypeError
  ∧ wrappers
      (__init__ fs_quad 3 1 ["point"; "rgba"] (Some 1) None None None
         false false 5 store_two).2 = wrappers store_two.
Proof.
  apply (init_raises_what_resolution_raises fs_quad 3 1 ["point"; "rgba"]
           (Some 1) None None None false false 5 store_two
           [10; 11; 12]%Z TypeError); try reflexivity; by intros a [=].
Defined.

Lemma init_sets_identity_quad :
  ∃ h' self sw,
    __init__ fs_quad 3 1 ["point"; "rgba"] (Some 1) (Some "quad") (Some 2)
      None true false 4 store_extra_uniform = (Return self, h')
    ∧ wrappers store_extra_uniform !! self = None
    ∧ wrappers h' !! self = Some sw
    ∧ uniform_dicts h' !! uniforms sw = Some [("opacity", PyInt 1)]
    ∧ texture_dicts h' !! texture_paths sw = Some []
    ∧ program_code sw
      = ProgramCode (Some "void main() {}") None (Some "vec4 shade();")
    ∧ render_primitive sw = "4"
    ∧ program_id sw = 27%Z
    ∧ id sw = "27|{'opacity': 1}|{}|True|4"
    ∧ create_program_id self h' = (Return (program_id sw), h')
    ∧ create_id self h' = (Return (id sw), h')
    ∧ is_valid self h' = (Return true, h').
Proof.
  apply (init_sets_identity fs_quad 3 1 ["point"; "rgba"] (Some 1)
           (Some "quad") (Some 2) None true false 4 store_extra_uniform
           [10; 11; 12]%Z
           (ProgramCode (Some "void main() {}") None
              (Some "vec4 shade();"))); try reflexivity.
  - intros a [= <-]. by eexists.
  - by intros a [=].
Defined.

Lemma init_keeps_nonempty_dicts_quad :
  ∃ h' self sw,
    __init__ fs_quad 3 1 ["point"; "rgba"] (Some 1) (Some "quad") (Some 2)
      (Some 1) true false 4 store_extra_uniform = (Return self, h')
    ∧ wrappers h' !! self = Some sw
    ∧ uniforms sw = 2
    ∧ texture_dicts store_extra_uniform !! texture_paths sw = None.
Proof.
  apply (init_keeps_nonempty_dicts fs_quad 3 1 ["point"; "rgba"] (Some 1)
           (Some "quad") (Some 2) (Some 1) true false 4
           store_extra_uniform [10; 11; 12]%Z
           (ProgramCode (Some "void main() {}") None
              (Some "vec4 shade();"))); try reflexivity.
  - intros a [= <-]. by eexists.
  - intros a [= <-]. by eexists.
Defined.

Lemma read_in_replaces_contents_two :
  ∃ h' s', read_in 1 [2; 2] store_two = (Return 1, h')
    ∧ wrappers h' !! 1 = Some s'
    ∧ vert_arrays h' !! vert_data s' = Some [20; 21; 20; 21]%Z
    ∧ ∃ ti', vert_indices s' = Some ti'
        ∧ index_arrays h' !! ti' = Some [1; 0; 3; 2]%Z.
Proof.
  apply (read_in_replaces_contents store_two 1
           (instance 1 (Some 1) 1 1 no_uniforms) [10; 11; 12]%Z [2; 2]
           [(instance 2 (Some 2) 2 2 no_uniforms,
             ([20; 21]%Z, Some [1; 0]%Z));
            (instance 2 (Some 2) 2 2 no_uniforms,
             ([20; 21]%Z, Some [1; 0]%Z))]); try reflexivity.
  - by repeat constructor.
  - intros ti [= <-]. split; [by eexists |]. split.
    + repeat constructor; first [by eexists | done].
    + intros [|[|k]] Hk _; [by vm_compute.. | simpl in Hk; lia].
Defined.

Lemma merging_nothing_two :
  combine_with 1 [] store_two = (Return 1, store_two)
  ∧ ∃ h' s', read_in 1 [] store_two = (Return 1, h')
      ∧ wrappers h' !! 1 = Some s'
      ∧ vert_arrays h' !! vert_data s' = Some []
      ∧ ∀ ti', vert_indices s' = Some ti' →
          index_arrays h' !! ti' = Some [].
Proof.
  apply (merging_nothing store_two 1 (instance 1 (Some 1) 1 1 no_uniforms)
           [10; 11; 12]%Z); try reflexivity.
  intros ti [= <-]. by eexists.
Defined.

Lemma merge_failure_leaves_resized_buffer_mixed :
  ∃ h' s' T',
    combine_with 2 [1] store_mixed = (Raise TypeError, h')
    ∧ wrappers h' !! 2 = Some s'
    ∧ vert_arrays h' !! vert_data s' = Some T'
    ∧ length T' = 5
    ∧ vert_indices s' = Some 2
    ∧ ∀ ti, Some 2 = Some ti →
        index_arrays h' !! ti = index_arrays store_mixed !! ti.
Proof.
  exact (merge_failure_leaves_resized_buffer store_mixed 2
           (instance 2 (Some 2) 2 2 no_uniforms)
           ([20; 21]%Z, Some [1; 0]%Z) [] [] [1]
           [(instance 1 None 1 1 no_uniforms, ([10; 11; 12]%Z, None))]
           eq_refl eq_refl eq_refl eq_refl eq_refl eq_refl eq_refl).
Defined.

End more_evaluations.

End WrapperLaws.
